(** * Account manager extension: credential cipher and environment matcher

    A shallow embedding of [crypto-utils.js] (class [CryptoUtils]) and of
    [matchEnvironment] / [initFloatingPanel] from [content.js], together
    with the browser built-ins they call.

    - JavaScript strings are sequences of UTF-16 code units ([list Z]).
    - [Uint8Array]s are [list byte].
    - [async] functions run to completion one after another (the
      extension is single threaded), so a function is a computation in a
      state-and-exception monad over a [World]: the random source, the
      console and [chrome.storage.local].
    - [crypto.subtle] and the [URL] constructor are interfaces
      ([SubtleCrypto], [URLParser]); the text codecs, [btoa]/[atob], the
      regular expression test and the string methods are defined.

    Around this core: [validateDomain] of the popup, the copy of
    [matchEnvironment] and the tab listener of the background page, the
    URL checks of [FloatingPanel], and the handlers that store, read and
    delete accounts in the popup, the panel and the background page, as
    computations over a [Page]: the world, the [accounts] key of storage,
    the clock and the effects on the page. *)

From Stdlib Require Import Strings.String Strings.Ascii Strings.Byte.
From Stdlib Require Import ZArith List Bool Lia.
From Stdlib Require Import DecimalString DecimalZ.
Import ListNotations.
Local Open Scope Z_scope.

(* ================================================================= *)
(** ** JavaScript strings and typed arrays *)

Definition jsstring := list Z.
Definition Uint8Array := list byte.

(** A string literal of ASCII characters. *)
Definition js (s : string) : jsstring :=
  map (fun a => Z.of_N (N_of_ascii a)) (list_ascii_of_string s).
Arguments js s%_string.

Definition Z_of_byte (b : byte) : Z := Z.of_N (Byte.to_N b).

(** Storing a number into a [Uint8Array] element keeps it modulo 256. *)
Definition byte_of_Z (z : Z) : byte :=
  match Byte.of_N (Z.to_N (z mod 256)) with
  | Some b => b
  | None => x00
  end.

(** [a === b] on strings. *)
Fixpoint str_eqb (a b : jsstring) : bool :=
  match a, b with
  | [], [] => true
  | x :: a', y :: b' => (x =? y) && str_eqb a' b'
  | _, _ => false
  end.

(** [s.startsWith(prefix)]. *)
Fixpoint startsWith (s prefix : jsstring) {struct prefix} : bool :=
  match prefix with
  | [] => true
  | p :: prefix' =>
      match s with
      | [] => false
      | c :: s' => (c =? p) && startsWith s' prefix'
      end
  end.

(** [s.endsWith(suffix)]. *)
Definition endsWith (s suffix : jsstring) : bool :=
  (length suffix <=? length s)%nat &&
  str_eqb (skipn (length s - length suffix) s) suffix.

(** Index clamping shared by [String.prototype.slice] and
    [TypedArray.prototype.slice]: a negative index counts from the end. *)
Definition slice_index (len i : Z) : Z :=
  if i <? 0 then Z.max (len + i) 0 else Z.min i len.

(** [l.slice(start, end)]; [None] stands for an omitted [end]. *)
Definition slice {A : Type} (l : list A) (start : Z) (end_ : option Z) : list A :=
  let len := Z.of_nat (length l) in
  let from := slice_index len start in
  let to := match end_ with Some e => slice_index len e | None => len end in
  firstn (Z.to_nat (to - from)) (skipn (Z.to_nat from) l).

(** [target.set(source, offset)] on typed arrays: [None] is the
    [RangeError] raised when the source does not fit. *)
Definition typed_set (target source : Uint8Array) (offset : nat) : option Uint8Array :=
  if (offset + length source <=? length target)%nat
  then Some (firstn offset target ++ source ++ skipn (offset + length source) target)
  else None.

(** Values that may be [null]/[undefined]; [js_truthy] is the test made by
    [!v] and [v || w]. *)
Definition js_truthy (v : option jsstring) : bool :=
  match v with
  | Some (_ :: _) => true
  | _ => false
  end.

(* ================================================================= *)
(** ** Regular expressions (the fragment the sources use) *)

Inductive regex : Type :=
| Never : regex
| Empty : regex
| Class (p : Z -> bool) : regex
| Seq (r1 r2 : regex) : regex
| Alt (r1 r2 : regex) : regex
| Star (r : regex) : regex.

Fixpoint nullable (r : regex) : bool :=
  match r with
  | Never => false
  | Empty => true
  | Class _ => false
  | Seq r1 r2 => nullable r1 && nullable r2
  | Alt r1 r2 => nullable r1 || nullable r2
  | Star _ => true
  end.

Fixpoint deriv (c : Z) (r : regex) : regex :=
  match r with
  | Never => Never
  | Empty => Never
  | Class p => if p c then Empty else Never
  | Seq r1 r2 =>
      if nullable r1 then Alt (Seq (deriv c r1) r2) (deriv c r2)
      else Seq (deriv c r1) r2
  | Alt r1 r2 => Alt (deriv c r1) (deriv c r2)
  | Star r1 => Seq (deriv c r1) (Star r1)
  end.

(** [/^r$/.test(s)]: the whole string is matched. *)
Fixpoint regex_test (r : regex) (s : jsstring) : bool :=
  match s with
  | [] => nullable r
  | c :: s' => regex_test (deriv c r) s'
  end.

(** The strings a regular expression denotes. *)
Inductive lang : regex -> jsstring -> Prop :=
| lang_Empty : lang Empty []
| lang_Class p c : p c = true -> lang (Class p) [c]
| lang_Seq r1 r2 s1 s2 : lang r1 s1 -> lang r2 s2 -> lang (Seq r1 r2) (s1 ++ s2)
| lang_Alt_l r1 r2 s : lang r1 s -> lang (Alt r1 r2) s
| lang_Alt_r r1 r2 s : lang r2 s -> lang (Alt r1 r2) s
| lang_Star_nil r : lang (Star r) []
| lang_Star_app r s1 s2 : lang r s1 -> lang (Star r) s2 -> lang (Star r) (s1 ++ s2).

Definition Lit (c : Z) : regex := Class (Z.eqb c).
Definition Opt (r : regex) : regex := Alt Empty r.
(** [r{0,2}]. *)
Definition UpTo2 (r : regex) : regex := Opt (Seq r (Opt r)).

Definition in_range (lo hi c : Z) : bool := (lo <=? c) && (c <=? hi).

(** The character class [[A-Za-z0-9+/]]. *)
Definition base64_class (c : Z) : bool :=
  in_range 65 90 c || in_range 97 122 c || in_range 48 57 c ||
  (c =? 43) || (c =? 47).

(** [/^[A-Za-z0-9+/]*={0,2}$/]. *)
Definition base64Regex : regex := Seq (Star (Class base64_class)) (UpTo2 (Lit 61)).

(** [s.replace(/\/$/, '')]: a final ['/'] is removed, once. *)
Definition replace_trailing_slash (s : jsstring) : jsstring :=
  if endsWith s (js "/") then slice s 0 (Some (-1)) else s.

(* ================================================================= *)
(** ** [btoa] and [atob] *)

(** The base64 alphabet: the character of a 6-bit value. *)
Definition b64_char (v : Z) : Z :=
  if v <? 26 then 65 + v
  else if v <? 52 then 97 + (v - 26)
  else if v <? 62 then 48 + (v - 52)
  else if v =? 62 then 43
  else 47.

(** The 6-bit value of a base64 character. *)
Definition b64_value (c : Z) : option Z :=
  if in_range 65 90 c then Some (c - 65)
  else if in_range 97 122 c then Some (c - 97 + 26)
  else if in_range 48 57 c then Some (c - 48 + 52)
  else if c =? 43 then Some 62
  else if c =? 47 then Some 63
  else None.

Fixpoint b64_encode (l : list Z) : jsstring :=
  match l with
  | [] => []
  | [a] => [b64_char (a / 4); b64_char ((a mod 4) * 16); 61; 61]
  | [a; b] =>
      [b64_char (a / 4); b64_char ((a mod 4) * 16 + b / 16);
       b64_char ((b mod 16) * 4); 61]
  | a :: b :: c :: rest =>
      b64_char (a / 4) :: b64_char ((a mod 4) * 16 + b / 16) ::
      b64_char ((b mod 16) * 4 + c / 64) :: b64_char (c mod 64) ::
      b64_encode rest
  end.

(** [btoa(binary)]: [None] is the [InvalidCharacterError] raised when a
    character is above U+00FF. *)
Definition btoa (binary : jsstring) : option jsstring :=
  if forallb (in_range 0 255) binary then Some (b64_encode binary) else None.

Definition ascii_whitespace (c : Z) : bool :=
  (c =? 9) || (c =? 10) || (c =? 12) || (c =? 13) || (c =? 32).

(** Removes one or two ['='] at the end of the string. *)
Fixpoint strip_padding (s : jsstring) : jsstring :=
  match s with
  | [] => []
  | c :: s' =>
      match s' with
      | [] => if c =? 61 then [] else [c]
      | [d] => if (c =? 61) && (d =? 61) then [] else c :: strip_padding s'
      | _ => c :: strip_padding s'
      end
  end.

Fixpoint b64_values (s : jsstring) : option (list Z) :=
  match s with
  | [] => Some []
  | c :: s' =>
      match b64_value c, b64_values s' with
      | Some v, Some vs => Some (v :: vs)
      | _, _ => None
      end
  end.

(** Groups of four 6-bit values give three bytes; a final group of two or
    three values gives one or two bytes, the left-over bits are dropped. *)
Fixpoint b64_decode (vs : list Z) : list Z :=
  match vs with
  | a :: b :: c :: d :: rest =>
      (a * 4 + b / 16) :: ((b mod 16) * 16 + c / 4) :: ((c mod 4) * 64 + d) ::
      b64_decode rest
  | [a; b; c] => [a * 4 + b / 16; (b mod 16) * 16 + c / 4]
  | [a; b] => [a * 4 + b / 16]
  | _ => []
  end.

(** [atob(data)], the forgiving base64 decoder: [None] is the
    [InvalidCharacterError]. *)
Definition atob (data : jsstring) : option jsstring :=
  let d := filter (fun c => negb (ascii_whitespace c)) data in
  let d := if (Z.of_nat (length d) mod 4 =? 0) then strip_padding d else d in
  if Z.of_nat (length d) mod 4 =? 1 then None
  else match b64_values d with
       | Some vs => Some (b64_decode vs)
       | None => None
       end.

(* ================================================================= *)
(** ** [TextEncoder] and [TextDecoder] (UTF-8) *)

Definition is_high_surrogate (c : Z) : bool := in_range 0xD800 0xDBFF c.
Definition is_low_surrogate (c : Z) : bool := in_range 0xDC00 0xDFFF c.

(** The scalar values of a string: a surrogate pair is one code point, a
    surrogate that is not part of a pair becomes U+FFFD. *)
Fixpoint scalar_values (s : jsstring) : list Z :=
  match s with
  | [] => []
  | c :: s' =>
      if is_high_surrogate c then
        match s' with
        | d :: s'' =>
            if is_low_surrogate d
            then (0x10000 + (c - 0xD800) * 1024 + (d - 0xDC00)) :: scalar_values s''
            else 0xFFFD :: scalar_values s'
        | [] => [0xFFFD]
        end
      else if is_low_surrogate c then 0xFFFD :: scalar_values s'
      else c :: scalar_values s'
  end.

Definition utf8_bytes (cp : Z) : list Z :=
  if cp <? 0x80 then [cp]
  else if cp <? 0x800 then [0xC0 + cp / 64; 0x80 + cp mod 64]
  else if cp <? 0x10000 then
    [0xE0 + cp / 4096; 0x80 + (cp / 64) mod 64; 0x80 + cp mod 64]
  else
    [0xF0 + cp / 262144; 0x80 + (cp / 4096) mod 64;
     0x80 + (cp / 64) mod 64; 0x80 + cp mod 64].

(** [new TextEncoder().encode(s)]. *)
Definition TextEncoder_encode (s : jsstring) : Uint8Array :=
  map byte_of_Z (flat_map utf8_bytes (scalar_values s)).

(** The state of the UTF-8 decoder. *)
Record Utf8State : Type := {
  code_point : Z;
  bytes_seen : Z;
  bytes_needed : Z;
  lower_boundary : Z;
  upper_boundary : Z
}.

Definition utf8_init : Utf8State :=
  {| code_point := 0; bytes_seen := 0; bytes_needed := 0;
     lower_boundary := 0x80; upper_boundary := 0xBF |}.

(** A byte read when no continuation byte is awaited. *)
Definition utf8_lead (b : Z) : list Z * Utf8State :=
  if b <=? 0x7F then ([b], utf8_init)
  else if in_range 0xC2 0xDF b then
    ([], {| code_point := b mod 32; bytes_seen := 0; bytes_needed := 1;
            lower_boundary := 0x80; upper_boundary := 0xBF |})
  else if in_range 0xE0 0xEF b then
    ([], {| code_point := b mod 16; bytes_seen := 0; bytes_needed := 2;
            lower_boundary := if b =? 0xE0 then 0xA0 else 0x80;
            upper_boundary := if b =? 0xED then 0x9F else 0xBF |})
  else if in_range 0xF0 0xF4 b then
    ([], {| code_point := b mod 8; bytes_seen := 0; bytes_needed := 3;
            lower_boundary := if b =? 0xF0 then 0x90 else 0x80;
            upper_boundary := if b =? 0xF4 then 0x8F else 0xBF |})
  else ([0xFFFD], utf8_init).

(** One byte: the code points it completes and the next state. A byte that
    cannot continue the sequence ends it with U+FFFD and is read again as a
    first byte. *)
Definition utf8_step (st : Utf8State) (b : Z) : list Z * Utf8State :=
  if bytes_needed st =? 0 then utf8_lead b
  else if negb (in_range (lower_boundary st) (upper_boundary st) b) then
    let (out, st') := utf8_lead b in (0xFFFD :: out, st')
  else
    let cp := code_point st * 64 + b mod 64 in
    if bytes_seen st + 1 =? bytes_needed st then ([cp], utf8_init)
    else ([], {| code_point := cp; bytes_seen := bytes_seen st + 1;
                 bytes_needed := bytes_needed st;
                 lower_boundary := 0x80; upper_boundary := 0xBF |}).

Fixpoint utf8_run (st : Utf8State) (bytes : list Z) : list Z :=
  match bytes with
  | [] => if bytes_needed st =? 0 then [] else [0xFFFD]
  | b :: rest => let (out, st') := utf8_step st b in out ++ utf8_run st' rest
  end.

(** A byte order mark at the start of the input is not decoded. *)
Definition strip_bom (bytes : list Z) : list Z :=
  match bytes with
  | b0 :: b1 :: b2 :: rest =>
      if (b0 =? 0xEF) && (b1 =? 0xBB) && (b2 =? 0xBF) then rest else bytes
  | _ => bytes
  end.

Definition utf16_units (cp : Z) : list Z :=
  if cp <? 0x10000 then [cp]
  else [0xD800 + (cp - 0x10000) / 1024; 0xDC00 + (cp - 0x10000) mod 1024].

(** [new TextDecoder().decode(bytes)]. *)
Definition TextDecoder_decode (bytes : Uint8Array) : jsstring :=
  flat_map utf16_units (utf8_run utf8_init (strip_bom (map Z_of_byte bytes))).

(** [s.isWellFormed()]: code units, every surrogate in a pair. *)
Fixpoint isWellFormed (s : jsstring) : bool :=
  match s with
  | [] => true
  | c :: s' =>
      if is_high_surrogate c then
        match s' with
        | d :: s'' => is_low_surrogate d && isWellFormed s''
        | [] => false
        end
      else in_range 0 0xFFFF c && negb (is_low_surrogate c) && isWellFormed s'
  end.

(* ================================================================= *)
(** ** The world: random source, console, extension storage *)

Inductive exn : Type :=
| Error (message : string)
| TypeError
| RangeError
| OperationError
| InvalidCharacterError
| StorageError.

Inductive outcome (A : Type) : Type :=
| Return (a : A)
| Throw (e : exn).
Arguments Return {A} a.
Arguments Throw {A} e.

Inductive ConsoleLevel : Type := LDebug | LWarn | LError.

Record Environment : Type := {
  id : jsstring;
  name : jsstring;
  loginUrl : option jsstring;
  loginButtonId : option jsstring;
  loginButtonClass : option jsstring
}.

(** What [chrome.storage.local] holds under the keys the core reads. *)
Record StorageArea : Type := {
  masterPassword : option jsstring;
  environments : option (list Environment)
}.

Record World : Type := {
  rng : nat -> byte;
  console : list (ConsoleLevel * string);
  local : option StorageArea
}.

Definition M (A : Type) : Type := World -> outcome A * World.

Definition ret {A : Type} (a : A) : M A := fun w => (Return a, w).
Definition throw {A : Type} (e : exn) : M A := fun w => (Throw e, w).

Definition bind {A B : Type} (m : M A) (k : A -> M B) : M B :=
  fun w =>
    match m w with
    | (Return a, w') => k a w'
    | (Throw e, w') => (Throw e, w')
    end.

(** [try { body } catch (error) { handler }]. *)
Definition try_catch {A : Type} (body : M A) (handler : exn -> M A) : M A :=
  fun w =>
    match body w with
    | (Return a, w') => (Return a, w')
    | (Throw e, w') => handler e w'
    end.

Notation "x <- m ;; k" := (bind m (fun x => k))
  (at level 61, m at next level, right associativity).
Notation "m ;;; k" := (bind m (fun _ => k))
  (at level 61, right associativity).

(** A built-in that raises [e] where its model has no result. *)
Definition builtin {A : Type} (r : option A) (e : exn) : M A :=
  match r with
  | Some a => ret a
  | None => throw e
  end.

(** The world after a console call. *)
Definition logged (l : ConsoleLevel) (msg : string) (w : World) : World :=
  {| rng := rng w; console := console w ++ [(l, msg)]; local := local w |}.

Definition console_write (l : ConsoleLevel) (msg : string) : M unit :=
  fun w => (Return tt, logged l msg w).
Definition console_debug := console_write LDebug.
Definition console_warn := console_write LWarn.
Definition console_error := console_write LError.

(** The world after [n] random bytes were drawn. *)
Definition drawn (n : nat) (w : World) : World :=
  {| rng := fun i => rng w (n + i)%nat; console := console w; local := local w |}.

(** [crypto.getRandomValues(new Uint8Array(n))]. *)
Definition getRandomValues (n : nat) : M Uint8Array :=
  fun w => (Return (map (rng w) (seq 0 n)), drawn n w).

(** [chrome.storage.local.get(...)]; storage that cannot be reached
    rejects. *)
Definition storage_local_get : M StorageArea :=
  fun w => match local w with
           | Some area => (Return area, w)
           | None => (Throw StorageError, w)
           end.

(** [chrome.storage.local.set({ masterPassword: v })]. *)
Definition storage_local_set_masterPassword (v : jsstring) : M unit :=
  fun w => match local w with
           | Some area =>
               (Return tt,
                {| rng := rng w; console := console w;
                   local := Some {| masterPassword := Some v;
                                    environments := environments area |} |})
           | None => (Throw StorageError, w)
           end.

(* ================================================================= *)
(** ** [crypto.subtle] *)

Record Pbkdf2Params : Type := {
  pbkdf2_salt : Uint8Array;
  pbkdf2_iterations : Z;
  pbkdf2_hash : string
}.

Record AesKeyAlgorithm : Type := {
  alg_name : string;
  alg_length : Z
}.

Record AesGcmParams : Type := { gcm_iv : Uint8Array }.

(** The operations of [crypto.subtle] the cipher calls. [None] is a
    rejected promise (or [crypto.subtle] missing from the context). *)
Class SubtleCrypto : Type := {
  KeyMaterial : Type;
  CryptoKey : Type;
  (** [importKey('raw', keyData, { name: 'PBKDF2' }, false, usages)] *)
  subtle_importKey : Uint8Array -> option KeyMaterial;
  (** [deriveKey(pbkdf2Params, baseKey, derivedKeyType, false, usages)] *)
  subtle_deriveKey :
    Pbkdf2Params -> KeyMaterial -> AesKeyAlgorithm -> list string -> option CryptoKey;
  (** [encrypt({ name: 'AES-GCM', iv }, key, data)] *)
  subtle_encrypt : AesGcmParams -> CryptoKey -> Uint8Array -> option Uint8Array;
  (** [decrypt({ name: 'AES-GCM', iv }, key, data)] *)
  subtle_decrypt : AesGcmParams -> CryptoKey -> Uint8Array -> option Uint8Array
}.

(** Decrypting under the key and IV of the encryption returns the data. *)
Definition gcm_correct (sc : SubtleCrypto) : Prop :=
  forall params key data encrypted,
    subtle_encrypt params key data = Some encrypted ->
    subtle_decrypt params key encrypted = Some data.

(* ================================================================= *)
(** ** [class CryptoUtils] *)

Section CryptoUtils.
Context {sc : SubtleCrypto}.

(** Set by the constructor. *)
Definition algorithm : AesKeyAlgorithm :=
  {| alg_name := "AES-GCM"; alg_length := 256 |}.
Definition keyUsage : list string := ["encrypt"; "decrypt"]%string.

Definition deriveKey (password : jsstring) (salt : Uint8Array) : M CryptoKey :=
  try_catch
    (passwordKey <-
       builtin (subtle_importKey (TextEncoder_encode password)) OperationError ;;
     key <-
       builtin (subtle_deriveKey
                  {| pbkdf2_salt := salt; pbkdf2_iterations := 100000;
                     pbkdf2_hash := "SHA-256" |}
                  passwordKey algorithm keyUsage) OperationError ;;
     ret key)
    (fun error =>
       console_error "key derivation failed" ;;;
       throw (Error "key derivation failed")).

Definition generateSalt : M Uint8Array := getRandomValues 16.

Definition generateIV : M Uint8Array := getRandomValues 12.

Definition arrayBufferToBase64 (buffer : Uint8Array) : M jsstring :=
  let bytes := buffer in
  let binary := fold_left (fun binary b => binary ++ [Z_of_byte b]) bytes [] in
  builtin (btoa binary) InvalidCharacterError.

Definition base64ToArrayBuffer (base64 : jsstring) : M Uint8Array :=
  binary <- builtin (atob base64) InvalidCharacterError ;;
  let bytes := map byte_of_Z binary in
  ret bytes.

Definition encrypt (plaintext password : jsstring) : M jsstring :=
  try_catch
    (let data := TextEncoder_encode plaintext in
     salt <- generateSalt ;;
     iv <- generateIV ;;
     key <- deriveKey password salt ;;
     encrypted <- builtin (subtle_encrypt {| gcm_iv := iv |} key data) OperationError ;;
     let result := repeat x00 (length salt + length iv + length encrypted) in
     result <- builtin (typed_set result salt 0) RangeError ;;
     result <- builtin (typed_set result iv (length salt)) RangeError ;;
     result <- builtin (typed_set result encrypted (length salt + length iv)) RangeError ;;
     arrayBufferToBase64 result)
    (fun error =>
       console_error "encryption failed" ;;;
       throw (Error "encryption failed")).

Definition decrypt (ciphertext password : jsstring) : M jsstring :=
  try_catch
    (data <- base64ToArrayBuffer ciphertext ;;
     let salt := slice data 0 (Some 16) in
     let iv := slice data 16 (Some 28) in
     let encrypted := slice data 28 None in
     key <- deriveKey password salt ;;
     decrypted <- builtin (subtle_decrypt {| gcm_iv := iv |} key encrypted) OperationError ;;
     ret (TextDecoder_decode decrypted))
    (fun error =>
       console_error "decryption failed" ;;;
       throw (Error "decryption failed: the password may be wrong")).

Definition getMasterPassword : M (option jsstring) :=
  try_catch
    (result <- storage_local_get ;;
     ret (if js_truthy (masterPassword result) then masterPassword result else None))
    (fun error =>
       console_error "reading the master password failed" ;;;
       ret None).

Definition setMasterPassword (password : jsstring) : M bool :=
  try_catch
    (storage_local_set_masterPassword password ;;;
     ret true)
    (fun error =>
       console_error "storing the master password failed" ;;;
       ret false).

(** [masterPassword] is [None] when the caller leaves it out. *)
Definition encryptPassword (password : jsstring) (masterPassword : option jsstring)
  : M jsstring :=
  master <- (if js_truthy masterPassword then ret masterPassword
             else getMasterPassword) ;;
  match master with
  | Some (c :: m) =>
      try_catch
        (encrypt password (c :: m))
        (fun error =>
           console_error "encrypting the password failed" ;;;
           ret password)
  | _ =>
      (* [!master] *)
      console_warn "no master password: the password is stored as plain text" ;;;
      ret password
  end.

Definition isBase64 (str : jsstring) : bool :=
  regex_test base64Regex str && (0 <? Z.of_nat (length str)).

Definition decryptPassword (encryptedPassword : jsstring)
           (masterPassword : option jsstring) : M jsstring :=
  if negb (isBase64 encryptedPassword) then ret encryptedPassword
  else
    master <- (if js_truthy masterPassword then ret masterPassword
               else getMasterPassword) ;;
    match master with
    | Some (c :: m) =>
        try_catch
          (decrypt encryptedPassword (c :: m))
          (fun error =>
             console_error "decrypting the password failed" ;;;
             ret encryptedPassword)
    | _ =>
        (* [!master] *)
        console_warn "no master password: cannot decrypt" ;;;
        ret encryptedPassword
    end.

End CryptoUtils.

(* ================================================================= *)
(** ** The [URL] constructor *)

(** The fields of a parsed URL the matcher reads. *)
Record URL : Type := {
  protocol : jsstring;
  host : jsstring;
  pathname : jsstring;
  search : jsstring;
  hash : jsstring
}.

(** [new URL(s)]: [None] is the [TypeError] for a string that is not an
    absolute URL. *)
Class URLParser : Type := { URL_parse : jsstring -> option URL }.

(* ================================================================= *)
(** ** [matchEnvironment] and [initFloatingPanel] *)

Record Location : Type := {
  location_protocol : jsstring;
  location_href : jsstring
}.

Section Matcher.
Context {up : URLParser}.

Definition new_URL (s : jsstring) : M URL := builtin (URL_parse s) TypeError.

(** The [for (const env of environments)] loop of [matchEnvironment]. *)
Fixpoint matchEnvironment_loop (normalizedCurrentUrl : jsstring)
         (environments : list Environment) : M (option Environment) :=
  match environments with
  | [] => ret None
  | env :: rest =>
      match loginUrl env with
      | Some (c :: u) =>
          found <-
            try_catch
              (envUrl <- new_URL (c :: u) ;;
               let normalizedEnvUrl :=
                 replace_trailing_slash
                   (protocol envUrl ++ js "//" ++ host envUrl ++ pathname envUrl) in
               if str_eqb normalizedCurrentUrl normalizedEnvUrl then
                 console_debug "exact URL match" ;;;
                 ret (Some env)
               else if endsWith normalizedEnvUrl (js "/*") then
                 let baseUrl := slice normalizedEnvUrl 0 (Some (-2)) in
                 if startsWith normalizedCurrentUrl baseUrl then
                   console_debug "wildcard URL match" ;;;
                   ret (Some env)
                 else ret None
               else ret None)
              (fun error =>
                 console_debug "environment URL failed to parse" ;;;
                 ret None) ;;
          match found with
          | Some e => ret (Some e)
          | None => matchEnvironment_loop normalizedCurrentUrl rest
          end
      | _ =>
          (* [if (!env.loginUrl) continue] *)
          matchEnvironment_loop normalizedCurrentUrl rest
      end
  end.

Definition matchEnvironment (currentUrl : jsstring) : M (option Environment) :=
  if negb (js_truthy (Some currentUrl)) then ret None
  else
    try_catch
      (result <- storage_local_get ;;
       let environments :=
         match environments result with Some l => l | None => [] end in
       normalizedCurrentUrl <-
         try_catch
           (url <- new_URL currentUrl ;;
            ret (replace_trailing_slash
                   (protocol url ++ js "//" ++ host url ++ pathname url)))
           (fun error =>
              console_debug "URL normalization failed, the original URL is used" ;;;
              ret currentUrl) ;;
       matchEnvironment_loop normalizedCurrentUrl environments)
      (fun error =>
         console_error "environment matching failed" ;;;
         ret None).

(** [document.readyState] when [initFloatingPanel] runs, and the
    constructor [new FloatingPanel()], which builds the panel in the page
    and raises what its DOM calls raise. *)
Context (document_readyState : jsstring).
Context (new_FloatingPanel : M unit).

(** The closure [initPanel] of [initFloatingPanel]. The switch to the
    environment is left to a timer, which runs after the function has
    returned. *)
Definition initPanel (matchedEnv : Environment) : M unit :=
  new_FloatingPanel ;;;
  if js_truthy (Some (id matchedEnv))
  then ret tt   (* [setTimeout(() => floatingPanel.switchEnvironment(...), 100)] *)
  else ret tt.

(** [initFloatingPanel]. The function returns nothing; the result here
    records the environment [initPanel] is run or registered for, [None]
    being a return without a panel. *)
Definition initFloatingPanel (location : Location) : M (option Environment) :=
  if str_eqb (location_protocol location) (js "chrome:") ||
     str_eqb (location_protocol location) (js "chrome-extension:")
  then ret None
  else
    let currentUrl := location_href location in
    if negb (js_truthy (Some currentUrl)) || negb (startsWith currentUrl (js "http"))
    then
      console_debug "no valid URL, the floating panel is not shown" ;;;
      ret None
    else
      matchedEnv <- matchEnvironment currentUrl ;;
      match matchedEnv with
      | None =>
          console_debug "the URL matches no environment, the floating panel is not shown" ;;;
          ret None
      | Some env =>
          console_debug "the URL matches an environment" ;;;
          (if str_eqb document_readyState (js "loading")
           then ret tt   (* [document.addEventListener('DOMContentLoaded', initPanel)] *)
           else initPanel env) ;;;
          ret (Some env)
      end.

(** *** The matching policy in the words of the specification *)

(** Collapse to [scheme://host/path] and strip one trailing ['/']. *)
Definition spec_normalize (u : URL) : jsstring :=
  replace_trailing_slash (protocol u ++ js "//" ++ host u ++ pathname u).

(** The candidate after best-effort normalization. *)
Definition spec_candidate (currentUrl : jsstring) : jsstring :=
  match URL_parse currentUrl with
  | Some u => spec_normalize u
  | None => currentUrl
  end.

Definition spec_exact (candidate normalizedLoginUrl : jsstring) : bool :=
  str_eqb candidate normalizedLoginUrl.

Definition spec_wildcard (candidate normalizedLoginUrl : jsstring) : bool :=
  endsWith normalizedLoginUrl (js "/*") &&
  startsWith candidate (firstn (length normalizedLoginUrl - 2) normalizedLoginUrl).

(** An environment matches by the exact or by the wildcard rule; one
    without a [loginUrl], or whose [loginUrl] does not parse, matches
    nothing. *)
Definition spec_env_matches (candidate : jsstring) (env : Environment) : bool :=
  match loginUrl env with
  | Some (c :: u) =>
      match URL_parse (c :: u) with
      | Some envUrl =>
          spec_exact candidate (spec_normalize envUrl) ||
          spec_wildcard candidate (spec_normalize envUrl)
      | None => false
      end
  | _ => false
  end.

End Matcher.

(* ================================================================= *)
(** ** Instances used to run the definitions *)

Fixpoint bytes_eqb (a b : Uint8Array) : bool :=
  match a, b with
  | [], [] => true
  | x :: a', y :: b' => Byte.eqb x y && bytes_eqb a' b'
  | _, _ => false
  end.

(** A 16-byte integrity tag over key, IV and data. *)
Definition sample_tag (key iv data : Uint8Array) : Uint8Array :=
  repeat (byte_of_Z (fold_left (fun a b => a + Z_of_byte b) (key ++ iv ++ data) 0)) 16.

(** A stand-in for [crypto.subtle]: the key is the password followed by the
    salt, the ciphertext is the data followed by [sample_tag]. It has the
    shape of an authenticated cipher, not its secrecy. *)
Definition sample_subtle : SubtleCrypto := {|
  KeyMaterial := Uint8Array;
  CryptoKey := Uint8Array;
  subtle_importKey := fun keyData => Some keyData;
  subtle_deriveKey := fun params baseKey _ _ => Some (baseKey ++ pbkdf2_salt params);
  subtle_encrypt := fun params key data =>
    Some (data ++ sample_tag key (gcm_iv params) data);
  subtle_decrypt := fun params key encrypted =>
    let n := (length encrypted - 16)%nat in
    if (length encrypted <? 16)%nat then None
    else if bytes_eqb (skipn n encrypted)
                      (sample_tag key (gcm_iv params) (firstn n encrypted))
         then Some (firstn n encrypted)
         else None
|}.

(** A context without [crypto.subtle]: every operation is rejected. *)
Definition no_subtle : SubtleCrypto := {|
  KeyMaterial := unit;
  CryptoKey := unit;
  subtle_importKey := fun _ => None;
  subtle_deriveKey := fun _ _ _ _ => None;
  subtle_encrypt := fun _ _ _ => None;
  subtle_decrypt := fun _ _ _ => None
|}.

Fixpoint span (p : Z -> bool) (s : jsstring) : jsstring * jsstring :=
  match s with
  | [] => ([], [])
  | c :: s' =>
      if p c then let (a, b) := span p s' in (c :: a, b) else ([], s)
  end.

Definition lower_alpha (c : Z) : bool := in_range 97 122 c.
Definition digit (c : Z) : bool := in_range 48 57 c.
Definition upper_alpha (c : Z) : bool := in_range 65 90 c.
Definition scheme_char (c : Z) : bool :=
  lower_alpha c || digit c || (c =? 43) || (c =? 45) || (c =? 46).
Definition host_char (c : Z) : bool :=
  lower_alpha c || digit c || (c =? 45) || (c =? 46).
Definition path_char (c : Z) : bool :=
  lower_alpha c || upper_alpha c || digit c ||
  (c =? 47) || (c =? 42) || (c =? 45) || (c =? 95).
Definition query_char (c : Z) : bool :=
  lower_alpha c || upper_alpha c || digit c ||
  (c =? 61) || (c =? 38) || (c =? 45) || (c =? 95).

Definition special_scheme (scheme : jsstring) : bool :=
  str_eqb scheme (js "http") || str_eqb scheme (js "https") ||
  str_eqb scheme (js "ws") || str_eqb scheme (js "wss") ||
  str_eqb scheme (js "ftp") || str_eqb scheme (js "file").

(** The label of a host after its last ['.']. *)
Definition last_label (h : jsstring) : jsstring :=
  rev (fst (span (fun c => negb (c =? 46)) (rev h))).

Fixpoint has_infix (pat s : jsstring) : bool :=
  match s with
  | [] => startsWith s pat
  | _ :: s' => startsWith s pat || has_infix pat s'
  end.

(** The hosts the parser below takes: the last label begins with a letter
    (the browser reads a host that ends in a number as an IPv4 address),
    and ["xn--"] occurs nowhere (the browser decodes such labels). *)
Definition plain_host (h : jsstring) : bool :=
  match last_label h with
  | c :: _ => lower_alpha c
  | [] => false
  end && negb (has_infix (js "xn--") h).

(** A parser for plain URLs [scheme://host/path?query#fragment] written in
    lower-case scheme and host, with a host as in [plain_host], a scheme
    other than file, without port, credentials, dots or escapes in the
    path. The fields are those of the URL Standard: an absent path is
    ["/"] for the schemes http, https, ws, wss and ftp, and empty for the
    others. Every other string is rejected here (the browser accepts
    more); a string without a scheme is rejected by both. *)
Definition plain_URL_parse (s : jsstring) : option URL :=
  let (scheme, r) := span scheme_char s in
  match scheme, r with
  | c :: _, 58 :: 47 :: 47 :: r1 =>
      if lower_alpha c then
        let (h, r2) := span host_char r1 in
        let (p, r3) := span path_char r2 in
        let (q, r4) :=
          match r3 with
          | 63 :: r => let (q, r') := span query_char r in (63 :: q, r')
          | _ => ([], r3)
          end in
        let (f, r5) :=
          match r4 with
          | 35 :: r => let (f, r') := span query_char r in (35 :: f, r')
          | _ => ([], r4)
          end in
        match h, r5 with
        | _ :: _, [] =>
            if plain_host h && negb (str_eqb scheme (js "file")) &&
               (startsWith p (js "/") || negb (js_truthy (Some p))) then
              Some {| protocol := scheme ++ [58];
                      host := h;
                      pathname :=
                        match p with
                        | [] => if special_scheme scheme then js "/" else []
                        | _ => p
                        end;
                      search := match q with [_] => [] | _ => q end;
                      hash := match f with [_] => [] | _ => f end |}
            else None
        | _, _ => None
        end
      else None
  | _, _ => None
  end.

Definition plain_URL : URLParser := {| URL_parse := plain_URL_parse |}.

(** The parser gives [s] the protocol, host and path written. *)
Definition parses (up : URLParser) (s scheme_ host_ path_ : string) : Prop :=
  exists u, URL_parse (js s) = Some u /\
            protocol u = js scheme_ /\ host u = js host_ /\ pathname u = js path_.

Definition sample_rng (i : nat) : byte := byte_of_Z (Z.of_nat i * 37 + 11).

Definition env_of (ident : string) (url : string) : Environment :=
  {| id := js ident; name := js ident; loginUrl := Some (js url);
     loginButtonId := None; loginButtonClass := None |}.

Definition world_with (secret : option jsstring) (envs : list Environment) : World :=
  {| rng := sample_rng; console := [];
     local := Some {| masterPassword := secret; environments := Some envs |} |}.

(** *** Auxiliary definitions for the statements *)

(** The master secret [encryptPassword] and [decryptPassword] work with:
    the argument when it is given, otherwise what storage holds. *)
Definition resolved_master (masterPassword_ : option jsstring) (w : World)
  : option jsstring :=
  if js_truthy masterPassword_ then masterPassword_
  else match local w with
       | Some area =>
           if js_truthy (masterPassword area) then masterPassword area else None
       | None => None
       end.

(** A URL of scheme [http] or [https]. *)
Definition is_http_url (s : jsstring) : bool :=
  startsWith s (js "http://") || startsWith s (js "https://").

(** Decryption of a blob already split into its three parts. *)
Definition decrypt_parts {sc : SubtleCrypto} (salt iv encrypted : Uint8Array)
           (password : jsstring) : M jsstring :=
  key <- deriveKey password salt ;;
  decrypted <- builtin (subtle_decrypt {| gcm_iv := iv |} key encrypted) OperationError ;;
  ret (TextDecoder_decode decrypted).

(** Key derivation as a function: import, then PBKDF2. *)
Definition derive_key {sc : SubtleCrypto} (password : jsstring) (salt : Uint8Array)
  : option CryptoKey :=
  match subtle_importKey (TextEncoder_encode password) with
  | Some passwordKey =>
      subtle_deriveKey
        {| pbkdf2_salt := salt; pbkdf2_iterations := 100000; pbkdf2_hash := "SHA-256" |}
        passwordKey algorithm keyUsage
  | None => None
  end.

(** The handler of the [catch] in [decrypt]. *)
Definition decrypt_failed (A : Type) (error : exn) : M A :=
  console_error "decryption failed" ;;;
  throw (Error "decryption failed: the password may be wrong").

(** The handler of the [catch] in [decryptPassword]. *)
Definition decryptPassword_failed (encryptedPassword : jsstring) (error : exn)
  : M jsstring :=
  console_error "decrypting the password failed" ;;;
  ret encryptedPassword.

(** The handler of the [catch] in [encryptPassword]. *)
Definition encryptPassword_failed (password : jsstring) (error : exn) : M jsstring :=
  console_error "encrypting the password failed" ;;;
  ret password.

(** The world after the master secret was looked up: storage that cannot
    be read leaves an error on the console. *)
Definition after_resolve (masterPassword_ : option jsstring) (w : World) : World :=
  if js_truthy masterPassword_ then w
  else match local w with
       | Some _ => w
       | None => logged LError "reading the master password failed" w
       end.

(** The world with the stored master secret replaced. *)
Definition with_master (secret : option jsstring) (w : World) : World :=
  {| rng := rng w; console := console w;
     local := match local w with
              | Some area => Some {| masterPassword := secret;
                                     environments := environments area |}
              | None => None
              end |}.

Definition alphanumeric (c : Z) : bool := upper_alpha c || lower_alpha c || digit c.

Definition sample_world : World := world_with (Some (js "secret")) [].

(** The blob [encrypt("pw", "secret")] gives in [sample_world]. *)
Definition sample_blob : jsstring :=
  Eval vm_compute in
    match fst (encrypt (sc := sample_subtle) (js "pw") (js "secret") sample_world) with
    | Return blob => blob
    | Throw _ => []
    end.

(** What a caller observes of a run: the outcome and the console. *)
Definition observe {A : Type} (r : outcome A * World)
  : outcome A * list (ConsoleLevel * string) :=
  (fst r, console (snd r)).

(** The string does not begin with U+FEFF. *)
Definition no_leading_bom (s : jsstring) : bool :=
  match s with
  | c :: _ => negb (c =? 0xFEFF)
  | [] => true
  end.

Definition is_byte (z : Z) : Prop := 0 <= z < 256.

(** The second world has the storage and the random source of the first. *)
Definition same_store (w w' : World) : Prop :=
  local w' = local w /\ rng w' = rng w.

Definition is_sextet (v : Z) : Prop := 0 <= v < 64.

(** A Unicode scalar value: a code point that is not a surrogate. *)
Definition is_scalar (cp : Z) : Prop :=
  0 <= cp < 0x110000 /\ ~ (0xD800 <= cp <= 0xDFFF).

(* ================================================================= *)
(** ** The popup: [validateDomain] *)

(** [r+] and [r{2,}]. *)
Definition Plus (r : regex) : regex := Seq r (Star r).
Definition AtLeast2 (r : regex) : regex := Seq r (Seq r (Star r)).

(** [[a-z]] under the flag [i]. *)
Definition letter (c : Z) : bool := lower_alpha c || upper_alpha c.

(** [/^([a-z0-9]+(-[a-z0-9]+)*\.)+[a-z]{2,}$/i]; under [i] the class
    [[a-z0-9]] is [alphanumeric]. *)
Definition domainLabel : regex :=
  Seq (Plus (Class alphanumeric))
      (Star (Seq (Lit 45) (Plus (Class alphanumeric)))).
Definition domainRegex : regex :=
  Seq (Plus (Seq domainLabel (Lit 46))) (AtLeast2 (Class letter)).

Definition validateDomain (domain : jsstring) : bool :=
  regex_test domainRegex domain.

(** The characters a domain may be written with. *)
Definition domain_char (c : Z) : bool := alphanumeric c || (c =? 45) || (c =? 46).

(* ================================================================= *)
(** ** The background page: its [matchEnvironment] and the tab listener *)

Module Background.

(** The message [{ action: 'switchEnv', envId, envName }]. *)
Record SwitchEnv : Type := {
  action : jsstring;
  envId : jsstring;
  envName : jsstring
}.

(** What the listener is told about the tab. *)
Record Tab : Type := { url : option jsstring }.

Section Listener.
Context {up : URLParser}.

(** [chrome.tabs.sendMessage(tabId, message)]: [None] when the promise is
    fulfilled, [Some m] when it is rejected with an error of message [m]. *)
Context (tabs_sendMessage : Z -> SwitchEnv -> option jsstring).

(** The loop of the background page's [matchEnvironment]. *)
Fixpoint matchEnvironment_loop (normalizedCurrentUrl : jsstring)
         (environments : list Environment) : M (option Environment) :=
  match environments with
  | [] => ret None
  | env :: rest =>
      match loginUrl env with
      | Some (c :: u) =>
          found <-
            try_catch
              (envUrl <- new_URL (c :: u) ;;
               let normalizedEnvUrl :=
                 replace_trailing_slash
                   (protocol envUrl ++ js "//" ++ host envUrl ++ pathname envUrl) in
               if str_eqb normalizedCurrentUrl normalizedEnvUrl then ret (Some env)
               else if endsWith normalizedEnvUrl (js "/*") then
                 let baseUrl := slice normalizedEnvUrl 0 (Some (-2)) in
                 if startsWith normalizedCurrentUrl baseUrl then ret (Some env)
                 else ret None
               else ret None)
              (fun error =>
                 console_debug "environment URL failed to parse" ;;;
                 ret None) ;;
          match found with
          | Some e => ret (Some e)
          | None => matchEnvironment_loop normalizedCurrentUrl rest
          end
      | _ => matchEnvironment_loop normalizedCurrentUrl rest
      end
  end.

Definition matchEnvironment (urlString : jsstring) : M (option Environment) :=
  if negb (js_truthy (Some urlString)) then ret None
  else
    try_catch
      (result <- storage_local_get ;;
       let environments :=
         match environments result with Some l => l | None => [] end in
       normalizedCurrentUrl <-
         try_catch
           (url <- new_URL urlString ;;
            ret (replace_trailing_slash
                   (protocol url ++ js "//" ++ host url ++ pathname url)))
           (fun error =>
              console_debug "URL normalization failed, the original URL is used" ;;;
              ret urlString) ;;
       matchEnvironment_loop normalizedCurrentUrl environments)
      (fun error =>
         console_error "environment matching failed" ;;;
         ret None).

(** The listener of [chrome.tabs.onUpdated]; [status] is
    [changeInfo.status]. The result is the message sent, if one is. *)
Definition tabs_onUpdated (tabId : Z) (status : option jsstring) (tab : Tab)
  : M (option (Z * SwitchEnv)) :=
  match status, url tab with
  | Some st, Some (c :: u) =>
      if negb (str_eqb st (js "complete")) then ret None
      else if negb (startsWith (c :: u) (js "http")) then ret None
      else
        try_catch
          (let currentUrl := c :: u in
           if negb (js_truthy (Some currentUrl)) ||
              negb (startsWith currentUrl (js "http"))
           then ret None
           else
             matchedEnv <- matchEnvironment currentUrl ;;
             match matchedEnv with
             | Some env =>
                 let message :=
                   {| action := js "switchEnv"; envId := id env;
                      envName := name env |} in
                 match tabs_sendMessage tabId message with
                 | None => ret (Some (tabId, message))
                 | Some m =>
                     (* the [catch] of the promise *)
                     (if negb (str_eqb m
                          (js "Could not establish connection. Receiving end does not exist."))
                      then console_debug "sending the switch message failed"
                      else ret tt) ;;;
                     ret (Some (tabId, message))
                 end
             | None => ret None
             end)
          (fun error =>
             console_error "switching the environment failed" ;;;
             ret None)
  | _, _ =>
      (* [changeInfo.status !== 'complete' || !tab.url] *)
      ret None
  end.

End Listener.
End Background.

(* ================================================================= *)
(** ** [class FloatingPanel]: following the page URL *)

(** The fields of a [FloatingPanel] the URL checks read and write. Of the
    panel element only [style.display] is kept ([None]: no element). *)
Record FloatingPanel : Type := {
  panel : option jsstring;
  isCollapsed : bool;
  lastCheckedUrl : option jsstring;
  currentEnvId : option jsstring
}.

Definition set_display (display : jsstring) (this : FloatingPanel) : FloatingPanel :=
  {| panel := match panel this with Some _ => Some display | None => None end;
     isCollapsed := isCollapsed this;
     lastCheckedUrl := lastCheckedUrl this;
     currentEnvId := currentEnvId this |}.

Definition set_lastCheckedUrl (u : jsstring) (this : FloatingPanel) : FloatingPanel :=
  {| panel := panel this; isCollapsed := isCollapsed this;
     lastCheckedUrl := Some u; currentEnvId := currentEnvId this |}.

(** [a === b] for a string [a] and a [b] that may be null. *)
Definition strict_eq (a : jsstring) (b : option jsstring) : bool :=
  match b with
  | Some b' => str_eqb a b'
  | None => false
  end.

(** An asynchronous call that is not awaited: it runs, and what it throws
    is not seen by the caller. *)
Definition not_awaited (m : M unit) : M unit :=
  fun w => (Return tt, snd (m w)).

Section FloatingPanel.
Context {up : URLParser}.

(** [this.dragger?.loadPosition()] and [this.loadAccounts(envId)] act on
    the page and its [localStorage], which are not part of the world
    here; they are taken as they come. *)
Context (loadPosition : M unit).
Context (loadAccounts : option jsstring -> M unit).

Definition expandFromCircle (this : FloatingPanel) : M FloatingPanel :=
  match panel this with
  | None => ret this
  | Some _ =>
      let this := {| panel := panel this; isCollapsed := false;
                     lastCheckedUrl := lastCheckedUrl this;
                     currentEnvId := currentEnvId this |} in
      loadPosition ;;;
      ret this
  end.

Definition hidePanel (this : FloatingPanel) : M FloatingPanel :=
  match panel this with
  | None => ret this
  | Some _ =>
      this <- (if isCollapsed this then expandFromCircle this else ret this) ;;
      ret (set_display (js "none") this)
  end.

Definition showPanel (this : FloatingPanel) : M FloatingPanel :=
  ret (set_display (js "flex") this).

Definition switchEnvironment (envId : option jsstring) (this : FloatingPanel)
  : M FloatingPanel :=
  let this := {| panel := panel this; isCollapsed := isCollapsed this;
                 lastCheckedUrl := lastCheckedUrl this;
                 currentEnvId := envId |} in
  not_awaited (loadAccounts envId) ;;;
  ret this.

(** [href] is [window.location.href]. *)
Definition checkDomainMatch (href : jsstring) (this : FloatingPanel)
  : M FloatingPanel :=
  let currentUrl := href in
  if negb (js_truthy (Some currentUrl)) || negb (startsWith currentUrl (js "http"))
  then
    this <- hidePanel this ;;
    ret (set_lastCheckedUrl currentUrl this)
  else if strict_eq currentUrl (lastCheckedUrl this) then ret this
  else
    let this := set_lastCheckedUrl currentUrl this in
    matchedEnv <- matchEnvironment currentUrl ;;
    match matchedEnv with
    | None =>
        console_debug "the URL matches no login page, the panel is hidden" ;;;
        hidePanel this
    | Some env =>
        this <- (match panel this with
                 | Some display =>
                     if str_eqb display (js "none") then showPanel this
                     else ret this
                 | None => ret this
                 end) ;;
        switchEnvironment (Some (id env)) this
    end.

(** The callback of the one-second [setInterval] of
    [setupUrlChangeListener]. *)
Definition urlCheckInterval_tick (href : jsstring) (this : FloatingPanel)
  : M FloatingPanel :=
  let currentUrl := href in
  if negb (strict_eq currentUrl (lastCheckedUrl this))
  then checkDomainMatch href (set_lastCheckedUrl currentUrl this)
  else ret this.

End FloatingPanel.

(** Every character class of [r] lies within [P]. *)
Fixpoint classes_within (P : Z -> bool) (r : regex) : Prop :=
  match r with
  | Never | Empty => True
  | Class p => forall c, p c = true -> P c = true
  | Seq r1 r2 | Alt r1 r2 => classes_within P r1 /\ classes_within P r2
  | Star r1 => classes_within P r1
  end.

(* ================================================================= *)
(** ** Stored accounts and the pages that handle them *)

(** [String.prototype.trim] removes white space and line terminators
    from both ends. *)
Definition is_js_whitespace (c : Z) : bool :=
  (c =? 9) || (c =? 10) || (c =? 11) || (c =? 12) || (c =? 13) || (c =? 32) ||
  (c =? 160) || (c =? 5760) || ((8192 <=? c) && (c <=? 8202)) ||
  (c =? 8232) || (c =? 8233) || (c =? 8239) || (c =? 8287) || (c =? 12288) ||
  (c =? 65279).

Fixpoint trimStart (s : jsstring) : jsstring :=
  match s with
  | c :: s' => if is_js_whitespace c then trimStart s' else s
  | [] => []
  end.

Definition trim (s : jsstring) : jsstring := rev (trimStart (rev (trimStart s))).

(** [n.toString()] for an integer [n]: its decimal digits (times in
    milliseconds are far below 10^21, where the notation would change). *)
Definition Number_toString (n : Z) : jsstring :=
  js (NilZero.string_of_int (Z.to_int n)).

(** [a || b] on strings. *)
Definition js_or (a b : jsstring) : jsstring :=
  match a with
  | [] => b
  | _ :: _ => a
  end.

(** [v || d] where [v] may be missing. *)
Definition or_default (v : option jsstring) (d : jsstring) : jsstring :=
  match v with
  | Some (c :: s) => c :: s
  | _ => d
  end.

(** [result.key || []]. *)
Definition or_empty {A : Type} (v : option (list A)) : list A :=
  match v with
  | Some l => l
  | None => []
  end.

(** [array.findIndex(f)]; [None] is [-1]. *)
Fixpoint findIndex {A : Type} (f : A -> bool) (l : list A) : option nat :=
  match l with
  | [] => None
  | a :: l' => if f a then Some 0%nat
               else match findIndex f l' with
                    | Some i => Some (S i)
                    | None => None
                    end
  end.

(** [array[index] = v] for an index within the array. *)
Fixpoint array_set {A : Type} (l : list A) (index : nat) (v : A) : list A :=
  match l, index with
  | [], _ => []
  | _ :: l', O => v :: l'
  | a :: l', S i => a :: array_set l' i v
  end.

(** An account as the handlers store it. *)
Module Account.
Record t : Type := {
  id : jsstring;
  envId : jsstring;
  username : jsstring;
  account : jsstring;
  password : jsstring;
  createdAt : Z;
  updatedAt : option Z
}.
End Account.

(** What a handler does to its page and to the user, in order. *)
Inductive Effect : Type :=
| Alert (message : string)
| AlertError (message : string) (error : exn)
| Confirm (message : string)
| ShowError (elementId message : string)
| HideError (elementId : string)
| ShowSuccessMessage (message : string)
| ConsoleLog (message : string) (a : Account.t)
| LoadAccounts (envId : option jsstring)
| LoadEnvironments
| ModalClose (modalId : string)
| FormReset (formId : string)
| SetValue (elementId : string) (value : jsstring)
| SubmitLoginForm (loginButtonId loginButtonClass : jsstring)
| ExecuteScript (tabId : Z) (a : Account.t) (loginButtonId loginButtonClass : jsstring)
| WindowClose.

(** A page of the extension at work: the world of the core, the
    [accounts] key of [chrome.storage.local] (reachable when [local] of
    the world is), the successive readings of [Date.now()], and the
    effects so far. *)
Record Page : Type := {
  world : World;
  accounts : option (list Account.t);
  clock : nat -> Z;
  effects : list Effect
}.

Definition P (A : Type) : Type := Page -> outcome A * Page.

Definition pret {A : Type} (a : A) : P A := fun p => (Return a, p).

Definition pbind {A B : Type} (m : P A) (k : A -> P B) : P B :=
  fun p =>
    match m p with
    | (Return a, p') => k a p'
    | (Throw e, p') => (Throw e, p')
    end.

Definition ptry {A : Type} (body : P A) (handler : exn -> P A) : P A :=
  fun p =>
    match body p with
    | (Return a, p') => (Return a, p')
    | (Throw e, p') => handler e p'
    end.

Declare Scope page_scope.
Notation "x <- m ;; k" := (pbind m (fun x => k))
  (at level 61, m at next level, right associativity) : page_scope.
Notation "m ;;; k" := (pbind m (fun _ => k))
  (at level 61, right associativity) : page_scope.

Definition set_world (w : World) (p : Page) : Page :=
  {| world := w; accounts := accounts p; clock := clock p; effects := effects p |}.

(** A call into the core. *)
Definition lift {A : Type} (m : M A) : P A :=
  fun p => (fst (m (world p)), set_world (snd (m (world p))) p).

Definition effect (e : Effect) : P unit :=
  fun p => (Return tt,
            {| world := world p; accounts := accounts p; clock := clock p;
               effects := effects p ++ [e] |}).

(** [Date.now()]. *)
Definition Date_now : P Z :=
  fun p => (Return (clock p 0%nat),
            {| world := world p; accounts := accounts p;
               clock := fun i => clock p (S i); effects := effects p |}).

(** [chrome.storage.local.get('accounts')], giving [result.accounts]. *)
Definition storage_get_accounts : P (option (list Account.t)) :=
  fun p => match local (world p) with
           | Some _ => (Return (accounts p), p)
           | None => (Throw StorageError, p)
           end.

(** [chrome.storage.local.set({ accounts: v })]. *)
Definition storage_set_accounts (v : list Account.t) : P unit :=
  fun p => match local (world p) with
           | Some _ => (Return tt,
                        {| world := world p; accounts := Some v; clock := clock p;
                           effects := effects p |})
           | None => (Throw StorageError, p)
           end.

(** [chrome.storage.local.set({ environments: v })]. *)
Definition storage_local_set_environments (v : list Environment) : M unit :=
  fun w => match local w with
           | Some area =>
               (Return tt,
                {| rng := rng w; console := console w;
                   local := Some {| masterPassword := masterPassword area;
                                    environments := Some v |} |})
           | None => (Throw StorageError, w)
           end.

Local Open Scope page_scope.

(* ----------------------------------------------------------------- *)
(** *** The popup: [class AccountManager] *)

Module Popup.

Record AccountManager : Type := {
  currentEnvId : option jsstring;
  currentAccountId : option jsstring
}.

Section Handlers.
Context {sc : SubtleCrypto}.

(** Whether [window.cryptoUtils] is there. *)
Context (has_cryptoUtils : bool).

(** The id of the active tab of the current window, where there is one. *)
Context (tabs_query : option Z).

(** [chrome.scripting.executeScript]: [None] when the promise is
    fulfilled, [Some e] when it is rejected with [e]. *)
Context (scripting_executeScript : Z -> option exn).

Definition resetAccountForm (this : AccountManager) : P AccountManager :=
  effect (FormReset "accountForm") ;;;
  effect (HideError "accountUsernameError") ;;;
  effect (HideError "accountAccountError") ;;;
  effect (HideError "accountPasswordError") ;;;
  pret {| currentEnvId := currentEnvId this; currentAccountId := None |}.

(** The three arguments are the values of the inputs of the form. *)
Definition handleAccountSubmit (accountUsername accountAccount accountPassword : jsstring)
           (this : AccountManager) : P AccountManager :=
  let username := trim accountUsername in
  let account := trim accountAccount in
  let password := accountPassword in
  effect (HideError "accountUsernameError") ;;;
  effect (HideError "accountAccountError") ;;;
  effect (HideError "accountPasswordError") ;;;
  valid1 <- (if negb (js_truthy (Some username))
             then effect (ShowError "accountUsernameError" "the user name is required") ;;;
                  pret false
             else pret true) ;;
  valid2 <- (if negb (js_truthy (Some account))
             then effect (ShowError "accountAccountError" "the account is required") ;;;
                  pret false
             else pret true) ;;
  valid3 <- (if negb (js_truthy (Some password))
             then effect (ShowError "accountPasswordError" "the password is required") ;;;
                  pret false
             else pret true) ;;
  let isValid := valid1 && valid2 && valid3 in
  if negb isValid then pret this
  else if negb (js_truthy (currentEnvId this)) then
    effect (Alert "the environment is gone, select one again") ;;;
    effect (ModalClose "accountModal") ;;;
    pret this
  else
    ptry
      (encryptedPassword <-
         (if has_cryptoUtils then
            ptry (lift (encryptPassword password None))
                 (fun error =>
                    lift (console_warn "encrypting failed, the password is stored as plain text") ;;;
                    pret password)
          else pret password) ;;
       result <- storage_get_accounts ;;
       let accounts := or_empty result in
       match currentAccountId this with
       | Some (c :: i) =>
           (* editing *)
           match findIndex (fun a => str_eqb (Account.id a) (c :: i)) accounts with
           | Some index =>
               updatedAt <- Date_now ;;
               let accounts :=
                 match nth_error accounts index with
                 | Some old =>
                     array_set accounts index
                       {| Account.id := Account.id old;
                          Account.envId := Account.envId old;
                          Account.username := username;
                          Account.account := account;
                          Account.password := encryptedPassword;
                          Account.createdAt := Account.createdAt old;
                          Account.updatedAt := Some updatedAt |}
                 | None => accounts
                 end in
               storage_set_accounts accounts ;;;
               effect (LoadAccounts (currentEnvId this)) ;;;
               effect (ModalClose "accountModal") ;;;
               this <- resetAccountForm this ;;
               effect (ShowSuccessMessage "account updated") ;;;
               pret this
           | None => pret this
           end
       | _ =>
           (* adding *)
           if negb (js_truthy (currentEnvId this)) then
             effect (Alert "the environment id is not valid, select one again") ;;;
             effect (ModalClose "accountModal") ;;;
             pret this
           else
             id <- Date_now ;;
             createdAt <- Date_now ;;
             let newAccount :=
               {| Account.id := Number_toString id;
                  Account.envId := or_default (currentEnvId this) [];
                  Account.username := username;
                  Account.account := account;
                  Account.password := encryptedPassword;
                  Account.createdAt := createdAt;
                  Account.updatedAt := None |} in
             let accounts := accounts ++ [newAccount] in
             storage_set_accounts accounts ;;;
             effect (LoadAccounts (currentEnvId this)) ;;;
             effect (ModalClose "accountModal") ;;;
             this' <- resetAccountForm this ;;
             effect (ShowSuccessMessage "account added") ;;;
             effect (ConsoleLog "account added" newAccount) ;;;
             pret this'
       end)
      (fun error =>
         lift (console_error "saving the account failed") ;;;
         effect (AlertError "saving failed" error) ;;;
         pret this).

Definition handleLogin (accountId : jsstring) : P unit :=
  ptry
    (result <- storage_get_accounts ;;
     let accounts := or_empty result in
     match find (fun acc => str_eqb (Account.id acc) accountId) accounts with
     | None => effect (Alert "the account does not exist")
     | Some account =>
         decryptedPassword <-
           (if has_cryptoUtils && js_truthy (Some (Account.password account)) then
              ptry (lift (decryptPassword (Account.password account) None))
                   (fun error =>
                      lift (console_warn "decrypting failed, the stored password is used") ;;;
                      pret (Account.password account))
            else pret (Account.password account)) ;;
         let accountWithDecryptedPassword :=
           {| Account.id := Account.id account;
              Account.envId := Account.envId account;
              Account.username := Account.username account;
              Account.account := Account.account account;
              Account.password := decryptedPassword;
              Account.createdAt := Account.createdAt account;
              Account.updatedAt := Account.updatedAt account |} in
         envResult <- lift storage_local_get ;;
         let environments := or_empty (environments envResult) in
         let currentEnv :=
           find (fun e => str_eqb (id e) (Account.envId account)) environments in
         let loginButtonId :=
           or_default (match currentEnv with
                       | Some e => loginButtonId e
                       | None => None
                       end) (js "ch_login_btn") in
         let loginButtonClass :=
           or_default (match currentEnv with
                       | Some e => loginButtonClass e
                       | None => None
                       end) (js "formBtn") in
         match tabs_query with
         | Some tabId =>
             if tabId =? 0 then effect (Alert "the current tab cannot be found")
             else
               effect (ExecuteScript tabId accountWithDecryptedPassword
                                     loginButtonId loginButtonClass) ;;;
               match scripting_executeScript tabId with
               | None => effect WindowClose
               | Some e => fun p => (Throw e, p)
               end
         | None => effect (Alert "the current tab cannot be found")
         end
     end)
    (fun error =>
       lift (console_error "login failed") ;;;
       effect (AlertError "login failed" error)).

(** [confirm] is the answer of the user to the dialog. *)
Definition handleDeleteEnv (confirm : bool) (envId : jsstring) (this : AccountManager)
  : P AccountManager :=
  if negb (js_truthy (Some envId)) then pret this
  else
    result <- storage_get_accounts ;;
    let accounts := or_empty result in
    let relatedAccounts :=
      filter (fun acc => str_eqb (Account.envId acc) envId) accounts in
    proceed <-
      (if (0 <? Z.of_nat (length relatedAccounts)) then
         effect (Confirm "the accounts of the environment are deleted with it") ;;;
         if negb confirm then pret false
         else
           let filteredAccounts :=
             filter (fun acc => negb (str_eqb (Account.envId acc) envId)) accounts in
           storage_set_accounts filteredAccounts ;;;
           pret true
       else
         effect (Confirm "delete this environment?") ;;;
         pret confirm) ;;
    if negb proceed then pret this
    else
      ptry
        (envResult <- lift storage_local_get ;;
         let environments := or_empty (environments envResult) in
         let filtered := filter (fun e => negb (str_eqb (id e) envId)) environments in
         lift (storage_local_set_environments filtered) ;;;
         this <- (if strict_eq envId (currentEnvId this) then
                    effect (SetValue "envSelect" []) ;;;
                    effect (LoadAccounts None) ;;;
                    pret {| currentEnvId := None;
                            currentAccountId := currentAccountId this |}
                  else pret this) ;;
         effect LoadEnvironments ;;;
         pret this)
        (fun error =>
           lift (console_error "deleting the environment failed") ;;;
           effect (AlertError "deleting failed" error) ;;;
           pret this).

Definition handleDeleteAccount (confirm : bool) (accountId : jsstring)
           (this : AccountManager) : P unit :=
  result <- storage_get_accounts ;;
  let accounts := or_empty result in
  effect (Confirm "delete the account?") ;;;
  if negb confirm then pret tt
  else
    ptry
      (let filtered :=
         filter (fun a => negb (str_eqb (Account.id a) accountId)) accounts in
       storage_set_accounts filtered ;;;
       effect (LoadAccounts (currentEnvId this)) ;;;
       effect (ShowSuccessMessage "account deleted"))
      (fun error =>
         lift (console_error "deleting the account failed") ;;;
         effect (AlertError "deleting failed" error)).

End Handlers.
End Popup.

(* ----------------------------------------------------------------- *)
(** *** The panel in the page: accounts of [class FloatingPanel] *)

Module Panel.

(** A login form of the page: whether it has an input for the user name
    and one for the password that can be written. *)
Record LoginForm : Type := {
  usernameInput : bool;
  passwordInput : bool
}.

Section Handlers.
Context {sc : SubtleCrypto}.

(** Whether [window.cryptoUtils] is there. *)
Context (has_cryptoUtils : bool).

(** [this.loadAccounts(envId)], which draws the list. *)
Context (loadAccounts : option jsstring -> M unit).

(** The form [findLoginForm()] finds in the page, if any. *)
Context (findLoginForm : option LoginForm).

(** The three arguments are the values of the inputs of the panel. *)
Definition handleAddAccountSubmit
           (floating_username floating_account floating_password : jsstring)
           (this : FloatingPanel) : P unit :=
  let username := trim floating_username in
  let account := trim floating_account in
  let password := floating_password in
  if negb (js_truthy (Some username)) || negb (js_truthy (Some account))
     || negb (js_truthy (Some password))
  then effect (Alert "fill in all required fields")
  else if negb (js_truthy (currentEnvId this)) then
    effect (Alert "the environment id is not valid")
  else
    ptry
      (encryptedPassword <-
         (if has_cryptoUtils then
            ptry (lift (encryptPassword password None))
                 (fun error =>
                    lift (console_warn "encrypting failed, the password is stored as plain text") ;;;
                    pret password)
          else pret password) ;;
       result <- storage_get_accounts ;;
       let accounts := or_empty result in
       id <- Date_now ;;
       createdAt <- Date_now ;;
       let newAccount :=
         {| Account.id := Number_toString id;
            Account.envId := or_default (currentEnvId this) [];
            Account.username := username;
            Account.account := account;
            Account.password := encryptedPassword;
            Account.createdAt := createdAt;
            Account.updatedAt := None |} in
       let accounts := accounts ++ [newAccount] in
       storage_set_accounts accounts ;;;
       lift (loadAccounts (currentEnvId this)) ;;;
       effect (SetValue "floating-username" []) ;;;
       effect (SetValue "floating-account" []) ;;;
       effect (SetValue "floating-password" []) ;;;
       effect (ShowSuccessMessage "account added") ;;;
       effect (ConsoleLog "account added" newAccount))
      (fun error =>
         lift (console_error "saving the account failed") ;;;
         effect (AlertError "saving failed" error)).

Definition fillLoginForm (form : LoginForm) (account : Account.t) : P bool :=
  filled1 <- (if usernameInput form then
                effect (SetValue "username"
                          (js_or (Account.account account)
                                 (js_or (Account.username account) []))) ;;;
                pret true
              else pret false) ;;
  filled2 <- (if passwordInput form then
                effect (SetValue "password" (js_or (Account.password account) [])) ;;;
                pret true
              else pret false) ;;
  pret (filled1 || filled2).

Definition handleLogin (accountId : jsstring) (this : FloatingPanel) : P unit :=
  ptry
    (result <- storage_get_accounts ;;
     let accounts := or_empty result in
     match find (fun acc => str_eqb (Account.id acc) accountId) accounts with
     | None => lift (console_error "the account does not exist")
     | Some account =>
         match findLoginForm with
         | None => effect (Alert "no login form found in the page")
         | Some loginForm =>
             fillLoginForm loginForm account ;;;
             envResult <- lift storage_local_get ;;
             let environments := or_empty (environments envResult) in
             let currentEnv :=
               find (fun e => strict_eq (id e) (currentEnvId this)) environments in
             let loginButtonId :=
               or_default (match currentEnv with
                           | Some e => loginButtonId e
                           | None => None
                           end) (js "ch_login_btn") in
             let loginButtonClass :=
               or_default (match currentEnv with
                           | Some e => loginButtonClass e
                           | None => None
                           end) (js "formBtn") in
             effect (SubmitLoginForm loginButtonId loginButtonClass)
         end
     end)
    (fun error =>
       lift (console_error "login failed") ;;;
       effect (AlertError "login failed" error)).

End Handlers.
End Panel.

(* ----------------------------------------------------------------- *)
(** *** The background page: backup and restore *)

(** [chrome.storage.local.get(['environments', 'accounts'])]. *)
Definition storage_get_both : P (option (list Environment) * option (list Account.t)) :=
  fun p => match local (world p) with
           | Some area => (Return (environments area, accounts p), p)
           | None => (Throw StorageError, p)
           end.

(** [chrome.storage.local.set({ environments, accounts })]. *)
Definition storage_set_both (envs : list Environment) (accts : list Account.t) : P unit :=
  fun p => match local (world p) with
           | Some area =>
               (Return tt,
                {| world := {| rng := rng (world p); console := console (world p);
                               local := Some {| masterPassword := masterPassword area;
                                                environments := Some envs |} |};
                   accounts := Some accts;
                   clock := clock p; effects := effects p |})
           | None => (Throw StorageError, p)
           end.

Module Messages.

(** The data of a backup; for [environments] and [accounts], [None] is a
    value that is not an array. *)
Record Backup : Type := {
  version : jsstring;
  timestamp : jsstring;
  environments : option (list Environment);
  accounts : option (list Account.t)
}.

Inductive Request : Type :=
| backupData
| restoreData (data : option Backup)
| otherAction.

(** The [error] of a response: one of the two fixed texts, or the
    message of the error caught. *)
Inductive Failure : Type :=
| invalid_backup_data
| unknown_action
| message_of (e : exn).

Record Response : Type := {
  success : bool;
  data : option Backup;
  error : option Failure
}.

Section Listener.

(** [chrome.runtime.getManifest().version] and [toISOString] of a date. *)
Context (manifest_version : jsstring).
Context (Date_toISOString : Z -> jsstring).

(** The listener of [chrome.runtime.onMessage]; the result is what
    [sendResponse] is called with. *)
Definition runtime_onMessage (request : Request) : P Response :=
  ptry
    (match request with
     | backupData =>
         result <- storage_get_both ;;
         now <- Date_now ;;
         let backup :=
           {| version := manifest_version;
              timestamp := Date_toISOString now;
              environments := Some (or_empty (fst result));
              accounts := Some (or_empty (snd result)) |} in
         pret {| success := true; data := Some backup; error := None |}
     | restoreData (Some {| environments := Some envs; accounts := Some accts |}) =>
         storage_set_both envs accts ;;;
         pret {| success := true; data := None; error := None |}
     | restoreData _ =>
         pret {| success := false; data := None; error := Some invalid_backup_data |}
     | otherAction =>
         pret {| success := false; data := None; error := Some unknown_action |}
     end)
    (fun e =>
       lift (console_error "handling the message failed") ;;;
       pret {| success := false; data := None; error := Some (message_of e) |}).

End Listener.
End Messages.

Local Close Scope page_scope.

(** A page over the world [w] with the accounts [accts], a clock that
    starts at [t] and advances one millisecond a reading, and no effect
    yet. *)
Definition page_with (w : World) (accts : option (list Account.t)) (t : Z) : Page :=
  {| world := w; accounts := accts; clock := fun i => t + Z.of_nat i; effects := [] |}.

(** The ids of the accounts are distinct, and each is the decimal text of
    a time before [t]. *)
Definition ids_before (t : Z) (l : list Account.t) : Prop :=
  NoDup (map Account.id l) /\
  Forall (fun x => exists t0, Account.id x = Number_toString t0 /\ t0 < t) l.

(* ================================================================= *)
(** * Properties *)

(** ** Bytes and lists *)

Lemma Z_of_byte_range (b : byte) : is_byte (Z_of_byte b).
Proof.
  unfold is_byte, Z_of_byte.
  pose proof (Byte.to_N_bounded b) as H. lia.
Qed.

Lemma byte_of_Z_of_byte (b : byte) : byte_of_Z (Z_of_byte b) = b.
Proof.
  pose proof (Z_of_byte_range b) as H. unfold is_byte in H.
  unfold byte_of_Z. rewrite Z.mod_small by exact H.
  unfold Z_of_byte. rewrite N2Z.id, Byte.of_to_N. reflexivity.
Qed.

Lemma Z_of_byte_of_Z (z : Z) : is_byte z -> Z_of_byte (byte_of_Z z) = z.
Proof.
  unfold is_byte. intros H. unfold byte_of_Z. rewrite Z.mod_small by exact H.
  destruct (Byte.of_N (Z.to_N z)) as [b|] eqn:E.
  - apply Byte.to_of_N in E. unfold Z_of_byte. rewrite E. lia.
  - apply Byte.of_N_None_iff in E. lia.
Qed.

Lemma map_byte_of_Z_of_byte (l : Uint8Array) :
  map byte_of_Z (map Z_of_byte l) = l.
Proof.
  induction l as [|b l IH]; simpl; [reflexivity|].
  rewrite byte_of_Z_of_byte, IH. reflexivity.
Qed.

Lemma map_Z_of_byte_of_Z (l : list Z) :
  Forall is_byte l -> map Z_of_byte (map byte_of_Z l) = l.
Proof.
  induction 1 as [|z l Hz _ IH]; simpl; [reflexivity|].
  rewrite Z_of_byte_of_Z by exact Hz. rewrite IH. reflexivity.
Qed.

Lemma Forall_is_byte_map (l : Uint8Array) : Forall is_byte (map Z_of_byte l).
Proof.
  induction l; simpl; constructor; auto using Z_of_byte_range.
Qed.

Lemma str_eqb_eq (a b : jsstring) : str_eqb a b = true <-> a = b.
Proof.
  revert b. induction a as [|x a IH]; intros [|y b]; simpl; split;
    try congruence; try reflexivity.
  - rewrite andb_true_iff, Z.eqb_eq, IH. intros [-> ->]. reflexivity.
  - intros [= -> ->]. rewrite Z.eqb_refl. simpl. apply IH. reflexivity.
Qed.

Lemma str_eqb_refl (a : jsstring) : str_eqb a a = true.
Proof. apply str_eqb_eq. reflexivity. Qed.

Lemma startsWith_app (p s : jsstring) : startsWith (p ++ s) p = true.
Proof.
  induction p as [|c p IH]; simpl; [reflexivity|].
  rewrite Z.eqb_refl. exact IH.
Qed.

Lemma startsWith_prefix (s p : jsstring) :
  startsWith s p = true <-> exists t, s = p ++ t.
Proof.
  revert s. induction p as [|c p IH]; intros s; simpl.
  - split; [intros _; exists s; reflexivity | reflexivity].
  - destruct s as [|d s].
    + split; [discriminate | intros [t Ht]; discriminate].
    + rewrite andb_true_iff, Z.eqb_eq, IH. split.
      * intros [-> [t ->]]. exists t. reflexivity.
      * intros [t [= -> ->]]. split; [reflexivity | exists t; reflexivity].
Qed.

Lemma endsWith_app (s suffix : jsstring) : endsWith (s ++ suffix) suffix = true.
Proof.
  unfold endsWith. rewrite length_app.
  replace (length s + length suffix - length suffix)%nat with (length s + 0)%nat by lia.
  rewrite skipn_app, Nat.add_0_r, skipn_all.
  replace (length s - length s)%nat with 0%nat by lia. simpl.
  rewrite str_eqb_refl, andb_true_r. apply Nat.leb_le. lia.
Qed.

Lemma endsWith_suffix (s suffix : jsstring) :
  endsWith s suffix = true <-> exists t, s = t ++ suffix.
Proof.
  split.
  - unfold endsWith. rewrite andb_true_iff, Nat.leb_le, str_eqb_eq.
    set (k := (length s - length suffix)%nat).
    intros [_ H]. exists (firstn k s).
    rewrite <- H. symmetry. apply firstn_skipn.
  - intros [t ->]. apply endsWith_app.
Qed.

Lemma slice_firstn_skipn {A : Type} (l : list A) (a b : nat) :
  (a <= b)%nat ->
  slice l (Z.of_nat a) (Some (Z.of_nat b)) = firstn (b - a) (skipn a l).
Proof.
  intros Hab. unfold slice, slice_index.
  destruct (Z.ltb_spec (Z.of_nat a) 0); [lia|].
  destruct (Z.ltb_spec (Z.of_nat b) 0); [lia|].
  destruct (Nat.le_gt_cases (length l) a) as [Hla|Hla].
  - rewrite (Z.min_r (Z.of_nat a)) by lia. rewrite Nat2Z.id.
    rewrite !(skipn_all2 l) by lia. rewrite !firstn_nil. reflexivity.
  - rewrite (Z.min_l (Z.of_nat a)) by lia. rewrite Nat2Z.id.
    destruct (Nat.le_gt_cases b (length l)) as [Hlb|Hlb].
    + rewrite (Z.min_l (Z.of_nat b)) by lia. f_equal. lia.
    + rewrite (Z.min_r (Z.of_nat b)) by lia.
      rewrite !firstn_all2; try reflexivity; rewrite length_skipn; lia.
Qed.

Lemma slice_skipn {A : Type} (l : list A) (a : nat) :
  slice l (Z.of_nat a) None = skipn a l.
Proof.
  unfold slice, slice_index.
  destruct (Z.ltb_spec (Z.of_nat a) 0); [lia|].
  destruct (Nat.le_gt_cases (length l) a) as [Hla|Hla].
  - rewrite (Z.min_r (Z.of_nat a)) by lia. rewrite Nat2Z.id.
    rewrite !(skipn_all2 l) by lia. apply firstn_nil.
  - rewrite (Z.min_l (Z.of_nat a)) by lia. rewrite Nat2Z.id.
    apply firstn_all2. rewrite length_skipn. lia.
Qed.

Lemma slice_drop_last {A : Type} (l : list A) (n : nat) :
  (0 < n)%nat ->
  slice l 0 (Some (- Z.of_nat n)) = firstn (length l - n) l.
Proof.
  intros Hn. unfold slice, slice_index.
  change (0 <? 0) with false. cbv iota.
  destruct (Z.ltb_spec (- Z.of_nat n) 0); [|lia].
  rewrite Z.min_l by lia. rewrite Z.sub_0_r.
  change (Z.to_nat 0) with 0%nat. rewrite skipn_O.
  f_equal. lia.
Qed.

(** ** The regular expression test decides the language *)

Lemma lang_Never_inv (s : jsstring) : lang Never s -> False.
Proof. intros H. inversion H. Qed.

Lemma lang_Empty_inv (s : jsstring) : lang Empty s -> s = [].
Proof. intros H. inversion H. reflexivity. Qed.

Lemma lang_Class_inv (p : Z -> bool) (s : jsstring) :
  lang (Class p) s -> exists c, s = [c] /\ p c = true.
Proof. intros H. inversion H; subst. eauto. Qed.

Lemma lang_Seq_inv (r1 r2 : regex) (s : jsstring) :
  lang (Seq r1 r2) s -> exists s1 s2, s = s1 ++ s2 /\ lang r1 s1 /\ lang r2 s2.
Proof. intros H. inversion H; subst. eauto. Qed.

Lemma lang_Alt_inv (r1 r2 : regex) (s : jsstring) :
  lang (Alt r1 r2) s -> lang r1 s \/ lang r2 s.
Proof. intros H. inversion H; subst; auto. Qed.

Lemma nullable_lang (r : regex) : nullable r = true <-> lang r [].
Proof.
  induction r as [| |p|r1 IH1 r2 IH2|r1 IH1 r2 IH2|r IH]; simpl.
  - split; [discriminate | intros H; inversion H].
  - split; [intros _; constructor | reflexivity].
  - split; [discriminate | intros H; inversion H].
  - rewrite andb_true_iff, IH1, IH2. split.
    + intros [H1 H2]. change (@nil Z) with (@nil Z ++ []). constructor; assumption.
    + intros H. apply lang_Seq_inv in H. destruct H as (s1 & s2 & E & H1 & H2).
      symmetry in E. apply app_eq_nil in E. destruct E; subst. split; assumption.
  - rewrite orb_true_iff, IH1, IH2. split.
    + intros [H|H]; [apply lang_Alt_l | apply lang_Alt_r]; assumption.
    + apply lang_Alt_inv.
  - split; [intros _; constructor | reflexivity].
Qed.

Lemma lang_Star_cons (r : regex) (c : Z) (s : jsstring) :
  lang (Star r) (c :: s) ->
  exists s1 s2, s = s1 ++ s2 /\ lang r (c :: s1) /\ lang (Star r) s2.
Proof.
  intros H. remember (Star r) as r' eqn:Er. remember (c :: s) as t eqn:Et.
  revert s Et. induction H as [| | | | | |r0 s1 s2 H1 _ H2 IH2]; intros u Et;
    try discriminate.
  injection Er as ->.
  destruct s1 as [|d s1]; simpl in Et.
  - apply IH2; [reflexivity | assumption].
  - injection Et as -> <-. exists s1, s2. repeat split; assumption.
Qed.

Lemma lang_deriv (c : Z) (r : regex) (s : jsstring) :
  lang (deriv c r) s <-> lang r (c :: s).
Proof.
  revert s.
  induction r as [| |p|r1 IH1 r2 IH2|r1 IH1 r2 IH2|r IH]; intros s; simpl.
  - split; intros H; inversion H.
  - split; intros H; inversion H.
  - destruct (p c) eqn:Ep; split; intros H.
    + apply lang_Empty_inv in H. subst. constructor. exact Ep.
    + apply lang_Class_inv in H. destruct H as (d & [= -> ->] & _). constructor.
    + inversion H.
    + apply lang_Class_inv in H. destruct H as (d & [= -> ->] & Hd). congruence.
  - assert (Hseq : forall t, lang (Seq (deriv c r1) r2) t -> lang (Seq r1 r2) (c :: t)).
    { intros t Ht. apply lang_Seq_inv in Ht. destruct Ht as (s1 & s2 & -> & H1 & H2).
      change (c :: s1 ++ s2) with ((c :: s1) ++ s2).
      constructor; [apply IH1|]; assumption. }
    split.
    + intros H. destruct (nullable r1) eqn:En.
      * apply lang_Alt_inv in H. destruct H as [H|H]; [apply Hseq; assumption|].
        change (c :: s) with ([] ++ c :: s).
        constructor; [apply nullable_lang; exact En | apply IH2; assumption].
      * apply Hseq. exact H.
    + intros H. apply lang_Seq_inv in H. destruct H as (s1 & s2 & E & H1 & H2).
      destruct s1 as [|d s1]; simpl in E.
      * subst s2. apply nullable_lang in H1. rewrite H1.
        apply lang_Alt_r. apply IH2. exact H2.
      * injection E as -> ->.
        assert (Hl : lang (Seq (deriv d r1) r2) (s1 ++ s2))
          by (constructor; [apply IH1|]; assumption).
        destruct (nullable r1); [apply lang_Alt_l|]; exact Hl.
  - split; intros H; apply lang_Alt_inv in H; destruct H as [H|H].
    + apply lang_Alt_l, IH1. assumption.
    + apply lang_Alt_r, IH2. assumption.
    + apply lang_Alt_l, IH1. assumption.
    + apply lang_Alt_r, IH2. assumption.
  - split.
    + intros H. apply lang_Seq_inv in H. destruct H as (s1 & s2 & -> & H1 & H2).
      change (c :: s1 ++ s2) with ((c :: s1) ++ s2).
      constructor; [apply IH|]; assumption.
    + intros H. apply lang_Star_cons in H. destruct H as (s1 & s2 & -> & H1 & H2).
      constructor; [apply IH|]; assumption.
Qed.

Lemma regex_test_lang (r : regex) (s : jsstring) :
  regex_test r s = true <-> lang r s.
Proof.
  revert r. induction s as [|c s IH]; intros r; simpl.
  - apply nullable_lang.
  - rewrite IH. apply lang_deriv.
Qed.

Lemma lang_Star_Class (p : Z -> bool) (s : jsstring) :
  lang (Star (Class p)) s <-> forallb p s = true.
Proof.
  split.
  - intros H. remember (Star (Class p)) as r eqn:Er.
    induction H as [| | | | | |r0 s1 s2 H1 _ H2 IH2]; try discriminate.
    + reflexivity.
    + injection Er as ->. apply lang_Class_inv in H1. destruct H1 as (c & -> & Hc).
      simpl. rewrite IH2 by reflexivity. rewrite andb_true_r. assumption.
  - induction s as [|c s IH]; simpl; intros H.
    + constructor.
    + apply andb_true_iff in H. destruct H as [Hc Hs].
      change (c :: s) with ([c] ++ s).
      constructor; [constructor; exact Hc | apply IH; exact Hs].
Qed.

Lemma lang_Lit (c : Z) (s : jsstring) : lang (Lit c) s <-> s = [c].
Proof.
  split.
  - intros H. apply lang_Class_inv in H. destruct H as (d & -> & Hd).
    apply Z.eqb_eq in Hd. subst. reflexivity.
  - intros ->. constructor. apply Z.eqb_refl.
Qed.

Lemma lang_UpTo2_Lit (c : Z) (s : jsstring) :
  lang (UpTo2 (Lit c)) s <-> exists n, (n <= 2)%nat /\ s = repeat c n.
Proof.
  unfold UpTo2, Opt. split.
  - intros H. apply lang_Alt_inv in H. destruct H as [H|H].
    + apply lang_Empty_inv in H. subst. exists 0%nat. split; [lia | reflexivity].
    + apply lang_Seq_inv in H. destruct H as (s1 & s2 & -> & Ha & Hb).
      apply lang_Lit in Ha. subst s1.
      apply lang_Alt_inv in Hb. destruct Hb as [Hb|Hb].
      * apply lang_Empty_inv in Hb. subst. exists 1%nat. split; [lia | reflexivity].
      * apply lang_Lit in Hb. subst. exists 2%nat. split; [lia | reflexivity].
  - intros (n & Hn & ->).
    destruct n as [|[|[|n]]]; simpl; try lia.
    + apply lang_Alt_l. constructor.
    + apply lang_Alt_r. change [c] with ([c] ++ []).
      constructor; [apply lang_Lit; reflexivity | apply lang_Alt_l; constructor].
    + apply lang_Alt_r. change [c; c] with ([c] ++ [c]).
      constructor; [apply lang_Lit; reflexivity
                   | apply lang_Alt_r; apply lang_Lit; reflexivity].
Qed.

(** [isBase64] accepts exactly the non-empty strings made of characters of
    the base64 alphabet followed by at most two ['=']. *)
Lemma isBase64_shape (s : jsstring) :
  isBase64 s = true <->
  s <> [] /\
  exists body n, s = body ++ repeat 61 n /\ (n <= 2)%nat /\
                 forallb base64_class body = true.
Proof.
  unfold isBase64, base64Regex. rewrite andb_true_iff, regex_test_lang, Z.ltb_lt.
  split.
  - intros [H Hlen]. split; [intros ->; simpl in Hlen; lia|].
    apply lang_Seq_inv in H. destruct H as (s1 & s2 & -> & H1 & H2).
    apply lang_Star_Class in H1. apply lang_UpTo2_Lit in H2.
    destruct H2 as (n & Hn & ->). exists s1, n. auto.
  - intros [Hne (body & n & -> & Hn & Hb)]. split.
    + constructor; [apply lang_Star_Class; exact Hb|].
      apply lang_UpTo2_Lit. exists n. auto.
    + destruct (body ++ repeat 61 n); [congruence | simpl; lia].
Qed.

(** ** [atob] inverts [btoa] *)

Ltac bool_to_prop :=
  repeat match goal with
    | H : _ && _ = true |- _ => apply andb_true_iff in H; destruct H
    | H : _ || _ = false |- _ => apply orb_false_iff in H; destruct H
    | H : negb _ = true |- _ => apply negb_true_iff in H
    | H : negb _ = false |- _ => apply negb_false_iff in H
    | H : (_ <=? _) = true |- _ => apply Z.leb_le in H
    | H : (_ <=? _) = false |- _ => apply Z.leb_gt in H
    | H : (_ <? _) = true |- _ => apply Z.ltb_lt in H
    | H : (_ <? _) = false |- _ => apply Z.ltb_ge in H
    | H : (_ =? _) = true |- _ => apply Z.eqb_eq in H
    | H : (_ =? _) = false |- _ => apply Z.eqb_neq in H
    end.

(** Decides the comparisons in the goal, then calls [lia]. *)
Ltac split_cmp :=
  repeat match goal with
    | |- context [?a <=? ?b] => destruct (Z.leb_spec a b)
    | |- context [?a <? ?b] => destruct (Z.ltb_spec a b)
    | |- context [?a =? ?b] => destruct (Z.eqb_spec a b)
    end;
  cbn [andb orb negb]; try reflexivity; try discriminate; try lia.

Lemma b64_value_char (v : Z) : is_sextet v -> b64_value (b64_char v) = Some v.
Proof.
  unfold is_sextet, b64_value, b64_char, in_range. intros H.
  destruct (Z.ltb_spec v 26); [|destruct (Z.ltb_spec v 52);
    [|destruct (Z.ltb_spec v 62); [|destruct (Z.eqb_spec v 62)]]];
  split_cmp; f_equal; lia.
Qed.

Lemma b64_char_plain (v : Z) :
  is_sextet v -> b64_char v <> 61 /\ ascii_whitespace (b64_char v) = false.
Proof.
  unfold is_sextet, b64_char, ascii_whitespace. intros H.
  destruct (Z.ltb_spec v 26); [|destruct (Z.ltb_spec v 52);
    [|destruct (Z.ltb_spec v 62); [|destruct (Z.eqb_spec v 62)]]];
  (split; [lia | split_cmp]).
Qed.

Lemma list_ind3 (P : list Z -> Prop) :
  P [] -> (forall a, P [a]) -> (forall a b, P [a; b]) ->
  (forall a b c l, P l -> P (a :: b :: c :: l)) ->
  forall l, P l.
Proof.
  intros H0 H1 H2 H3.
  fix IH 1.
  intros [|a [|b [|c l]]]; [exact H0 | apply H1 | apply H2 | apply H3; apply IH].
Qed.

Lemma sextets_of_bytes (a b c : Z) :
  is_byte a -> is_byte b -> is_byte c ->
  is_sextet (a / 4) /\ is_sextet ((a mod 4) * 16 + b / 16) /\
  is_sextet ((b mod 16) * 4 + c / 64) /\ is_sextet (c mod 64) /\
  is_sextet ((a mod 4) * 16) /\ is_sextet ((b mod 16) * 4).
Proof.
  unfold is_byte, is_sextet. intros Ha Hb Hc.
  Z.div_mod_to_equations. lia.
Qed.

Lemma b64_decode_group (a b c : Z) :
  is_byte a -> is_byte b -> is_byte c ->
  (a / 4) * 4 + ((a mod 4) * 16 + b / 16) / 16 = a /\
  (((a mod 4) * 16 + b / 16) mod 16) * 16 + ((b mod 16) * 4 + c / 64) / 4 = b /\
  (((b mod 16) * 4 + c / 64) mod 4) * 64 + c mod 64 = c /\
  (a / 4) * 4 + ((a mod 4) * 16) / 16 = a /\
  (((a mod 4) * 16 + b / 16) mod 16) * 16 + ((b mod 16) * 4) / 4 = b.
Proof.
  unfold is_byte. intros Ha Hb Hc.
  Z.div_mod_to_equations. lia.
Qed.

Lemma strip_padding_cons (c : Z) (s : jsstring) :
  c <> 61 -> strip_padding (c :: s) = c :: strip_padding s.
Proof.
  intros Hc. simpl. apply Z.eqb_neq in Hc. rewrite Hc. simpl.
  destruct s as [|d [|e s]]; reflexivity.
Qed.

Lemma is_byte_0 : is_byte 0.
Proof. unfold is_byte. lia. Qed.

Lemma Forall_cons_inv {A : Type} (P : A -> Prop) (a : A) (l : list A) :
  Forall P (a :: l) -> P a /\ Forall P l.
Proof. intros H. inversion H. auto. Qed.

Lemma mod4_add4 (n : nat) :
  Z.of_nat (S (S (S (S n)))) mod 4 = Z.of_nat n mod 4.
Proof.
  replace (Z.of_nat (S (S (S (S n))))) with (Z.of_nat n + 1 * 4) by lia.
  apply Z.mod_add. lia.
Qed.

Lemma b64_encode_length (l : list Z) :
  Z.of_nat (length (b64_encode l)) mod 4 = 0.
Proof.
  induction l as [|a|a b|a b c l IH] using list_ind3; try reflexivity.
  cbn [b64_encode length]. rewrite mod4_add4. exact IH.
Qed.

Lemma b64_encode_plain (l : list Z) :
  Forall is_byte l ->
  filter (fun c => negb (ascii_whitespace c)) (b64_encode l) = b64_encode l.
Proof.
  induction l as [|a|a b|a b c l IH] using list_ind3; intros Hl.
  - reflexivity.
  - apply Forall_cons_inv in Hl. destruct Hl as [Ha _].
    destruct (sextets_of_bytes a 0 0 Ha is_byte_0 is_byte_0) as (H1 & _ & _ & _ & H2 & _).
    cbn [b64_encode filter].
    rewrite (proj2 (b64_char_plain _ H1)), (proj2 (b64_char_plain _ H2)).
    reflexivity.
  - apply Forall_cons_inv in Hl. destruct Hl as [Ha Hl].
    apply Forall_cons_inv in Hl. destruct Hl as [Hb _].
    destruct (sextets_of_bytes a b 0 Ha Hb is_byte_0) as (H1 & H2 & _ & _ & _ & H3).
    cbn [b64_encode filter].
    rewrite (proj2 (b64_char_plain _ H1)), (proj2 (b64_char_plain _ H2)),
      (proj2 (b64_char_plain _ H3)).
    reflexivity.
  - apply Forall_cons_inv in Hl. destruct Hl as [Ha Hl].
    apply Forall_cons_inv in Hl. destruct Hl as [Hb Hl].
    apply Forall_cons_inv in Hl. destruct Hl as [Hc Hl].
    destruct (sextets_of_bytes a b c Ha Hb Hc) as (H1 & H2 & H3 & H4 & _ & _).
    cbn [b64_encode filter].
    rewrite (proj2 (b64_char_plain _ H1)), (proj2 (b64_char_plain _ H2)),
      (proj2 (b64_char_plain _ H3)), (proj2 (b64_char_plain _ H4)).
    cbn [negb]. rewrite IH by exact Hl. reflexivity.
Qed.

Lemma b64_encode_decode (l : list Z) :
  Forall is_byte l ->
  exists vs,
    b64_values (strip_padding (b64_encode l)) = Some vs /\
    b64_decode vs = l /\
    Z.of_nat (length (strip_padding (b64_encode l))) mod 4 <> 1.
Proof.
  induction l as [|a|a b|a b c l IH] using list_ind3; intros Hl.
  - exists []. repeat split. discriminate.
  - apply Forall_cons_inv in Hl. destruct Hl as [Ha _].
    destruct (sextets_of_bytes a 0 0 Ha is_byte_0 is_byte_0) as (H1 & _ & _ & _ & H2 & _).
    destruct (b64_decode_group a 0 0 Ha is_byte_0 is_byte_0) as (_ & _ & _ & E & _).
    cbn [b64_encode].
    rewrite !strip_padding_cons by (apply b64_char_plain; assumption).
    change (strip_padding [61; 61]) with (@nil Z).
    cbn [b64_values]. rewrite !b64_value_char by assumption.
    eexists. split; [reflexivity|]. split.
    + cbn [b64_decode]. rewrite E. reflexivity.
    + discriminate.
  - apply Forall_cons_inv in Hl. destruct Hl as [Ha Hl].
    apply Forall_cons_inv in Hl. destruct Hl as [Hb _].
    destruct (sextets_of_bytes a b 0 Ha Hb is_byte_0) as (H1 & H2 & _ & _ & _ & H3).
    destruct (b64_decode_group a b 0 Ha Hb is_byte_0) as (E1 & _ & _ & _ & E2).
    cbn [b64_encode].
    rewrite !strip_padding_cons by (apply b64_char_plain; assumption).
    change (strip_padding [61]) with (@nil Z).
    cbn [b64_values]. rewrite !b64_value_char by assumption.
    eexists. split; [reflexivity|]. split.
    + cbn [b64_decode]. rewrite E1, E2. reflexivity.
    + discriminate.
  - apply Forall_cons_inv in Hl. destruct Hl as [Ha Hl].
    apply Forall_cons_inv in Hl. destruct Hl as [Hb Hl].
    apply Forall_cons_inv in Hl. destruct Hl as [Hc Hl].
    destruct (sextets_of_bytes a b c Ha Hb Hc) as (H1 & H2 & H3 & H4 & _ & _).
    destruct (b64_decode_group a b c Ha Hb Hc) as (E1 & E2 & E3 & _ & _).
    destruct (IH Hl) as (vs & Hvs & Hdec & Hlen).
    cbn [b64_encode].
    rewrite !strip_padding_cons by (apply b64_char_plain; assumption).
    cbn [b64_values]. rewrite !b64_value_char by assumption. rewrite Hvs.
    eexists. split; [reflexivity|]. split.
    + cbn [b64_decode]. rewrite E1, E2, E3, Hdec. reflexivity.
    + cbn [length]. rewrite mod4_add4. exact Hlen.
Qed.

Lemma atob_b64_encode (l : list Z) :
  Forall is_byte l -> atob (b64_encode l) = Some l.
Proof.
  intros Hl. unfold atob.
  rewrite b64_encode_plain by exact Hl.
  rewrite b64_encode_length. change (0 =? 0) with true. cbv iota.
  destruct (b64_encode_decode l Hl) as (vs & Hvs & Hdec & Hlen).
  apply Z.eqb_neq in Hlen. rewrite Hlen, Hvs, Hdec. reflexivity.
Qed.

Lemma btoa_bytes (l : list Z) : Forall is_byte l -> btoa l = Some (b64_encode l).
Proof.
  intros Hl. unfold btoa.
  replace (forallb (in_range 0 255) l) with true; [reflexivity|].
  symmetry. apply forallb_forall. intros z Hz.
  rewrite Forall_forall in Hl. specialize (Hl z Hz). unfold is_byte in Hl.
  unfold in_range. apply andb_true_iff. split; apply Z.leb_le; lia.
Qed.

Lemma fold_left_snoc {A B : Type} (f : A -> B) (l : list A) (acc : list B) :
  fold_left (fun acc a => acc ++ [f a]) l acc = acc ++ map f l.
Proof.
  revert acc. induction l as [|a l IH]; intros acc; simpl.
  - symmetry. apply app_nil_r.
  - rewrite IH, <- app_assoc. reflexivity.
Qed.

(** ** [TextDecoder] inverts [TextEncoder] on well-formed strings *)

Lemma utf8_bytes_is_byte (cp : Z) : is_scalar cp -> Forall is_byte (utf8_bytes cp).
Proof.
  unfold is_scalar, utf8_bytes, is_byte. intros [H _].
  destruct (Z.ltb_spec cp 0x80); [|destruct (Z.ltb_spec cp 0x800);
    [|destruct (Z.ltb_spec cp 0x10000)]];
  repeat constructor; Z.div_mod_to_equations; lia.
Qed.

Lemma utf8_lead_1 (b : Z) : b <= 0x7F -> utf8_lead b = ([b], utf8_init).
Proof.
  intros H. unfold utf8_lead. destruct (Z.leb_spec b 0x7F); [reflexivity | lia].
Qed.

Lemma utf8_lead_2 (b : Z) :
  0xC2 <= b <= 0xDF ->
  utf8_lead b =
  ([], {| code_point := b mod 32; bytes_seen := 0; bytes_needed := 1;
          lower_boundary := 0x80; upper_boundary := 0xBF |}).
Proof.
  intros H. unfold utf8_lead, in_range.
  destruct (Z.leb_spec b 0x7F); [lia|].
  destruct (Z.leb_spec 0xC2 b); [|lia].
  destruct (Z.leb_spec b 0xDF); [reflexivity | lia].
Qed.

Lemma utf8_lead_3 (b : Z) :
  0xE0 <= b <= 0xEF ->
  utf8_lead b =
  ([], {| code_point := b mod 16; bytes_seen := 0; bytes_needed := 2;
          lower_boundary := if b =? 0xE0 then 0xA0 else 0x80;
          upper_boundary := if b =? 0xED then 0x9F else 0xBF |}).
Proof.
  intros H. unfold utf8_lead, in_range.
  destruct (Z.leb_spec b 0x7F); [lia|].
  destruct (Z.leb_spec 0xC2 b); [|lia].
  destruct (Z.leb_spec b 0xDF); [lia|].
  destruct (Z.leb_spec 0xE0 b); [|lia].
  destruct (Z.leb_spec b 0xEF); [reflexivity | lia].
Qed.

Lemma utf8_lead_4 (b : Z) :
  0xF0 <= b <= 0xF4 ->
  utf8_lead b =
  ([], {| code_point := b mod 8; bytes_seen := 0; bytes_needed := 3;
          lower_boundary := if b =? 0xF0 then 0x90 else 0x80;
          upper_boundary := if b =? 0xF4 then 0x8F else 0xBF |}).
Proof.
  intros H. unfold utf8_lead, in_range.
  destruct (Z.leb_spec b 0x7F); [lia|].
  destruct (Z.leb_spec 0xC2 b); [|lia].
  destruct (Z.leb_spec b 0xDF); [lia|].
  destruct (Z.leb_spec 0xE0 b); [|lia].
  destruct (Z.leb_spec b 0xEF); [lia|].
  destruct (Z.leb_spec 0xF0 b); [|lia].
  destruct (Z.leb_spec b 0xF4); [reflexivity | lia].
Qed.

(** A continuation byte inside the expected range. *)
Lemma utf8_step_continue (cp seen needed lo hi b : Z) :
  needed <> 0 -> lo <= b <= hi ->
  utf8_step {| code_point := cp; bytes_seen := seen; bytes_needed := needed;
               lower_boundary := lo; upper_boundary := hi |} b =
  if seen + 1 =? needed then ([cp * 64 + b mod 64], utf8_init)
  else ([], {| code_point := cp * 64 + b mod 64; bytes_seen := seen + 1;
               bytes_needed := needed;
               lower_boundary := 0x80; upper_boundary := 0xBF |}).
Proof.
  intros Hn Hb. unfold utf8_step, in_range. cbn [bytes_needed lower_boundary
    upper_boundary code_point bytes_seen].
  destruct (Z.eqb_spec needed 0); [contradiction|].
  destruct (Z.leb_spec lo b); [|lia].
  destruct (Z.leb_spec b hi); [reflexivity | lia].
Qed.

Lemma utf8_run_cons (st : Utf8State) (b : Z) (rest : list Z) :
  utf8_run st (b :: rest) =
  fst (utf8_step st b) ++ utf8_run (snd (utf8_step st b)) rest.
Proof. simpl. destruct (utf8_step st b). reflexivity. Qed.

Lemma utf8_run_bytes (cp : Z) (rest : list Z) :
  is_scalar cp ->
  utf8_run utf8_init (utf8_bytes cp ++ rest) = cp :: utf8_run utf8_init rest.
Proof.
  unfold is_scalar. intros [Hr Hs]. unfold utf8_bytes.
  destruct (Z.ltb_spec cp 0x80) as [H1|H1];
    [|destruct (Z.ltb_spec cp 0x800) as [H2|H2];
      [|destruct (Z.ltb_spec cp 0x10000) as [H3|H3]]];
    cbn [app].
  - rewrite utf8_run_cons. change (utf8_step utf8_init cp) with (utf8_lead cp).
    rewrite utf8_lead_1 by lia. reflexivity.
  - rewrite utf8_run_cons.
    change (utf8_step utf8_init ?b) with (utf8_lead b).
    rewrite utf8_lead_2 by (Z.div_mod_to_equations; lia).
    cbn [fst snd app]. rewrite utf8_run_cons.
    rewrite utf8_step_continue by (Z.div_mod_to_equations; lia).
    change (0 + 1 =? 1) with true. cbn [fst snd app]. f_equal.
    Z.div_mod_to_equations; lia.
  - rewrite utf8_run_cons.
    change (utf8_step utf8_init ?b) with (utf8_lead b).
    rewrite utf8_lead_3 by (Z.div_mod_to_equations; lia).
    cbn [fst snd app]. rewrite utf8_run_cons.
    rewrite utf8_step_continue.
    2: discriminate.
    2: { destruct (Z.eqb_spec (0xE0 + cp / 4096) 0xE0);
         destruct (Z.eqb_spec (0xE0 + cp / 4096) 0xED);
         Z.div_mod_to_equations; lia. }
    change (0 + 1 =? 2) with false. cbn [fst snd app]. rewrite utf8_run_cons.
    rewrite utf8_step_continue by (try discriminate; Z.div_mod_to_equations; lia).
    change (0 + 1 + 1 =? 2) with true. cbn [fst snd app]. f_equal.
    Z.div_mod_to_equations; lia.
  - rewrite utf8_run_cons.
    change (utf8_step utf8_init ?b) with (utf8_lead b).
    rewrite utf8_lead_4 by (Z.div_mod_to_equations; lia).
    cbn [fst snd app]. rewrite utf8_run_cons.
    rewrite utf8_step_continue.
    2: discriminate.
    2: { destruct (Z.eqb_spec (0xF0 + cp / 262144) 0xF0);
         destruct (Z.eqb_spec (0xF0 + cp / 262144) 0xF4);
         Z.div_mod_to_equations; lia. }
    change (0 + 1 =? 3) with false. cbn [fst snd app]. rewrite utf8_run_cons.
    rewrite utf8_step_continue by (try discriminate; Z.div_mod_to_equations; lia).
    change (0 + 1 + 1 =? 3) with false. cbn [fst snd app]. rewrite utf8_run_cons.
    rewrite utf8_step_continue by (try discriminate; Z.div_mod_to_equations; lia).
    change (0 + 1 + 1 + 1 =? 3) with true. cbn [fst snd app]. f_equal.
    Z.div_mod_to_equations; lia.
Qed.

Lemma utf8_run_scalars (cps : list Z) :
  Forall is_scalar cps -> utf8_run utf8_init (flat_map utf8_bytes cps) = cps.
Proof.
  induction 1 as [|cp cps Hcp _ IH]; [reflexivity|].
  cbn [flat_map]. rewrite utf8_run_bytes by exact Hcp. rewrite IH. reflexivity.
Qed.

Lemma flat_map_utf8_is_byte (cps : list Z) :
  Forall is_scalar cps -> Forall is_byte (flat_map utf8_bytes cps).
Proof.
  induction 1 as [|cp cps Hcp _ IH]; [constructor|].
  cbn [flat_map]. apply Forall_app. split; [apply utf8_bytes_is_byte|]; assumption.
Qed.

Lemma strip_bom_bytes (cp : Z) (rest : list Z) :
  is_scalar cp -> cp <> 0xFEFF ->
  strip_bom (utf8_bytes cp ++ rest) = utf8_bytes cp ++ rest.
Proof.
  unfold is_scalar. intros [Hr Hs] Hne. unfold utf8_bytes.
  destruct (Z.ltb_spec cp 0x80) as [H1|H1];
    [|destruct (Z.ltb_spec cp 0x800) as [H2|H2];
      [|destruct (Z.ltb_spec cp 0x10000) as [H3|H3]]];
    cbn [app].
  - destruct rest as [|b1 [|b2 rest]]; try reflexivity.
    unfold strip_bom. destruct (Z.eqb_spec cp 0xEF); [lia | reflexivity].
  - destruct rest as [|b2 rest]; try reflexivity.
    unfold strip_bom.
    destruct (Z.eqb_spec (0xC0 + cp / 64) 0xEF); [|reflexivity].
    Z.div_mod_to_equations; lia.
  - unfold strip_bom.
    destruct (Z.eqb_spec (0xE0 + cp / 4096) 0xEF); [|reflexivity].
    destruct (Z.eqb_spec (0x80 + (cp / 64) mod 64) 0xBB); [|reflexivity].
    destruct (Z.eqb_spec (0x80 + cp mod 64) 0xBF); [|reflexivity].
    exfalso. Z.div_mod_to_equations; lia.
  - unfold strip_bom.
    destruct (Z.eqb_spec (0xF0 + cp / 262144) 0xEF); [|reflexivity].
    Z.div_mod_to_equations; lia.
Qed.

(** The scalar values of a well-formed string are scalar values, and their
    UTF-16 encoding is the string. *)
Lemma scalar_values_well_formed (n : nat) (s : jsstring) :
  (length s <= n)%nat -> isWellFormed s = true ->
  Forall is_scalar (scalar_values s) /\
  flat_map utf16_units (scalar_values s) = s.
Proof.
  revert s. induction n as [|n IH]; intros s Hlen Hwf.
  - destruct s; [split; [constructor | reflexivity] | simpl in Hlen; lia].
  - destruct s as [|c s]; [split; [constructor | reflexivity]|].
    cbn [isWellFormed scalar_values] in *.
    destruct (is_high_surrogate c) eqn:Hc.
    + destruct s as [|d s]; [discriminate|].
      apply andb_true_iff in Hwf. destruct Hwf as [Hd Hwf]. rewrite Hd.
      simpl in Hlen. destruct (IH s ltac:(lia) Hwf) as [IH1 IH2].
      unfold is_high_surrogate, is_low_surrogate, in_range in Hc, Hd.
      bool_to_prop. split.
      * constructor; [unfold is_scalar; lia | exact IH1].
      * cbn [flat_map]. rewrite IH2. unfold utf16_units.
        destruct (Z.ltb_spec (0x10000 + (c - 0xD800) * 1024 + (d - 0xDC00)) 0x10000);
          [lia|].
        cbn [app]. f_equal; [|f_equal]; Z.div_mod_to_equations; lia.
    + apply andb_true_iff in Hwf. destruct Hwf as [Hwf Hs].
      apply andb_true_iff in Hwf. destruct Hwf as [Hr Hl].
      apply negb_true_iff in Hl. rewrite Hl.
      simpl in Hlen. destruct (IH s ltac:(lia) Hs) as [IH1 IH2].
      unfold is_high_surrogate, is_low_surrogate, in_range in Hc, Hl, Hr.
      apply andb_true_iff in Hr. destruct Hr as [Hr1 Hr2].
      apply Z.leb_le in Hr1, Hr2.
      assert (Hsc : ~ (0xD800 <= c <= 0xDFFF)).
      { intros [Ha Hb].
        destruct (Z.leb_spec 0xD800 c); [|lia].
        destruct (Z.leb_spec c 0xDBFF); [discriminate|].
        destruct (Z.leb_spec 0xDC00 c); [|lia].
        destruct (Z.leb_spec c 0xDFFF); [discriminate | lia]. }
      split.
      * constructor; [unfold is_scalar; lia | exact IH1].
      * cbn [flat_map]. rewrite IH2. unfold utf16_units.
        destruct (Z.ltb_spec c 0x10000); [reflexivity | lia].
Qed.

Lemma strip_bom_encode (s : jsstring) :
  isWellFormed s = true -> no_leading_bom s = true ->
  strip_bom (flat_map utf8_bytes (scalar_values s)) =
  flat_map utf8_bytes (scalar_values s).
Proof.
  intros Hwf Hbom.
  destruct (scalar_values_well_formed (length s) s (Nat.le_refl _) Hwf) as [Hsc _].
  destruct s as [|c s]; [reflexivity|].
  cbn [no_leading_bom] in Hbom. apply negb_true_iff, Z.eqb_neq in Hbom.
  cbn [isWellFormed scalar_values] in *.
  destruct (is_high_surrogate c) eqn:Hc.
  - destruct s as [|d s]; [discriminate|].
    apply andb_true_iff in Hwf. destruct Hwf as [Hd _]. rewrite Hd in *.
    apply Forall_cons_inv in Hsc. destruct Hsc as [Hcp _].
    cbn [flat_map]. apply strip_bom_bytes; [exact Hcp|].
    unfold is_high_surrogate, is_low_surrogate, in_range in Hc, Hd.
    bool_to_prop. lia.
  - apply andb_true_iff in Hwf. destruct Hwf as [Hwf _].
    apply andb_true_iff in Hwf. destruct Hwf as [_ Hl].
    apply negb_true_iff in Hl. rewrite Hl in *.
    apply Forall_cons_inv in Hsc. destruct Hsc as [Hcp _].
    cbn [flat_map]. apply strip_bom_bytes; assumption.
Qed.

Lemma TextDecoder_TextEncoder (s : jsstring) :
  isWellFormed s = true -> no_leading_bom s = true ->
  TextDecoder_decode (TextEncoder_encode s) = s.
Proof.
  intros Hwf Hbom.
  destruct (scalar_values_well_formed (length s) s (Nat.le_refl _) Hwf) as [Hsc Hu].
  unfold TextDecoder_decode, TextEncoder_encode.
  rewrite map_Z_of_byte_of_Z by (apply flat_map_utf8_is_byte; exact Hsc).
  rewrite strip_bom_encode by assumption.
  rewrite utf8_run_scalars by exact Hsc. exact Hu.
Qed.

(** ** Runs of the cipher *)

Lemma skipn_repeat_add {A : Type} (x : A) (n k : nat) :
  skipn n (repeat x (n + k)) = repeat x k.
Proof. induction n as [|n IH]; simpl; [reflexivity | exact IH]. Qed.

Lemma typed_set_fill (pre source : Uint8Array) (k : nat) :
  typed_set (pre ++ repeat x00 (length source + k)) source (length pre) =
  Some (pre ++ source ++ repeat x00 k).
Proof.
  unfold typed_set. rewrite length_app, repeat_length.
  destruct (Nat.leb_spec (length pre + length source)
                         (length pre + (length source + k))) as [_|H]; [|lia].
  f_equal. rewrite firstn_app, firstn_all, Nat.sub_diag, firstn_O, app_nil_r.
  f_equal. f_equal.
  rewrite skipn_app.
  rewrite skipn_all2 by lia.
  replace (length pre + length source - length pre)%nat with (length source) by lia.
  rewrite skipn_repeat_add. reflexivity.
Qed.

Section CipherRuns.
Context {sc : SubtleCrypto}.

Lemma deriveKey_run (password : jsstring) (salt : Uint8Array) (w : World) :
  deriveKey password salt w =
  match derive_key password salt with
  | Some key => (Return key, w)
  | None => (Throw (Error "key derivation failed"),
             logged LError "key derivation failed" w)
  end.
Proof.
  unfold deriveKey, derive_key, try_catch, bind, builtin.
  destruct (subtle_importKey (TextEncoder_encode password)) as [km|];
    [|reflexivity].
  cbn [ret throw].
  destruct (subtle_deriveKey _ km algorithm keyUsage); reflexivity.
Qed.

Lemma arrayBufferToBase64_run (buffer : Uint8Array) (w : World) :
  arrayBufferToBase64 buffer w = (Return (b64_encode (map Z_of_byte buffer)), w).
Proof.
  unfold arrayBufferToBase64. rewrite fold_left_snoc. cbn [app].
  rewrite btoa_bytes by apply Forall_is_byte_map. reflexivity.
Qed.

(** The three [set] calls lay the parts out one after another. *)
Lemma pack_run (salt iv encrypted : Uint8Array) (w : World) :
  (let result := repeat x00 (length salt + length iv + length encrypted) in
   result <- builtin (typed_set result salt 0) RangeError ;;
   result <- builtin (typed_set result iv (length salt)) RangeError ;;
   result <- builtin (typed_set result encrypted (length salt + length iv)) RangeError ;;
   arrayBufferToBase64 result) w =
  (Return (b64_encode (map Z_of_byte (salt ++ iv ++ encrypted))), w).
Proof.
  cbv zeta.
  pose proof (typed_set_fill [] salt (length iv + length encrypted)) as E1.
  cbn [app length] in E1. rewrite Nat.add_assoc in E1.
  pose proof (typed_set_fill salt iv (length encrypted)) as E2.
  pose proof (typed_set_fill (salt ++ iv) encrypted 0) as E3.
  rewrite length_app, Nat.add_0_r in E3. cbn [repeat] in E3.
  rewrite app_nil_r, <- !app_assoc in E3.
  unfold bind at 1. rewrite E1. cbn [builtin ret].
  unfold bind at 1. rewrite E2. cbn [builtin ret].
  unfold bind at 1. rewrite E3. cbn [builtin ret].
  apply arrayBufferToBase64_run.
Qed.

(** The salt and the IV an encryption draws in world [w]. *)
Lemma encrypt_run (plaintext password : jsstring) (w : World) :
  let salt := map (rng w) (seq 0 16) in
  let iv := map (rng w) (seq 16 12) in
  let w' := drawn 12 (drawn 16 w) in
  encrypt plaintext password w =
  match derive_key password salt with
  | None =>
      (Throw (Error "encryption failed"),
       logged LError "encryption failed"
              (logged LError "key derivation failed" w'))
  | Some key =>
      match subtle_encrypt {| gcm_iv := iv |} key (TextEncoder_encode plaintext) with
      | None =>
          (Throw (Error "encryption failed"),
           logged LError "encryption failed" w')
      | Some encrypted =>
          (Return (b64_encode (map Z_of_byte (salt ++ iv ++ encrypted))), w')
      end
  end.
Proof.
  cbv zeta. unfold encrypt. unfold try_catch at 1.
  unfold bind at 1. unfold generateSalt at 1. unfold getRandomValues at 1.
  unfold bind at 1. unfold generateIV at 1. unfold getRandomValues at 1.
  assert (Eiv : map (rng (drawn 16 w)) (seq 0 12) = map (rng w) (seq 16 12))
    by reflexivity.
  rewrite Eiv.
  unfold bind at 1. rewrite deriveKey_run.
  destruct (derive_key password (map (rng w) (seq 0 16))) as [key|];
    [|reflexivity].
  unfold bind at 1.
  destruct (subtle_encrypt _ key (TextEncoder_encode plaintext)) as [encrypted|];
    [|reflexivity].
  cbn [builtin ret].
  rewrite pack_run. reflexivity.
Qed.

Lemma base64ToArrayBuffer_run (base64 : jsstring) (w : World) :
  base64ToArrayBuffer base64 w =
  match atob base64 with
  | Some binary => (Return (map byte_of_Z binary), w)
  | None => (Throw InvalidCharacterError, w)
  end.
Proof.
  unfold base64ToArrayBuffer, bind, builtin.
  destruct (atob base64); reflexivity.
Qed.

(** [decrypt] cuts the decoded bytes at 16 and at 28. *)
Lemma decrypt_run (ciphertext password : jsstring) (w : World) :
  decrypt ciphertext password w =
  match atob ciphertext with
  | Some binary =>
      let data := map byte_of_Z binary in
      try_catch
        (decrypt_parts (firstn 16 data) (firstn 12 (skipn 16 data)) (skipn 28 data)
                       password)
        (decrypt_failed jsstring) w
  | None =>
      (Throw (Error "decryption failed: the password may be wrong"),
       logged LError "decryption failed" w)
  end.
Proof.
  unfold decrypt. unfold try_catch at 1. unfold bind at 1.
  rewrite base64ToArrayBuffer_run.
  destruct (atob ciphertext) as [binary|]; [|reflexivity].
  cbv zeta.
  change 0 with (Z.of_nat 0). change 16 with (Z.of_nat 16).
  change 28 with (Z.of_nat 28).
  rewrite !slice_firstn_skipn by lia. rewrite slice_skipn.
  reflexivity.
Qed.

Lemma decrypt_parts_run (salt iv encrypted : Uint8Array) (password : jsstring)
      (w : World) :
  try_catch (decrypt_parts salt iv encrypted password) (decrypt_failed jsstring) w =
  match derive_key password salt with
  | None =>
      (Throw (Error "decryption failed: the password may be wrong"),
       logged LError "decryption failed"
              (logged LError "key derivation failed" w))
  | Some key =>
      match subtle_decrypt {| gcm_iv := iv |} key encrypted with
      | None =>
          (Throw (Error "decryption failed: the password may be wrong"),
           logged LError "decryption failed" w)
      | Some decrypted => (Return (TextDecoder_decode decrypted), w)
      end
  end.
Proof.
  unfold try_catch, decrypt_parts. unfold bind at 1. rewrite deriveKey_run.
  destruct (derive_key password salt) as [key|]; [|reflexivity].
  unfold bind, builtin.
  destruct (subtle_decrypt _ key encrypted); reflexivity.
Qed.

End CipherRuns.

Lemma bytes_eqb_refl (a : Uint8Array) : bytes_eqb a a = true.
Proof.
  induction a as [|x a IH]; simpl; [reflexivity|].
  rewrite IH, andb_true_r. apply Byte.byte_dec_lb. reflexivity.
Qed.

Lemma sample_subtle_gcm_correct : gcm_correct sample_subtle.
Proof.
  unfold gcm_correct. cbn [subtle_encrypt subtle_decrypt sample_subtle].
  intros params key data encrypted [= <-].
  assert (Hlen : length (sample_tag key (gcm_iv params) data) = 16%nat)
    by (unfold sample_tag; apply repeat_length).
  rewrite length_app, Hlen.
  replace (length data + 16 - 16)%nat with (length data + 0)%nat by lia.
  destruct (Nat.ltb_spec (length data + 16) 16); [lia|].
  rewrite skipn_app, firstn_app, Nat.add_0_r, skipn_all, firstn_all, Nat.sub_diag.
  cbn [skipn firstn app]. rewrite app_nil_r, bytes_eqb_refl. reflexivity.
Qed.

Section CipherWrappers.
Context {sc : SubtleCrypto}.

Lemma resolved_master_truthy (mp : option jsstring) (w : World) (m : jsstring) :
  resolved_master mp w = Some m -> exists c m', m = c :: m'.
Proof.
  unfold resolved_master. intros H.
  assert (T : js_truthy (Some m) = true).
  { destruct (js_truthy mp) eqn:E; [rewrite <- H; exact E|].
    destruct (local w) as [area|]; [|discriminate].
    destruct (js_truthy (masterPassword area)) eqn:E'; [|discriminate].
    rewrite <- H. exact E'. }
  destruct m as [|c m']; [discriminate | eauto].
Qed.

Lemma getMasterPassword_run (w : World) :
  getMasterPassword w = (Return (resolved_master None w), after_resolve None w).
Proof.
  unfold getMasterPassword, try_catch, bind, storage_local_get,
    resolved_master, after_resolve. cbn [js_truthy].
  destruct (local w); reflexivity.
Qed.

Lemma resolve_run (mp : option jsstring) (w : World) :
  (if js_truthy mp then ret mp else getMasterPassword) w =
  (Return (resolved_master mp w), after_resolve mp w).
Proof.
  destruct (js_truthy mp) eqn:E.
  - unfold resolved_master, after_resolve. rewrite E. reflexivity.
  - rewrite getMasterPassword_run. unfold resolved_master, after_resolve.
    rewrite E. reflexivity.
Qed.

Lemma after_resolve_Some (mp : option jsstring) (w : World) (m : jsstring) :
  resolved_master mp w = Some m -> after_resolve mp w = w.
Proof.
  unfold resolved_master, after_resolve.
  destruct (js_truthy mp); [reflexivity|].
  destruct (local w); [reflexivity | discriminate].
Qed.

Lemma decryptPassword_run (v : jsstring) (mp : option jsstring) (w : World) :
  decryptPassword v mp w =
  if isBase64 v then
    match resolved_master mp w with
    | Some m => try_catch (decrypt v m) (decryptPassword_failed v) w
    | None =>
        (Return v, logged LWarn "no master password: cannot decrypt"
                          (after_resolve mp w))
    end
  else (Return v, w).
Proof.
  unfold decryptPassword. destruct (isBase64 v); [|reflexivity].
  cbn [negb]. unfold bind at 1. rewrite resolve_run.
  destruct (resolved_master mp w) as [m|] eqn:E; [|reflexivity].
  rewrite (after_resolve_Some _ _ _ E).
  destruct (resolved_master_truthy _ _ _ E) as (c & m' & ->). reflexivity.
Qed.

Lemma encryptPassword_run (p : jsstring) (mp : option jsstring) (w : World) :
  encryptPassword p mp w =
  match resolved_master mp w with
  | Some m => try_catch (encrypt p m) (encryptPassword_failed p) w
  | None =>
      (Return p,
       logged LWarn "no master password: the password is stored as plain text"
              (after_resolve mp w))
  end.
Proof.
  unfold encryptPassword. unfold bind at 1. rewrite resolve_run.
  destruct (resolved_master mp w) as [m|] eqn:E; [|reflexivity].
  rewrite (after_resolve_Some _ _ _ E).
  destruct (resolved_master_truthy _ _ _ E) as (c & m' & ->). reflexivity.
Qed.

(** What [decrypt] returns for a blob of [encrypt], whatever the
    plaintext: the decoding of its encoding. *)
Lemma decrypt_encrypt (p s : jsstring) (w w2 : World) (blob : jsstring) :
  gcm_correct sc ->
  fst (encrypt p s w) = Return blob ->
  fst (decrypt blob s w2) = Return (TextDecoder_decode (TextEncoder_encode p)).
Proof.
  intros Hgcm He. rewrite encrypt_run in He. cbv zeta in He.
  set (salt := map (rng w) (seq 0 16)) in *.
  set (iv := map (rng w) (seq 16 12)) in *.
  assert (Ls : length salt = 16%nat)
    by (unfold salt; rewrite length_map, length_seq; reflexivity).
  assert (Li : length iv = 12%nat)
    by (unfold iv; rewrite length_map, length_seq; reflexivity).
  clearbody salt iv.
  destruct (derive_key s salt) as [key|] eqn:Ek; [|discriminate].
  destruct (subtle_encrypt {| gcm_iv := iv |} key (TextEncoder_encode p))
    as [encrypted|] eqn:Ee; [|discriminate].
  cbn [fst] in He. injection He as <-.
  rewrite decrypt_run, atob_b64_encode by apply Forall_is_byte_map.
  cbv zeta. rewrite map_byte_of_Z_of_byte.
  assert (E1 : firstn 16 (salt ++ iv ++ encrypted) = salt).
  { rewrite <- Ls. rewrite firstn_app, firstn_all, Nat.sub_diag, firstn_O.
    apply app_nil_r. }
  assert (E2 : skipn 16 (salt ++ iv ++ encrypted) = iv ++ encrypted).
  { rewrite <- Ls. rewrite skipn_app, skipn_all, Nat.sub_diag. reflexivity. }
  assert (E3 : skipn 28 (salt ++ iv ++ encrypted) = encrypted).
  { change 28%nat with (12 + 16)%nat. rewrite <- skipn_skipn, E2.
    rewrite <- Li. rewrite skipn_app, skipn_all, Nat.sub_diag. reflexivity. }
  rewrite E1, E2, E3.
  replace (firstn 12 (iv ++ encrypted)) with iv.
  2: { rewrite <- Li. rewrite firstn_app, firstn_all, Nat.sub_diag, firstn_O.
       symmetry. apply app_nil_r. }
  rewrite decrypt_parts_run, Ek. rewrite (Hgcm _ _ _ _ Ee). reflexivity.
Qed.

(** [encrypt] returns a blob as soon as the platform derives the key and
    encrypts. *)
Lemma encrypt_returns_blob (p s : jsstring) (w : World) (key : CryptoKey)
      (encrypted : Uint8Array) :
  derive_key s (map (rng w) (seq 0 16)) = Some key ->
  subtle_encrypt {| gcm_iv := map (rng w) (seq 16 12) |} key (TextEncoder_encode p)
  = Some encrypted ->
  exists blob, fst (encrypt p s w) = Return blob.
Proof.
  intros Hk He. rewrite encrypt_run. cbv zeta. rewrite Hk, He.
  eexists. reflexivity.
Qed.

(** Whatever the cipher, a plaintext that is one surrogate comes back as
    U+FFFD. *)
Lemma lone_surrogate_not_recovered (s : jsstring) (w w2 : World) (blob : jsstring) :
  gcm_correct sc ->
  fst (encrypt [0xD800] s w) = Return blob ->
  fst (decrypt blob s w2) = Return [0xFFFD].
Proof.
  intros Hgcm He. rewrite (decrypt_encrypt [0xD800] s w w2 blob Hgcm He).
  reflexivity.
Qed.

End CipherWrappers.

(* ================================================================= *)
(** * The credential cipher *)

(** C1, as amended. For every plaintext [p] that is a well-formed UTF-16
    string (no surrogate outside a pair) and does not begin with U+FEFF,
    and every master secret [s]: when [encrypt p s] gives a blob, with the
    salt and IV taken from the random source of the world [w], then
    [decrypt] of that blob under [s] returns [p], in every world. The
    platform cipher is assumed to decrypt what it encrypted
    ([gcm_correct]). *)
Theorem encrypt_decrypt_roundtrip (sc : SubtleCrypto) (p s : jsstring)
        (w : World) (blob : jsstring) :
  gcm_correct sc ->
  isWellFormed p = true ->
  no_leading_bom p = true ->
  fst (encrypt p s w) = Return blob ->
  forall w2, fst (decrypt blob s w2) = Return p.
Proof.
  intros Hgcm Hwf Hbom He w2.
  rewrite (decrypt_encrypt p s w w2 blob Hgcm He).
  rewrite TextDecoder_TextEncoder by assumption. reflexivity.
Qed.

Lemma encrypt_decrypt_roundtrip_witness :
  gcm_correct sample_subtle /\
  isWellFormed (js "pw") = true /\
  no_leading_bom (js "pw") = true /\
  fst (encrypt (sc := sample_subtle) (js "pw") (js "secret") sample_world)
  = Return sample_blob /\
  forall w2,
    fst (decrypt (sc := sample_subtle) sample_blob (js "secret") w2)
    = Return (js "pw").
Proof.
  assert (He : fst (encrypt (sc := sample_subtle) (js "pw") (js "secret") sample_world)
               = Return sample_blob) by (vm_compute; reflexivity).
  split; [exact sample_subtle_gcm_correct|].
  split; [reflexivity|]. split; [reflexivity|]. split; [exact He|].
  apply (encrypt_decrypt_roundtrip sample_subtle (js "pw") (js "secret")
           sample_world sample_blob).
  - exact sample_subtle_gcm_correct.
  - reflexivity.
  - reflexivity.
  - exact He.
Defined.

(** C1 as stated fails: the one-character plaintext U+D800 (a surrogate
    without its pair) is encrypted as U+FFFD, which is what [decrypt]
    returns. *)
Lemma roundtrip_fails_on_lone_surrogate :
  gcm_correct sample_subtle /\
  [0xD800] <> @nil Z /\
  exists blob,
    fst (encrypt (sc := sample_subtle) [0xD800] (js "secret") sample_world)
    = Return blob /\
    fst (decrypt (sc := sample_subtle) blob (js "secret") sample_world)
    = Return [0xFFFD] /\
    fst (decrypt (sc := sample_subtle) blob (js "secret") sample_world)
    <> Return [0xD800].
Proof.
  split; [exact sample_subtle_gcm_correct|].
  split; [discriminate|].
  exists (match fst (encrypt (sc := sample_subtle) [0xD800] (js "secret") sample_world)
          with Return blob => blob | Throw _ => [] end).
  split; [vm_compute; reflexivity|].
  assert (E : fst (decrypt (sc := sample_subtle)
                     (match fst (encrypt (sc := sample_subtle) [0xD800] (js "secret")
                                         sample_world)
                      with Return blob => blob | Throw _ => [] end)
                     (js "secret") sample_world) = Return [0xFFFD])
    by (vm_compute; reflexivity).
  split; [exact E|]. rewrite E. discriminate.
Qed.

(** The same for a plaintext that begins with U+FEFF: the decoder drops
    the byte order mark. *)
Lemma roundtrip_fails_on_leading_bom :
  exists blob,
    fst (encrypt (sc := sample_subtle) [0xFEFF; 97] (js "secret") sample_world)
    = Return blob /\
    fst (decrypt (sc := sample_subtle) blob (js "secret") sample_world)
    = Return [97].
Proof.
  exists (match fst (encrypt (sc := sample_subtle) [0xFEFF; 97] (js "secret")
                             sample_world)
          with Return blob => blob | Throw _ => [] end).
  split; vm_compute; reflexivity.
Qed.

(** C5. A blob of [encrypt] is the base64 text of 16 bytes of salt, then 12
    bytes of IV, then the bytes the cipher returned (any number of them):
    [btoa] of those bytes is the blob and [atob] of the blob gives them
    back. [decrypt] cuts the decoded bytes of any blob at 16 and at 28:
    bytes 0..16 are the salt of the key derivation, bytes 16..28 the IV,
    the remainder the ciphertext; on a blob of [encrypt] these are the
    salt, the IV and the ciphertext it was made of. *)
Theorem blob_wire_format (sc : SubtleCrypto) (p s : jsstring) (w : World)
        (blob : jsstring) :
  fst (encrypt p s w) = Return blob ->
  (exists (salt iv encrypted : Uint8Array) (key : CryptoKey),
      salt = map (rng w) (seq 0 16) /\ length salt = 16%nat /\
      iv = map (rng w) (seq 16 12) /\ length iv = 12%nat /\
      (0 <= length encrypted)%nat /\
      derive_key s salt = Some key /\
      subtle_encrypt {| gcm_iv := iv |} key (TextEncoder_encode p) = Some encrypted /\
      btoa (map Z_of_byte (salt ++ iv ++ encrypted)) = Some blob /\
      atob blob = Some (map Z_of_byte (salt ++ iv ++ encrypted)) /\
      forall password w2,
        decrypt blob password w2 =
        try_catch (decrypt_parts salt iv encrypted password)
                  (decrypt_failed jsstring) w2) /\
  (forall ciphertext binary password w2,
      atob ciphertext = Some binary ->
      let data := map byte_of_Z binary in
      slice data 0 (Some 16) = firstn 16 data /\
      slice data 16 (Some 28) = firstn 12 (skipn 16 data) /\
      slice data 28 None = skipn 28 data /\
      decrypt ciphertext password w2 =
      try_catch (decrypt_parts (firstn 16 data) (firstn 12 (skipn 16 data))
                               (skipn 28 data) password)
                (decrypt_failed jsstring) w2).
Proof.
  intros He. split.
  - rewrite encrypt_run in He. cbv zeta in He.
    set (salt := map (rng w) (seq 0 16)) in *.
    set (iv := map (rng w) (seq 16 12)) in *.
    assert (Ls : length salt = 16%nat)
      by (unfold salt; rewrite length_map, length_seq; reflexivity).
    assert (Li : length iv = 12%nat)
      by (unfold iv; rewrite length_map, length_seq; reflexivity).
    assert (Es : salt = map (rng w) (seq 0 16)) by reflexivity.
    assert (Ei : iv = map (rng w) (seq 16 12)) by reflexivity.
    clearbody salt iv.
    destruct (derive_key s salt) as [key|] eqn:Ek; [|discriminate].
    destruct (subtle_encrypt {| gcm_iv := iv |} key (TextEncoder_encode p))
      as [encrypted|] eqn:Ee; [|discriminate].
    cbn [fst] in He. injection He as <-.
    exists salt, iv, encrypted, key.
    repeat (split; [first [reflexivity | assumption | lia]|]).
    split; [apply btoa_bytes, Forall_is_byte_map|].
    split; [apply atob_b64_encode, Forall_is_byte_map|].
    intros password w2.
    rewrite decrypt_run, atob_b64_encode by apply Forall_is_byte_map.
    cbv zeta. rewrite map_byte_of_Z_of_byte.
    assert (E2 : skipn 16 (salt ++ iv ++ encrypted) = iv ++ encrypted).
    { rewrite <- Ls. rewrite skipn_app, skipn_all, Nat.sub_diag. reflexivity. }
    f_equal. f_equal.
    + rewrite <- Ls. rewrite firstn_app, firstn_all, Nat.sub_diag, firstn_O.
      apply app_nil_r.
    + rewrite E2, <- Li. rewrite firstn_app, firstn_all, Nat.sub_diag, firstn_O.
      apply app_nil_r.
    + change 28%nat with (12 + 16)%nat. rewrite <- skipn_skipn, E2.
      rewrite <- Li. rewrite skipn_app, skipn_all, Nat.sub_diag. reflexivity.
  - intros ciphertext binary password w2 Hb data.
    split; [exact (slice_firstn_skipn data 0 16 ltac:(lia))|].
    split; [exact (slice_firstn_skipn data 16 28 ltac:(lia))|].
    split; [exact (slice_skipn data 28)|].
    rewrite decrypt_run, Hb. reflexivity.
Qed.

Lemma blob_wire_format_witness :
  fst (encrypt (sc := sample_subtle) (js "pw") (js "secret") sample_world)
  = Return sample_blob /\
  exists salt iv encrypted : Uint8Array,
    length salt = 16%nat /\ length iv = 12%nat /\
    atob sample_blob = Some (map Z_of_byte (salt ++ iv ++ encrypted)).
Proof.
  assert (He : fst (encrypt (sc := sample_subtle) (js "pw") (js "secret") sample_world)
               = Return sample_blob) by (vm_compute; reflexivity).
  split; [exact He|].
  destruct (blob_wire_format sample_subtle (js "pw") (js "secret") sample_world
              sample_blob He) as [(salt & iv & encrypted & key & H) _].
  exists salt, iv, encrypted. tauto.
Defined.

(** C2. For every input [v], [decryptPassword v] does not raise: it returns
    a value [r]. [r] is [v] when [v] fails the base64-shape test, when no
    master secret is configured, and when [decrypt] raises; a result other
    than [v] is the plaintext of a successful [decrypt]. *)
Theorem decryptPassword_fallback (sc : SubtleCrypto) (v : jsstring)
        (mp : option jsstring) (w : World) :
  exists r,
    fst (decryptPassword v mp w) = Return r /\
    (isBase64 v = false -> r = v) /\
    (resolved_master mp w = None -> r = v) /\
    (forall m e,
        resolved_master mp w = Some m -> fst (decrypt v m w) = Throw e -> r = v) /\
    (r <> v ->
     exists m, isBase64 v = true /\ resolved_master mp w = Some m /\
               fst (decrypt v m w) = Return r).
Proof.
  rewrite decryptPassword_run.
  destruct (isBase64 v) eqn:Eb.
  - destruct (resolved_master mp w) as [m|] eqn:Em.
    + unfold try_catch. destruct (decrypt v m w) as [[pl|e] w'] eqn:Ed.
      * exists pl. split; [reflexivity|]. split; [discriminate|].
        split; [discriminate|]. split.
        -- intros m' e [= <-] He. rewrite Ed in He. discriminate.
        -- intros _. exists m. rewrite Ed. auto.
      * exists v. split; [reflexivity|]. repeat split; auto. congruence.
    + exists v. split; [reflexivity|]. repeat split; auto. congruence.
  - exists v. split; [reflexivity|]. repeat split; auto. congruence.
Qed.

Lemma decryptPassword_fallback_witness :
  isBase64 (js "old password!") = false /\
  fst (decryptPassword (sc := sample_subtle) (js "old password!") None sample_world)
  = Return (js "old password!").
Proof.
  split; [reflexivity|].
  destruct (decryptPassword_fallback sample_subtle (js "old password!") None
              sample_world) as (r & Hr & Hplain & _).
  rewrite Hr. f_equal. apply Hplain. reflexivity.
Defined.

(** C4. For every password [p], [encryptPassword p] does not raise. With no
    master secret it returns [p] and leaves a warning on the console; with
    a master secret it runs [encrypt] and returns its blob; when [encrypt]
    raises it returns [p]. *)
Theorem encryptPassword_fallback (sc : SubtleCrypto) (p : jsstring)
        (mp : option jsstring) (w : World) :
  exists r,
    fst (encryptPassword p mp w) = Return r /\
    (resolved_master mp w = None ->
     r = p /\
     console (snd (encryptPassword p mp w)) =
     console (after_resolve mp w) ++
     [(LWarn, "no master password: the password is stored as plain text"%string)]) /\
    (forall m,
        resolved_master mp w = Some m ->
        encryptPassword p mp w = try_catch (encrypt p m) (encryptPassword_failed p) w) /\
    (forall m blob,
        resolved_master mp w = Some m -> fst (encrypt p m w) = Return blob -> r = blob) /\
    (forall m e,
        resolved_master mp w = Some m -> fst (encrypt p m w) = Throw e -> r = p).
Proof.
  rewrite encryptPassword_run.
  destruct (resolved_master mp w) as [m|] eqn:Em.
  - unfold try_catch. destruct (encrypt p m w) as [[blob|e] w'] eqn:Ee.
    + exists blob. split; [reflexivity|]. split; [discriminate|]. split.
      * intros m' [= <-]. rewrite Ee. reflexivity.
      * split; intros m' x [= <-] Hx; rewrite Ee in Hx; cbn [fst] in Hx; congruence.
    + exists p. split; [reflexivity|]. split; [discriminate|]. split.
      * intros m' [= <-]. rewrite Ee. reflexivity.
      * split; intros m' x [= <-] Hx; rewrite Ee in Hx; cbn [fst] in Hx; congruence.
  - exists p. split; [reflexivity|]. split; [intros _; split; reflexivity|].
    repeat split; intros; discriminate.
Qed.

Lemma encryptPassword_fallback_witness :
  resolved_master None (world_with None []) = None /\
  fst (encryptPassword (sc := sample_subtle) (js "pw") None (world_with None []))
  = Return (js "pw").
Proof.
  split; [reflexivity|].
  destruct (encryptPassword_fallback sample_subtle (js "pw") None (world_with None []))
    as (r & Hr & Hnone & _).
  rewrite Hr. f_equal. apply Hnone. reflexivity.
Defined.

(** With [crypto.subtle] missing, [encrypt] raises and [encryptPassword]
    returns the plaintext, with the errors on the console. *)
Example encryptPassword_without_subtle :
  observe (encryptPassword (sc := no_subtle) (js "pw") None sample_world) =
  (Return (js "pw"),
   [(LError, "key derivation failed"); (LError, "encryption failed");
    (LError, "encrypting the password failed")]%string).
Proof. reflexivity. Qed.

(** C9. A master secret stored as the empty string is an absent one:
    [getMasterPassword] returns null, so (called without a master argument,
    or with a null or empty one) [encryptPassword p] returns [p] and
    [decryptPassword v] returns a base64-shaped [v], both with the console
    output they give when nothing is stored. [getMasterPassword] also
    returns null when storage cannot be read, and after
    [setMasterPassword("")]. *)
Theorem empty_master_is_absent (sc : SubtleCrypto) (p v : jsstring)
        (mp : option jsstring) (w : World) (area : StorageArea) :
  local w = Some area ->
  masterPassword area = Some [] ->
  js_truthy mp = false ->
  getMasterPassword w = (Return None, w) /\
  fst (encryptPassword p mp w) = Return p /\
  observe (encryptPassword p mp w) = observe (encryptPassword p mp (with_master None w)) /\
  (isBase64 v = true ->
   fst (decryptPassword v mp w) = Return v /\
   observe (decryptPassword v mp w) = observe (decryptPassword v mp (with_master None w))) /\
  (forall w', local w' = None -> fst (getMasterPassword w') = Return None) /\
  fst (getMasterPassword (snd (setMasterPassword [] w))) = Return None.
Proof.
  intros Hl Hm Hmp.
  assert (R : resolved_master mp w = None)
    by (unfold resolved_master; rewrite Hmp, Hl, Hm; reflexivity).
  assert (A : after_resolve mp w = w)
    by (unfold after_resolve; rewrite Hmp, Hl; reflexivity).
  assert (R' : resolved_master mp (with_master None w) = None)
    by (unfold resolved_master, with_master; rewrite Hmp; cbn [local];
        rewrite Hl; reflexivity).
  assert (A' : after_resolve mp (with_master None w) = with_master None w)
    by (unfold after_resolve, with_master; rewrite Hmp; cbn [local];
        rewrite Hl; reflexivity).
  split.
  { rewrite getMasterPassword_run. unfold resolved_master, after_resolve.
    cbn [js_truthy]. rewrite Hl, Hm. reflexivity. }
  rewrite !encryptPassword_run, R, R', A, A'.
  split; [reflexivity|]. split; [reflexivity|]. split.
  { intros Hb. rewrite !decryptPassword_run, Hb, R, R', A, A'.
    split; reflexivity. }
  split.
  { intros w' Hw'. rewrite getMasterPassword_run. unfold resolved_master.
    cbn [js_truthy]. rewrite Hw'. reflexivity. }
  rewrite getMasterPassword_run.
  unfold setMasterPassword, try_catch, bind, storage_local_set_masterPassword.
  rewrite Hl. reflexivity.
Qed.

Lemma empty_master_is_absent_witness :
  fst (encryptPassword (sc := sample_subtle) (js "pw") None (world_with (Some []) []))
  = Return (js "pw").
Proof.
  apply (empty_master_is_absent sample_subtle (js "pw") (js "abcd") None
           (world_with (Some []) [])
           {| masterPassword := Some []; environments := Some [] |});
    reflexivity.
Defined.

Lemma alphanumeric_base64_class (c : Z) :
  alphanumeric c = true -> base64_class c = true.
Proof.
  unfold alphanumeric, base64_class, upper_alpha, lower_alpha, digit.
  intros H. apply orb_true_iff in H. destruct H as [H|H];
    [apply orb_true_iff in H; destruct H as [H|H]|]; rewrite H;
    rewrite ?orb_true_r; reflexivity.
Qed.

(** C10. [isBase64] is true for every non-empty string of characters of
    [A-Za-z0-9+/] followed by at most two ['='], whatever its length (the
    three characters "abc" are accepted). So every non-empty alphanumeric
    password is taken for a blob, and [decryptPassword], given a master
    secret, runs [decrypt] on it instead of returning it at once. *)
Theorem isBase64_accepts_alphanumeric (sc : SubtleCrypto) :
  (forall body n,
      forallb base64_class body = true -> (n <= 2)%nat ->
      body ++ repeat 61 n <> [] ->
      isBase64 (body ++ repeat 61 n) = true) /\
  (isBase64 (js "abc") = true /\ Z.of_nat (length (js "abc")) mod 4 <> 0) /\
  (forall v,
      v <> [] -> forallb alphanumeric v = true ->
      isBase64 v = true /\
      forall mp m w,
        resolved_master mp w = Some m ->
        decryptPassword v mp w =
        try_catch (decrypt v m) (decryptPassword_failed v) w).
Proof.
  split; [|split].
  - intros body n Hb Hn Hne. apply isBase64_shape. split; [exact Hne|].
    exists body, n. auto.
  - split; [reflexivity | discriminate].
  - intros v Hne Ha.
    assert (Hb : isBase64 v = true).
    { apply isBase64_shape. split; [exact Hne|].
      exists v, 0%nat. split; [symmetry; apply app_nil_r|]. split; [lia|].
      apply forallb_forall. intros c Hc. apply alphanumeric_base64_class.
      rewrite forallb_forall in Ha. apply Ha. exact Hc. }
    split; [exact Hb|].
    intros mp m w Hm. rewrite decryptPassword_run, Hb, Hm. reflexivity.
Qed.

Lemma isBase64_accepts_alphanumeric_witness :
  isBase64 (js "hunter2") = true /\
  observe (decryptPassword (sc := sample_subtle) (js "hunter2") None sample_world) =
  observe (try_catch (decrypt (sc := sample_subtle) (js "hunter2") (js "secret"))
                     (decryptPassword_failed (js "hunter2")) sample_world).
Proof.
  destruct (isBase64_accepts_alphanumeric sample_subtle) as (_ & _ & H).
  destruct (H (js "hunter2") ltac:(discriminate) ltac:(reflexivity)) as [Hb Hrun].
  split; [exact Hb|].
  rewrite (Hrun None (js "secret") sample_world ltac:(reflexivity)). reflexivity.
Defined.

(** A blob decrypted under another secret fails the integrity check and
    comes back unchanged. *)
Example decryptPassword_wrong_secret :
  observe (decryptPassword (sc := sample_subtle) sample_blob (Some (js "other"))
                           sample_world) =
  (Return sample_blob,
   [(LError, "decryption failed"); (LError, "decrypting the password failed")]%string).
Proof. vm_compute. reflexivity. Qed.

(** The password "abc" is base64-shaped; [decrypt] is run on it and fails,
    which the console shows, and the password comes back. *)
Example decryptPassword_abc :
  observe (decryptPassword (sc := sample_subtle) (js "abc") None sample_world) =
  (Return (js "abc"),
   [(LError, "decryption failed"); (LError, "decrypting the password failed")]%string).
Proof. reflexivity. Qed.

(* ================================================================= *)
(** * The environment matcher *)

Lemma find_first {A : Type} (f : A -> bool) (l : list A) (i : nat) (x : A) :
  nth_error l i = Some x -> f x = true ->
  exists k y,
    (k <= i)%nat /\ nth_error l k = Some y /\ f y = true /\
    (forall k' y', (k' < k)%nat -> nth_error l k' = Some y' -> f y' = false) /\
    find f l = Some y.
Proof.
  revert i. induction l as [|a l IH]; intros i Hi Hx.
  - destruct i; discriminate.
  - destruct (f a) eqn:Ea.
    + exists 0%nat, a. split; [lia|]. split; [reflexivity|]. split; [exact Ea|].
      split; [intros k' y' Hk; lia|]. simpl. rewrite Ea. reflexivity.
    + destruct i as [|i]; [simpl in Hi; congruence|].
      destruct (IH i Hi Hx) as (k & y & Hk & Hn & Hy & Hmin & Hf).
      exists (S k), y. split; [lia|]. split; [exact Hn|]. split; [exact Hy|].
      split.
      * intros [|k'] y' Hlt Hn'; simpl in Hn'; [congruence|].
        apply (Hmin k' y'); [lia | exact Hn'].
      * simpl. rewrite Ea. exact Hf.
Qed.

Lemma find_app_none {A : Type} (f : A -> bool) (l1 l2 : list A) :
  (forall x, In x l1 -> f x = false) -> find f (l1 ++ l2) = find f l2.
Proof.
  induction l1 as [|a l1 IH]; intros H; [reflexivity|].
  simpl. rewrite (H a (or_introl eq_refl)). apply IH.
  intros x Hx. apply H. right. exact Hx.
Qed.

Lemma replace_trailing_slash_app (s : jsstring) :
  replace_trailing_slash (s ++ js "/") = s.
Proof.
  unfold replace_trailing_slash. rewrite endsWith_app.
  change (-1) with (- Z.of_nat 1). rewrite slice_drop_last by lia.
  rewrite length_app. change (length (js "/")) with 1%nat.
  replace (length s + 1 - 1)%nat with (length s + 0)%nat by lia.
  rewrite firstn_app_2, firstn_O. apply app_nil_r.
Qed.

Lemma replace_trailing_slash_none (s : jsstring) :
  endsWith s (js "/") = false -> replace_trailing_slash s = s.
Proof. unfold replace_trailing_slash. intros ->. reflexivity. Qed.

Lemma firstn_strip_suffix (prefix suffix : jsstring) :
  firstn (length (prefix ++ suffix) - length suffix) (prefix ++ suffix) = prefix.
Proof.
  rewrite length_app.
  replace (length prefix + length suffix - length suffix)%nat
    with (length prefix + 0)%nat by lia.
  rewrite firstn_app_2, firstn_O. apply app_nil_r.
Qed.

Section MatcherRuns.
Context {up : URLParser}.

(** The loop returns the first environment, in list order, that the
    policy of the specification accepts. *)
Lemma matchEnvironment_loop_result (norm : jsstring) (envs : list Environment)
      (w : World) :
  fst (matchEnvironment_loop norm envs w) = Return (find (spec_env_matches norm) envs).
Proof.
  revert w. induction envs as [|env rest IH]; intros w; [reflexivity|].
  cbn [matchEnvironment_loop find]. unfold spec_env_matches at 1.
  destruct (loginUrl env) as [[|c u]|]; try apply IH.
  unfold bind at 1. unfold try_catch at 1. unfold bind at 1.
  unfold new_URL, builtin.
  destruct (URL_parse (c :: u)) as [envUrl|]; [|apply IH].
  cbn [ret]. fold (spec_normalize envUrl).
  unfold spec_exact, spec_wildcard.
  destruct (str_eqb norm (spec_normalize envUrl)); [reflexivity|].
  cbn [orb].
  change (-2) with (- Z.of_nat 2). rewrite slice_drop_last by lia.
  destruct (endsWith (spec_normalize envUrl) (js "/*")); [|apply IH].
  cbn [andb].
  destruct (startsWith norm _); [reflexivity | apply IH].
Qed.

Lemma matchEnvironment_empty (w : World) :
  matchEnvironment [] w = (Return None, w).
Proof. reflexivity. Qed.

Lemma matchEnvironment_result (cand : jsstring) (w : World) (area : StorageArea) :
  cand <> [] -> local w = Some area ->
  fst (matchEnvironment cand w) =
  Return (find (spec_env_matches (spec_candidate cand))
               (match environments area with Some l => l | None => [] end)).
Proof.
  intros Hc Hl. destruct cand as [|c cand]; [congruence|].
  unfold matchEnvironment. cbn [js_truthy negb].
  unfold try_catch at 1. unfold bind at 1. unfold storage_local_get.
  rewrite Hl. unfold bind at 1. unfold try_catch at 1. unfold bind at 1.
  unfold new_URL, builtin, spec_candidate.
  destruct (URL_parse (c :: cand)) as [url|]; cbn [ret throw].
  - fold (spec_normalize url).
    pose proof (matchEnvironment_loop_result (spec_normalize url)
                  (match environments area with Some l => l | None => [] end) w) as H.
    destruct (matchEnvironment_loop _ _ w) as [[r|e] w']; cbn [fst] in *;
      [exact H | discriminate].
  - unfold bind at 1. unfold console_debug, console_write.
    change (ret (c :: cand) ?x) with (Return (c :: cand), x). cbv beta iota.
    pose proof (matchEnvironment_loop_result (c :: cand)
                  (match environments area with Some l => l | None => [] end)
                  (logged LDebug "URL normalization failed, the original URL is used" w))
      as H.
    destruct (matchEnvironment_loop _ _ _) as [[r|e] w']; cbn [fst] in *;
      [exact H | discriminate].
Qed.

(** [matchEnvironment] does not raise. *)
Lemma matchEnvironment_returns (cand : jsstring) (w : World) :
  exists r, fst (matchEnvironment cand w) = Return r.
Proof.
  destruct cand as [|c cand]; [exists None; reflexivity|].
  destruct (local w) as [area|] eqn:Hl.
  - eexists. apply (matchEnvironment_result (c :: cand) w area); [discriminate | exact Hl].
  - exists None. unfold matchEnvironment. cbn [js_truthy negb].
    unfold try_catch at 1. unfold bind at 1. unfold storage_local_get.
    rewrite Hl. reflexivity.
Qed.

End MatcherRuns.

Section MatcherPolicy.
Context {up : URLParser}.

Lemma spec_env_matches_parsed (cand : jsstring) (env : Environment)
      (l : jsstring) (u : URL) :
  loginUrl env = Some l -> l <> [] -> URL_parse l = Some u ->
  spec_env_matches cand env =
  spec_exact cand (spec_normalize u) || spec_wildcard cand (spec_normalize u).
Proof.
  intros Hl Hne Hu. unfold spec_env_matches. rewrite Hl.
  destruct l as [|c l']; [congruence|]. rewrite Hu. reflexivity.
Qed.

Lemma spec_env_matches_unparsed (cand : jsstring) (env : Environment) (l : jsstring) :
  loginUrl env = Some l -> URL_parse l = None -> spec_env_matches cand env = false.
Proof.
  intros Hl Hu. unfold spec_env_matches. rewrite Hl.
  destruct l as [|c l']; [reflexivity|]. rewrite Hu. reflexivity.
Qed.

Lemma spec_normalize_fields (u : URL) (scheme_ host_ path_ : jsstring) :
  protocol u = scheme_ -> host u = host_ -> pathname u = path_ ->
  spec_normalize u = replace_trailing_slash (scheme_ ++ js "//" ++ host_ ++ path_).
Proof. intros <- <- <-. reflexivity. Qed.

(** A wildcard [loginUrl] matches exactly the candidates that start with
    what precedes the ["/*"]. *)
Lemma spec_env_matches_wildcard (cand : jsstring) (env : Environment)
      (l : jsstring) (u : URL) (prefix : jsstring) :
  loginUrl env = Some l -> l <> [] -> URL_parse l = Some u ->
  spec_normalize u = prefix ++ js "/*" ->
  spec_env_matches cand env = startsWith cand prefix.
Proof.
  intros Hl Hne Hu Hn.
  rewrite (spec_env_matches_parsed cand env l u Hl Hne Hu), Hn.
  unfold spec_exact, spec_wildcard.
  rewrite endsWith_app. cbn [andb].
  change 2%nat with (length (js "/*")). rewrite firstn_strip_suffix.
  destruct (str_eqb cand (prefix ++ js "/*")) eqn:E; [|reflexivity].
  apply str_eqb_eq in E. subst cand. cbn [orb]. symmetry. apply startsWith_app.
Qed.

End MatcherPolicy.

(** C7. An environment whose normalized [loginUrl] ends with ["/*"] matches
    the candidates whose normalized URL starts with the text before that
    suffix, and no others; the test is on characters, not on path segments.
    With such an environment first among those that can match,
    [matchEnvironment] returns it for such a (non-empty) candidate and
    goes on to the later environments otherwise. For the parser giving the three URLs
    their parts: ["https://a.com/sso/*"] matches
    ["https://a.com/sso/step2"], and also ["https://a.com/ssoextra"], but
    not ["https://b.com/sso/step2"]. *)
Theorem wildcard_match (up : URLParser) :
  (forall cand w area before env after l u prefix,
      cand <> [] -> local w = Some area ->
      environments area = Some (before ++ env :: after) ->
      (forall e, In e before -> spec_env_matches (spec_candidate cand) e = false) ->
      loginUrl env = Some l -> l <> [] -> URL_parse l = Some u ->
      spec_normalize u = prefix ++ js "/*" ->
      fst (matchEnvironment cand w) =
      if startsWith (spec_candidate cand) prefix
      then Return (Some env)
      else Return (find (spec_env_matches (spec_candidate cand)) after)) /\
  (forall w area,
      local w = Some area ->
      environments area = Some [env_of "sso" "https://a.com/sso/*"] ->
      parses up "https://a.com/sso/*" "https:" "a.com" "/sso/*" ->
      parses up "https://a.com/sso/step2" "https:" "a.com" "/sso/step2" ->
      parses up "https://a.com/ssoextra" "https:" "a.com" "/ssoextra" ->
      parses up "https://b.com/sso/step2" "https:" "b.com" "/sso/step2" ->
      fst (matchEnvironment (js "https://a.com/sso/step2") w)
      = Return (Some (env_of "sso" "https://a.com/sso/*")) /\
      fst (matchEnvironment (js "https://a.com/ssoextra") w)
      = Return (Some (env_of "sso" "https://a.com/sso/*")) /\
      fst (matchEnvironment (js "https://b.com/sso/step2") w) = Return None).
Proof.
  assert (G : forall cand w area before env after l u prefix,
      cand <> [] -> local w = Some area ->
      environments area = Some (before ++ env :: after) ->
      (forall e, In e before -> spec_env_matches (spec_candidate cand) e = false) ->
      loginUrl env = Some l -> l <> [] -> URL_parse l = Some u ->
      spec_normalize u = prefix ++ js "/*" ->
      fst (matchEnvironment cand w) =
      if startsWith (spec_candidate cand) prefix
      then Return (Some env)
      else Return (find (spec_env_matches (spec_candidate cand)) after)).
  { intros cand w area before env after l u prefix Hc Hw He Hb Hl Hne Hu Hn.
    rewrite (matchEnvironment_result cand w area Hc Hw), He.
    rewrite find_app_none by exact Hb. cbn [find].
    rewrite (spec_env_matches_wildcard _ env l u prefix Hl Hne Hu Hn).
    destruct (startsWith (spec_candidate cand) prefix); reflexivity. }
  split; [exact G|].
  intros w area Hw He (ue & Hue & Pe & He' & Pathe) (u1 & Hu1 & P1 & H1 & Path1)
         (u2 & Hu2 & P2 & H2 & Path2) (u3 & Hu3 & P3 & H3 & Path3).
  assert (Hn : spec_normalize ue = js "https://a.com/sso" ++ js "/*").
  { rewrite (spec_normalize_fields ue _ _ _ Pe He' Pathe). reflexivity. }
  assert (Hfind : forall cand,
             cand <> [] ->
             fst (matchEnvironment cand w) =
             if startsWith (spec_candidate cand) (js "https://a.com/sso")
             then Return (Some (env_of "sso" "https://a.com/sso/*"))
             else Return None).
  { intros cand Hc.
    apply (G cand w area [] (env_of "sso" "https://a.com/sso/*") []
             (js "https://a.com/sso/*") ue (js "https://a.com/sso"));
      try assumption; try reflexivity; try discriminate.
    intros e []. }
  rewrite !Hfind by discriminate.
  unfold spec_candidate. rewrite Hu1, Hu2, Hu3.
  rewrite (spec_normalize_fields u1 _ _ _ P1 H1 Path1).
  rewrite (spec_normalize_fields u2 _ _ _ P2 H2 Path2).
  rewrite (spec_normalize_fields u3 _ _ _ P3 H3 Path3).
  repeat split; reflexivity.
Qed.

Lemma wildcard_match_witness :
  fst (matchEnvironment (up := plain_URL) (js "https://a.com/sso/step2")
         (world_with None [env_of "login" "https://a.com/login";
                           env_of "sso" "https://a.com/sso/*"]))
  = Return (Some (env_of "sso" "https://a.com/sso/*")) /\
  fst (matchEnvironment (up := plain_URL) (js "https://a.com/sso/step2")
         (world_with None [env_of "sso" "https://a.com/sso/*"]))
  = Return (Some (env_of "sso" "https://a.com/sso/*")) /\
  fst (matchEnvironment (up := plain_URL) (js "https://a.com/ssoextra")
         (world_with None [env_of "sso" "https://a.com/sso/*"]))
  = Return (Some (env_of "sso" "https://a.com/sso/*")) /\
  fst (matchEnvironment (up := plain_URL) (js "https://b.com/sso/step2")
         (world_with None [env_of "sso" "https://a.com/sso/*"]))
  = Return None.
Proof.
  split.
  - apply (proj1 (wildcard_match plain_URL)
             (js "https://a.com/sso/step2")
             (world_with None [env_of "login" "https://a.com/login";
                               env_of "sso" "https://a.com/sso/*"])
             {| masterPassword := None;
                environments := Some [env_of "login" "https://a.com/login";
                                      env_of "sso" "https://a.com/sso/*"] |}
             [env_of "login" "https://a.com/login"]
             (env_of "sso" "https://a.com/sso/*") []
             (js "https://a.com/sso/*")
             {| protocol := js "https:"; host := js "a.com";
                pathname := js "/sso/*"; search := []; hash := [] |}
             (js "https://a.com/sso"));
      try reflexivity; try discriminate.
    intros e [<-|[]]. reflexivity.
  - apply (proj2 (wildcard_match plain_URL)
             (world_with None [env_of "sso" "https://a.com/sso/*"])
             {| masterPassword := None;
                environments := Some [env_of "sso" "https://a.com/sso/*"] |});
      try reflexivity;
      (eexists; split; [vm_compute; reflexivity | repeat split; reflexivity]).
Defined.

(** C8. Environments are tried in the order of the list and the first one
    that matches, by the exact or the wildcard rule, is returned. When two
    environments of the list both match the (non-empty) candidate, the environment
    returned stands at or before the earlier of the two, it matches and
    nothing before it does; it is the earlier of the two when no
    environment before that one matches. *)
Theorem first_match_wins (up : URLParser) (cand : jsstring) (w : World)
        (area : StorageArea) (envs : list Environment) (i j : nat)
        (e1 e2 : Environment) :
  cand <> [] ->
  local w = Some area ->
  environments area = Some envs ->
  (i < j)%nat ->
  nth_error envs i = Some e1 ->
  nth_error envs j = Some e2 ->
  spec_env_matches (spec_candidate cand) e1 = true ->
  spec_env_matches (spec_candidate cand) e2 = true ->
  exists k e,
    (k <= i)%nat /\ nth_error envs k = Some e /\
    spec_env_matches (spec_candidate cand) e = true /\
    (forall k' e', (k' < k)%nat -> nth_error envs k' = Some e' ->
                   spec_env_matches (spec_candidate cand) e' = false) /\
    fst (matchEnvironment cand w) = Return (Some e) /\
    ((forall k' e', (k' < i)%nat -> nth_error envs k' = Some e' ->
                    spec_env_matches (spec_candidate cand) e' = false) ->
     k = i /\ e = e1).
Proof.
  intros Hc Hw He Hij H1 H2 M1 M2.
  destruct (find_first (spec_env_matches (spec_candidate cand)) envs i e1 H1 M1)
    as (k & e & Hk & Hn & Hm & Hmin & Hf).
  exists k, e. repeat (split; [assumption|]). split.
  - rewrite (matchEnvironment_result cand w area Hc Hw), He, Hf. reflexivity.
  - intros Hfirst.
    assert (k = i).
    { destruct (Nat.eq_dec k i) as [|Hne]; [assumption|].
      assert (Hlt : (k < i)%nat) by lia.
      specialize (Hfirst k e Hlt Hn). congruence. }
    subst k. split; [reflexivity | congruence].
Qed.

Lemma first_match_wins_witness :
  fst (matchEnvironment (up := plain_URL) (js "https://a.com/login")
         (world_with None [env_of "other" "https://b.com/login";
                           env_of "first" "https://a.com/login/";
                           env_of "second" "https://a.com/login"]))
  = Return (Some (env_of "first" "https://a.com/login/")).
Proof.
  destruct (first_match_wins plain_URL (js "https://a.com/login")
              (world_with None [env_of "other" "https://b.com/login";
                                env_of "first" "https://a.com/login/";
                                env_of "second" "https://a.com/login"])
              {| masterPassword := None;
                 environments := Some [env_of "other" "https://b.com/login";
                                       env_of "first" "https://a.com/login/";
                                       env_of "second" "https://a.com/login"] |}
              [env_of "other" "https://b.com/login";
               env_of "first" "https://a.com/login/";
               env_of "second" "https://a.com/login"]
              1%nat 2%nat
              (env_of "first" "https://a.com/login/")
              (env_of "second" "https://a.com/login")
              ltac:(discriminate) eq_refl eq_refl ltac:(lia) eq_refl eq_refl
              eq_refl eq_refl)
    as (k & e & _ & _ & _ & _ & Hrun & Hfirst).
  rewrite Hrun. f_equal. f_equal. apply Hfirst.
  intros [|[|k']] e' Hlt Hn; [|lia|lia].
  injection Hn as <-. reflexivity.
Defined.

(** C6, as amended. The candidate URL and each environment's [loginUrl] go
    through the same normalization before they are compared: a URL that
    parses is collapsed to [scheme://host/path], its query string and
    fragment play no part, and one final ['/'] is removed when there is
    one. A candidate that does not parse is compared as it is written; an
    environment whose [loginUrl] does not parse is skipped. A candidate
    and a [loginUrl] with the same scheme, host and path, or whose paths
    differ by one final ['/'], normalize to the same text, and equal
    normalized texts match: with [loginUrl] ["https://a.com/login"], both
    ["https://a.com/login/"] and ["https://a.com/login?x=1"] return that
    environment. *)
Theorem normalization_policy (up : URLParser) :
  (forall cand w area,
      cand <> [] -> local w = Some area ->
      fst (matchEnvironment cand w) =
      Return (find (spec_env_matches (spec_candidate cand))
                   (match environments area with Some l => l | None => [] end))) /\
  (forall cand u, URL_parse cand = Some u -> spec_candidate cand = spec_normalize u) /\
  (forall cand, URL_parse cand = None -> spec_candidate cand = cand) /\
  (forall cand env l u,
      loginUrl env = Some l -> l <> [] -> URL_parse l = Some u ->
      spec_env_matches cand env =
      spec_exact cand (spec_normalize u) || spec_wildcard cand (spec_normalize u)) /\
  (forall cand env l,
      loginUrl env = Some l -> URL_parse l = None -> spec_env_matches cand env = false) /\
  (forall u u',
      protocol u = protocol u' -> host u = host u' -> pathname u = pathname u' ->
      spec_normalize u = spec_normalize u') /\
  (forall u path,
      pathname u = path ++ js "/" ->
      spec_normalize u = protocol u ++ js "//" ++ host u ++ path) /\
  (forall u,
      endsWith (protocol u ++ js "//" ++ host u ++ pathname u) (js "/") = false ->
      spec_normalize u = protocol u ++ js "//" ++ host u ++ pathname u) /\
  (forall ua ub,
      protocol ua = protocol ub -> host ua = host ub ->
      pathname ub = pathname ua ++ js "/" ->
      endsWith (protocol ua ++ js "//" ++ host ua ++ pathname ua) (js "/") = false ->
      spec_normalize ua = spec_normalize ub) /\
  (forall cand env l uc ue,
      URL_parse cand = Some uc ->
      loginUrl env = Some l -> l <> [] -> URL_parse l = Some ue ->
      spec_normalize uc = spec_normalize ue ->
      spec_env_matches (spec_candidate cand) env = true) /\
  (forall w area,
      local w = Some area ->
      environments area = Some [env_of "a" "https://a.com/login"] ->
      parses up "https://a.com/login" "https:" "a.com" "/login" ->
      parses up "https://a.com/login/" "https:" "a.com" "/login/" ->
      parses up "https://a.com/login?x=1" "https:" "a.com" "/login" ->
      fst (matchEnvironment (js "https://a.com/login/") w)
      = Return (Some (env_of "a" "https://a.com/login")) /\
      fst (matchEnvironment (js "https://a.com/login?x=1") w)
      = Return (Some (env_of "a" "https://a.com/login"))).
Proof.
  assert (Strip : forall u path,
             pathname u = path ++ js "/" ->
             spec_normalize u = protocol u ++ js "//" ++ host u ++ path).
  { intros u path Hp. unfold spec_normalize. rewrite Hp.
    rewrite !app_assoc. rewrite replace_trailing_slash_app. reflexivity. }
  assert (Keep : forall u,
             endsWith (protocol u ++ js "//" ++ host u ++ pathname u) (js "/") = false ->
             spec_normalize u = protocol u ++ js "//" ++ host u ++ pathname u).
  { intros u H. unfold spec_normalize. apply replace_trailing_slash_none. exact H. }
  assert (Match : forall cand env l uc ue,
             URL_parse cand = Some uc ->
             loginUrl env = Some l -> l <> [] -> URL_parse l = Some ue ->
             spec_normalize uc = spec_normalize ue ->
             spec_env_matches (spec_candidate cand) env = true).
  { intros cand env l uc ue Hc Hl Hne Hu Hn.
    rewrite (spec_env_matches_parsed _ env l ue Hl Hne Hu).
    unfold spec_candidate, spec_exact. rewrite Hc, Hn, str_eqb_refl. reflexivity. }
  split; [intros cand w area; apply matchEnvironment_result|].
  split; [intros cand u H; unfold spec_candidate; rewrite H; reflexivity|].
  split; [intros cand H; unfold spec_candidate; rewrite H; reflexivity|].
  split; [intros cand env l u; apply spec_env_matches_parsed|].
  split; [intros cand env l; apply spec_env_matches_unparsed|].
  split; [intros u u' Hp Hh Hpath; unfold spec_normalize; rewrite Hp, Hh, Hpath;
          reflexivity|].
  split; [exact Strip|]. split; [exact Keep|].
  split.
  { intros ua ub Hp Hh Hpath Hend.
    rewrite (Strip ub (pathname ua) Hpath), (Keep ua Hend), Hp, Hh. reflexivity. }
  split; [exact Match|].
  intros w area Hw He (ue & Hue & Pe & He' & Pathe) (u1 & Hu1 & P1 & H1 & Path1)
         (u2 & Hu2 & P2 & H2 & Path2).
  assert (Hn : spec_normalize ue = js "https://a.com/login")
    by (rewrite (spec_normalize_fields ue _ _ _ Pe He' Pathe); reflexivity).
  assert (Hn1 : spec_normalize u1 = js "https://a.com/login")
    by (rewrite (spec_normalize_fields u1 _ _ _ P1 H1 Path1); reflexivity).
  assert (Hn2 : spec_normalize u2 = js "https://a.com/login")
    by (rewrite (spec_normalize_fields u2 _ _ _ P2 H2 Path2); reflexivity).
  rewrite !(matchEnvironment_result _ w area) by (discriminate || exact Hw).
  rewrite He. cbn [find].
  rewrite (Match (js "https://a.com/login/") _ (js "https://a.com/login") u1 ue);
    try assumption; try reflexivity; try discriminate; try congruence.
  rewrite (Match (js "https://a.com/login?x=1") _ (js "https://a.com/login") u2 ue);
    try assumption; try reflexivity; try discriminate; try congruence.
  split; reflexivity.
Qed.

Lemma normalization_policy_witness :
  (fst (matchEnvironment (up := plain_URL) (js "https://a.com/login/")
          (world_with None [env_of "a" "https://a.com/login"]))
   = Return (Some (env_of "a" "https://a.com/login")) /\
   fst (matchEnvironment (up := plain_URL) (js "https://a.com/login?x=1")
          (world_with None [env_of "a" "https://a.com/login"]))
   = Return (Some (env_of "a" "https://a.com/login"))) /\
  spec_env_matches (up := plain_URL) (js "a.com/login") (env_of "bad" "a.com/login")
  = false /\
  spec_candidate (up := plain_URL) (js "a.com/login") = js "a.com/login".
Proof.
  destruct (normalization_policy plain_URL)
    as (_ & _ & Hkeep & _ & Hskip & _ & _ & _ & _ & _ & Hex).
  split; [|split].
  - apply (Hex (world_with None [env_of "a" "https://a.com/login"])
               {| masterPassword := None;
                  environments := Some [env_of "a" "https://a.com/login"] |});
      try reflexivity;
      (eexists; split; [vm_compute; reflexivity | repeat split; reflexivity]).
  - apply (Hskip (js "a.com/login") (env_of "bad" "a.com/login") (js "a.com/login"));
      reflexivity.
  - apply Hkeep. reflexivity.
Defined.

(** C6 as stated fails on the environment's side: ["a.com/login"] is not an
    absolute URL, so neither the candidate nor the [loginUrl] parses; the
    two texts are equal, and yet no environment is returned. *)
Lemma unparseable_loginUrl_is_skipped :
  URL_parse (URLParser := plain_URL) (js "a.com/login") = None /\
  loginUrl (env_of "bad" "a.com/login") = Some (js "a.com/login") /\
  str_eqb (js "a.com/login") (js "a.com/login") = true /\
  fst (matchEnvironment (up := plain_URL) (js "a.com/login")
         (world_with None [env_of "bad" "a.com/login"]))
  = Return None.
Proof. repeat split; reflexivity. Qed.

(** C3, as amended. [matchEnvironment] itself returns not-found at once
    only for the empty candidate: storage is not read and nothing is
    parsed. The test on the scheme is made by the caller:
    [initFloatingPanel] returns without a panel and without calling
    [matchEnvironment], whatever the parser, the state of the document and
    what is stored, when the page URL is empty or does not begin with the
    four characters ["http"], as for ["chrome://extensions"]; all it may do
    is write one debug line, and it does not raise. [matchEnvironment]
    called with an empty or non-HTTP(S) candidate does not raise
    either. *)
Theorem non_http_short_circuit (up : URLParser) (document_readyState : jsstring)
        (new_FloatingPanel : M unit) :
  (forall w, matchEnvironment [] w = (Return None, w)) /\
  (forall location w,
      location_href location = [] \/
      startsWith (location_href location) (js "http") = false ->
      initFloatingPanel document_readyState new_FloatingPanel location w
      = (Return None, w) \/
      initFloatingPanel document_readyState new_FloatingPanel location w
      = (Return None,
         logged LDebug "no valid URL, the floating panel is not shown" w)) /\
  (forall proto w,
      fst (initFloatingPanel document_readyState new_FloatingPanel
             {| location_protocol := proto;
                location_href := js "chrome://extensions" |} w)
      = Return None) /\
  (forall cand w,
      cand = [] \/ is_http_url cand = false ->
      exists r, fst (matchEnvironment cand w) = Return r).
Proof.
  assert (Guard : forall location w,
      location_href location = [] \/
      startsWith (location_href location) (js "http") = false ->
      initFloatingPanel document_readyState new_FloatingPanel location w
      = (Return None, w) \/
      initFloatingPanel document_readyState new_FloatingPanel location w
      = (Return None,
         logged LDebug "no valid URL, the floating panel is not shown" w)).
  { intros location w H. unfold initFloatingPanel.
    destruct (str_eqb (location_protocol location) (js "chrome:") ||
              str_eqb (location_protocol location) (js "chrome-extension:"));
      [left; reflexivity|].
    right. destruct H as [H|H]; rewrite H; [reflexivity|].
    rewrite orb_true_r. reflexivity. }
  split; [intros w; apply matchEnvironment_empty|].
  split; [exact Guard|]. split.
  - intros proto w.
    destruct (Guard {| location_protocol := proto;
                       location_href := js "chrome://extensions" |} w
                    (or_intror eq_refl)) as [E|E]; rewrite E; reflexivity.
  - intros cand w _. apply matchEnvironment_returns.
Qed.

Lemma non_http_short_circuit_witness :
  startsWith (js "chrome://extensions") (js "http") = false /\
  fst (initFloatingPanel (up := plain_URL) (js "complete") (throw TypeError)
         {| location_protocol := js "chrome:";
            location_href := js "chrome://extensions" |}
         (world_with None [env_of "x" "chrome://extensions"]))
  = Return None.
Proof.
  split; [reflexivity|].
  destruct (proj1 (proj2 (non_http_short_circuit plain_URL (js "complete")
                            (throw TypeError)))
              {| location_protocol := js "chrome:";
                 location_href := js "chrome://extensions" |}
              (world_with None [env_of "x" "chrome://extensions"])
              (or_intror eq_refl)) as [E|E]; rewrite E; reflexivity.
Defined.

(** C3 as stated fails: ["httpx://a.com/login"] is not an HTTP or HTTPS URL,
    but it begins with ["http"]; the caller passes it on, it is
    normalized, and a registered environment is returned, for which the
    panel is created. *)
Lemma non_http_candidate_is_matched :
  is_http_url (js "httpx://a.com/login") = false /\
  fst (initFloatingPanel (up := plain_URL) (js "complete") (ret tt)
         {| location_protocol := js "httpx:";
            location_href := js "httpx://a.com/login" |}
         (world_with None [env_of "x" "httpx://a.com/login"]))
  = Return (Some (env_of "x" "httpx://a.com/login")) /\
  fst (matchEnvironment (up := plain_URL) (js "httpx://a.com/login")
         (world_with None [env_of "x" "httpx://a.com/login"]))
  = Return (Some (env_of "x" "httpx://a.com/login")).
Proof. repeat split; reflexivity. Qed.

(* ================================================================= *)
(** * Further properties of the cipher *)

(** X1. After [setMasterPassword(s)] with a non-empty [s] and storage that
    can be written, [setMasterPassword] has returned true, the environments
    are untouched, [getMasterPassword] returns [s], and [s] is the secret
    [encryptPassword] and [decryptPassword] work with when they are given
    none. When storage cannot be written, [setMasterPassword] returns false
    (it does not raise) and leaves an error on the console. *)
Theorem master_password_roundtrip (s : jsstring) (w : World) :
  s <> [] ->
  (forall area,
      local w = Some area ->
      fst (setMasterPassword s w) = Return true /\
      local (snd (setMasterPassword s w)) =
      Some {| masterPassword := Some s; environments := environments area |} /\
      console (snd (setMasterPassword s w)) = console w /\
      fst (getMasterPassword (snd (setMasterPassword s w))) = Return (Some s) /\
      resolved_master None (snd (setMasterPassword s w)) = Some s) /\
  (local w = None ->
   setMasterPassword s w =
   (Return false, logged LError "storing the master password failed" w)).
Proof.
  intros Hs. destruct s as [|c s]; [congruence|]. split.
  - intros area Hl.
    unfold setMasterPassword, try_catch, bind, storage_local_set_masterPassword.
    rewrite Hl. cbn [fst snd ret local console].
    repeat split; try reflexivity.
  - intros Hl.
    unfold setMasterPassword, try_catch, bind, storage_local_set_masterPassword.
    rewrite Hl. reflexivity.
Qed.

Lemma master_password_roundtrip_witness :
  fst (getMasterPassword
         (snd (setMasterPassword (js "s3cret") (world_with None []))))
  = Return (Some (js "s3cret")).
Proof.
  destruct (master_password_roundtrip (js "s3cret") (world_with None [])
              ltac:(discriminate)) as [H _].
  destruct (H {| masterPassword := None; environments := Some [] |} eq_refl)
    as (_ & _ & _ & Hget & _).
  exact Hget.
Defined.

(** X2. [base64ToArrayBuffer] inverts [arrayBufferToBase64]: every byte
    array is encoded without an exception, the text it gives decodes to
    the same bytes, and neither call touches the world. *)
Theorem base64_buffer_roundtrip (buffer : Uint8Array) (w w' : World) :
  exists base64,
    arrayBufferToBase64 buffer w = (Return base64, w) /\
    base64ToArrayBuffer base64 w' = (Return buffer, w').
Proof.
  exists (b64_encode (map Z_of_byte buffer)). split.
  - apply arrayBufferToBase64_run.
  - rewrite base64ToArrayBuffer_run.
    rewrite atob_b64_encode by apply Forall_is_byte_map.
    rewrite map_byte_of_Z_of_byte. reflexivity.
Qed.

(** The characters before the first ['='] of a base64 text are its
    body. *)
Lemma base64_body_split (body body' rest : jsstring) (n : nat) :
  forallb base64_class body = true -> forallb base64_class body' = true ->
  body ++ 61 :: rest = body' ++ repeat 61 n ->
  body' = body /\ repeat 61 n = 61 :: rest.
Proof.
  revert body'. induction body as [|x body IH]; intros body' Hbody Hbody' Hv.
  - destruct body' as [|y body']; [split; [reflexivity | symmetry; exact Hv]|].
    cbn [app] in Hv. injection Hv as Hy _. subst y.
    cbn [forallb] in Hbody'. apply andb_prop in Hbody'.
    destruct Hbody' as [H61 _]. discriminate H61.
  - cbn [forallb] in Hbody. apply andb_prop in Hbody. destruct Hbody as [Hx Hb].
    destruct body' as [|y body'].
    + cbn [app] in Hv. destruct n as [|n]; [discriminate Hv|].
      cbn [repeat app] in Hv. injection Hv as Hx' _. subst x. discriminate Hx.
    + cbn [app] in Hv. injection Hv as Hy Hv. subst y.
      cbn [forallb] in Hbody'. apply andb_prop in Hbody'.
      destruct Hbody' as [_ Hb'].
      destruct (IH body' Hb Hb' Hv) as [-> Hr]. split; [reflexivity | exact Hr].
Qed.

(** X3. [isBase64] is true exactly for the non-empty strings made of
    characters of [A-Za-z0-9+/] followed by at most two ['=']. A stored
    value of any other shape is returned by [decryptPassword] as it is,
    and the world is untouched: storage is not read, nothing is logged. So
    it is for a value with any other character (a space, punctuation, a
    non-ASCII letter), for a value with an ['='] before the end or with
    three of them, and for the empty value. *)
Theorem isBase64_exact (sc : SubtleCrypto) (v : jsstring) (mp : option jsstring)
        (w : World) :
  (isBase64 v = true <->
   v <> [] /\
   exists body n, v = body ++ repeat 61 n /\ (n <= 2)%nat /\
                  forallb base64_class body = true) /\
  (isBase64 v = false -> decryptPassword v mp w = (Return v, w)) /\
  (forall c,
      In c v -> base64_class c = false -> c <> 61 ->
      isBase64 v = false /\ decryptPassword v mp w = (Return v, w)) /\
  (forall body rest,
      v = body ++ 61 :: rest -> (exists c, In c rest /\ c <> 61) \/ (3 <= length rest + 1)%nat ->
      forallb base64_class body = true ->
      isBase64 v = false) /\
  decryptPassword [] mp w = (Return [], w).
Proof.
  assert (Hrun : isBase64 v = false -> decryptPassword v mp w = (Return v, w)).
  { intros Hb. rewrite decryptPassword_run, Hb. reflexivity. }
  split; [apply isBase64_shape|]. split; [exact Hrun|].
  split; [|split; [|reflexivity]].
  - intros c Hin Hc Hne.
    assert (Hb : isBase64 v = false).
    { destruct (isBase64 v) eqn:E; [|reflexivity].
      apply isBase64_shape in E. destruct E as [_ (body & n & -> & _ & Hbody)].
      apply in_app_or in Hin. destruct Hin as [Hin|Hin].
      - rewrite forallb_forall in Hbody. rewrite (Hbody c Hin) in Hc. discriminate.
      - apply repeat_spec in Hin. congruence. }
    split; [exact Hb | exact (Hrun Hb)].
  - intros body rest -> Hrest Hbody.
    destruct (isBase64 (body ++ 61 :: rest)) eqn:E; [|reflexivity].
    exfalso. apply isBase64_shape in E.
    destruct E as [_ (body' & n & Hv & Hn & Hbody')].
    assert (Hsplit : body' = body /\ repeat 61 n = 61 :: rest)
      by (apply (base64_body_split body body' rest n); assumption).
    destruct Hsplit as [_ Hr].
    destruct n as [|n]; [discriminate Hr|]. cbn [repeat] in Hr. injection Hr as Hr.
    destruct Hrest as [(c & Hc & Hne)|Hlen].
    + rewrite <- Hr in Hc. apply repeat_spec in Hc. congruence.
    + rewrite <- Hr, repeat_length in Hlen. lia.
Qed.

Lemma isBase64_exact_witness :
  decryptPassword (sc := sample_subtle) (js "pass word") None sample_world
  = (Return (js "pass word"), sample_world) /\
  decryptPassword (sc := sample_subtle) (js "ab=c") None sample_world
  = (Return (js "ab=c"), sample_world) /\
  decryptPassword (sc := sample_subtle) (js "abc===") None sample_world
  = (Return (js "abc==="), sample_world).
Proof.
  split; [|split].
  - destruct (isBase64_exact sample_subtle (js "pass word") None sample_world)
      as (_ & _ & H & _).
    apply (H 32); [|reflexivity|discriminate].
    cbn. tauto.
  - destruct (isBase64_exact sample_subtle (js "ab=c") None sample_world)
      as (_ & H & _ & H' & _).
    apply H. apply (H' (js "ab") (js "c")); [reflexivity | | reflexivity].
    left. exists 99. split; [left; reflexivity | discriminate].
  - destruct (isBase64_exact sample_subtle (js "abc===") None sample_world)
      as (_ & H & _ & H' & _).
    apply H. apply (H' (js "abc") (js "==")); [reflexivity | | reflexivity].
    right. cbn. lia.
Defined.

Lemma b64_char_class (v : Z) : is_sextet v -> base64_class (b64_char v) = true.
Proof.
  unfold is_sextet, b64_char, base64_class, in_range. intros H.
  destruct (Z.ltb_spec v 26); [|destruct (Z.ltb_spec v 52);
    [|destruct (Z.ltb_spec v 62); [|destruct (Z.eqb_spec v 62)]]];
  split_cmp.
Qed.

(** What [btoa] writes has the shape [isBase64] tests. *)
Lemma b64_encode_shape (l : list Z) :
  Forall is_byte l ->
  exists body n,
    b64_encode l = body ++ repeat 61 n /\ (n <= 2)%nat /\
    forallb base64_class body = true.
Proof.
  induction l as [|a|a b|a b c l IH] using list_ind3; intros Hl.
  - exists [], 0%nat. repeat split. lia.
  - apply Forall_cons_inv in Hl. destruct Hl as [Ha _].
    destruct (sextets_of_bytes a 0 0 Ha is_byte_0 is_byte_0) as (H1 & _ & _ & _ & H2 & _).
    exists [b64_char (a / 4); b64_char (a mod 4 * 16)], 2%nat.
    split; [reflexivity|]. split; [lia|].
    cbn [forallb]. rewrite !b64_char_class by assumption. reflexivity.
  - apply Forall_cons_inv in Hl. destruct Hl as [Ha Hl].
    apply Forall_cons_inv in Hl. destruct Hl as [Hb _].
    destruct (sextets_of_bytes a b 0 Ha Hb is_byte_0) as (H1 & H2 & _ & _ & _ & H3).
    exists [b64_char (a / 4); b64_char (a mod 4 * 16 + b / 16);
            b64_char (b mod 16 * 4)], 1%nat.
    split; [reflexivity|]. split; [lia|].
    cbn [forallb]. rewrite !b64_char_class by assumption. reflexivity.
  - apply Forall_cons_inv in Hl. destruct Hl as [Ha Hl].
    apply Forall_cons_inv in Hl. destruct Hl as [Hb Hl].
    apply Forall_cons_inv in Hl. destruct Hl as [Hc Hl].
    destruct (sextets_of_bytes a b c Ha Hb Hc) as (H1 & H2 & H3 & H4 & _ & _).
    destruct (IH Hl) as (body & n & E & Hn & Hbody).
    exists (b64_char (a / 4) :: b64_char (a mod 4 * 16 + b / 16) ::
            b64_char (b mod 16 * 4 + c / 64) :: b64_char (c mod 64) :: body), n.
    split; [cbn [b64_encode app]; rewrite E; reflexivity|]. split; [exact Hn|].
    cbn [forallb]. rewrite !b64_char_class by assumption. exact Hbody.
Qed.

Lemma b64_encode_nonempty (l : list Z) : l <> [] -> b64_encode l <> [].
Proof.
  destruct l as [|a [|b [|c l]]]; [congruence | discriminate..].
Qed.

Lemma isBase64_b64_encode (l : list Z) :
  Forall is_byte l -> l <> [] -> isBase64 (b64_encode l) = true.
Proof.
  intros Hl Hne. apply isBase64_shape. split; [apply b64_encode_nonempty; exact Hne|].
  apply b64_encode_shape. exact Hl.
Qed.

(** The bytes a blob of [encrypt] is the text of. *)
Lemma encrypt_blob_bytes (sc : SubtleCrypto) (p s : jsstring) (w : World)
      (blob : jsstring) :
  fst (encrypt p s w) = Return blob ->
  exists salt iv encrypted : Uint8Array,
    salt = map (rng w) (seq 0 16) /\ iv = map (rng w) (seq 16 12) /\
    length salt = 16%nat /\ length iv = 12%nat /\
    blob = b64_encode (map Z_of_byte (salt ++ iv ++ encrypted)).
Proof.
  intros He. rewrite encrypt_run in He. cbv zeta in He.
  exists (map (rng w) (seq 0 16)), (map (rng w) (seq 16 12)).
  set (salt := map (rng w) (seq 0 16)) in *.
  set (iv := map (rng w) (seq 16 12)) in *.
  assert (Ls : length salt = 16%nat)
    by (unfold salt; rewrite length_map, length_seq; reflexivity).
  assert (Li : length iv = 12%nat)
    by (unfold iv; rewrite length_map, length_seq; reflexivity).
  clearbody salt iv.
  destruct (derive_key s salt) as [key|]; [|discriminate].
  destruct (subtle_encrypt _ key _) as [encrypted|]; [|discriminate].
  cbn [fst] in He. injection He as <-. exists encrypted. auto.
Qed.

(** X4. What [encryptPassword] stores, [decryptPassword] reads back. With
    a master secret [m] in force and [encrypt] succeeding,
    [encryptPassword p] returns a blob; the blob passes [isBase64], so
    [decryptPassword], wherever the same secret is in force, decrypts it,
    and for a well-formed [p] without leading U+FEFF the result is [p]. *)
Theorem password_wrappers_roundtrip (sc : SubtleCrypto) (p m : jsstring)
        (mp : option jsstring) (w : World) (blob : jsstring) :
  gcm_correct sc ->
  isWellFormed p = true ->
  no_leading_bom p = true ->
  resolved_master mp w = Some m ->
  fst (encrypt p m w) = Return blob ->
  fst (encryptPassword p mp w) = Return blob /\
  isBase64 blob = true /\
  forall mp2 w2,
    resolved_master mp2 w2 = Some m ->
    fst (decryptPassword blob mp2 w2) = Return p.
Proof.
  intros Hgcm Hwf Hbom Hm He.
  assert (Hdec : forall w2, fst (decrypt blob m w2) = Return p).
  { intros w2. rewrite (decrypt_encrypt p m w w2 blob Hgcm He).
    rewrite TextDecoder_TextEncoder by assumption. reflexivity. }
  assert (Hshape : isBase64 blob = true).
  { destruct (encrypt_blob_bytes sc p m w blob He)
      as (salt & iv & encrypted & _ & _ & Ls & _ & ->).
    apply isBase64_b64_encode; [apply Forall_is_byte_map|].
    destruct salt; [discriminate Ls | discriminate]. }
  split; [|split; [exact Hshape|]].
  - rewrite encryptPassword_run, Hm. unfold try_catch.
    destruct (encrypt p m w) as [[b|e] w']; cbn [fst] in *; congruence.
  - intros mp2 w2 Hm2. rewrite decryptPassword_run, Hshape, Hm2.
    unfold try_catch. specialize (Hdec w2).
    destruct (decrypt blob m w2) as [[r|e] w']; cbn [fst] in *; congruence.
Qed.

Lemma password_wrappers_roundtrip_witness :
  fst (encryptPassword (sc := sample_subtle) (js "pw") None sample_world)
  = Return sample_blob /\
  fst (decryptPassword (sc := sample_subtle) sample_blob None sample_world)
  = Return (js "pw").
Proof.
  destruct (password_wrappers_roundtrip sample_subtle (js "pw") (js "secret") None
              sample_world sample_blob sample_subtle_gcm_correct eq_refl eq_refl
              eq_refl ltac:(vm_compute; reflexivity)) as (H1 & _ & H2).
  split; [exact H1|]. apply H2. reflexivity.
Defined.

Lemma b64_encode_bytes_inj (a b : Uint8Array) :
  b64_encode (map Z_of_byte a) = b64_encode (map Z_of_byte b) -> a = b.
Proof.
  intros E. apply (f_equal atob) in E.
  rewrite !atob_b64_encode in E by apply Forall_is_byte_map.
  injection E as E. apply (f_equal (map byte_of_Z)) in E.
  rewrite !map_byte_of_Z_of_byte in E. exact E.
Qed.

(** X5. [encrypt] draws 28 fresh random bytes at each call (16 of salt, 12
    of IV), whether it succeeds or not, and the blob shows them: two blobs
    made from different salt or IV bytes are different texts, whatever the
    plaintexts and secrets. *)
Theorem fresh_nonce_fresh_blob (sc : SubtleCrypto) :
  (forall p1 s1 w1 b1 p2 s2 w2 b2,
      fst (encrypt p1 s1 w1) = Return b1 ->
      fst (encrypt p2 s2 w2) = Return b2 ->
      map (rng w1) (seq 0 28) <> map (rng w2) (seq 0 28) ->
      b1 <> b2) /\
  (forall p s w i, rng (snd (encrypt p s w)) i = rng w (28 + i)%nat).
Proof.
  split.
  - intros p1 s1 w1 b1 p2 s2 w2 b2 H1 H2 Hne Eb.
    destruct (encrypt_blob_bytes sc p1 s1 w1 b1 H1)
      as (salt1 & iv1 & e1 & Es1 & Ei1 & Ls1 & Li1 & ->).
    destruct (encrypt_blob_bytes sc p2 s2 w2 b2 H2)
      as (salt2 & iv2 & e2 & Es2 & Ei2 & Ls2 & Li2 & E2).
    rewrite E2 in Eb. apply b64_encode_bytes_inj in Eb.
    apply Hne.
    change (seq 0 28) with (seq 0 16 ++ seq 16 12). rewrite !map_app.
    rewrite <- Es1, <- Ei1, <- Es2, <- Ei2.
    assert (Cut : forall a b c : Uint8Array,
               length a = 16%nat -> length b = 12%nat ->
               firstn 28 (a ++ b ++ c) = a ++ b).
    { intros a b c La Lb. rewrite app_assoc.
      replace 28%nat with (length (a ++ b) + 0)%nat
        by (rewrite length_app; lia).
      rewrite firstn_app_2, firstn_O. apply app_nil_r. }
    apply (f_equal (firstn 28)) in Eb.
    rewrite !Cut in Eb by assumption. exact Eb.
  - intros p s w i. rewrite encrypt_run. cbv zeta.
    destruct (derive_key s _) as [key|]; [|reflexivity].
    destruct (subtle_encrypt _ key _); reflexivity.
Qed.

Lemma fresh_nonce_fresh_blob_witness :
  exists b1 b2,
    fst (encrypt (sc := sample_subtle) (js "pw") (js "secret") sample_world)
    = Return b1 /\
    fst (encrypt (sc := sample_subtle) (js "pw") (js "secret")
           (snd (encrypt (sc := sample_subtle) (js "pw") (js "secret") sample_world)))
    = Return b2 /\
    b1 <> b2.
Proof.
  exists (match fst (encrypt (sc := sample_subtle) (js "pw") (js "secret") sample_world)
          with Return b => b | Throw _ => [] end).
  exists (match fst (encrypt (sc := sample_subtle) (js "pw") (js "secret")
                       (snd (encrypt (sc := sample_subtle) (js "pw") (js "secret")
                                     sample_world)))
          with Return b => b | Throw _ => [] end).
  assert (H1 : fst (encrypt (sc := sample_subtle) (js "pw") (js "secret") sample_world)
               = Return (match fst (encrypt (sc := sample_subtle) (js "pw") (js "secret")
                                            sample_world)
                         with Return b => b | Throw _ => [] end))
    by (vm_compute; reflexivity).
  assert (H2 : fst (encrypt (sc := sample_subtle) (js "pw") (js "secret")
                      (snd (encrypt (sc := sample_subtle) (js "pw") (js "secret")
                                    sample_world)))
               = Return (match fst (encrypt (sc := sample_subtle) (js "pw") (js "secret")
                                      (snd (encrypt (sc := sample_subtle) (js "pw")
                                                    (js "secret") sample_world)))
                         with Return b => b | Throw _ => [] end))
    by (vm_compute; reflexivity).
  split; [exact H1|]. split; [exact H2|].
  apply (proj1 (fresh_nonce_fresh_blob sample_subtle) _ _ _ _ _ _ _ _ H1 H2).
  vm_compute. discriminate.
Defined.

Lemma strip_padding_keeps (x : Z) (s : jsstring) :
  In x s -> x <> 61 -> In x (strip_padding s).
Proof.
  intros Hin Hx. induction s as [|c s IH]; [contradiction|].
  destruct (Z.eqb_spec c 61) as [Ec|Ec].
  - destruct Hin as [->|Hin]; [contradiction|]. specialize (IH Hin).
    subst c. destruct s as [|d [|e s]]; [contradiction| |right; exact IH].
    destruct Hin as [Hd|[]]. subst d.
    change (strip_padding [61; x])
      with (if (61 =? 61) && (x =? 61) then [] else 61 :: strip_padding [x]).
    destruct (Z.eqb_spec x 61); [contradiction|].
    cbn [andb]. right. exact IH.
  - rewrite strip_padding_cons by exact Ec.
    destruct Hin as [->|Hin]; [left; reflexivity | right; apply IH; exact Hin].
Qed.

Lemma b64_values_bad (x : Z) (s : jsstring) :
  In x s -> b64_value x = None -> b64_values s = None.
Proof.
  intros Hin Hx. induction s as [|c s IH]; [contradiction|].
  cbn [b64_values]. destruct Hin as [->|Hin].
  - rewrite Hx. reflexivity.
  - rewrite (IH Hin). destruct (b64_value c); reflexivity.
Qed.

Lemma atob_bad_character (x : Z) (s : jsstring) :
  In x s -> b64_value x = None -> x <> 61 -> ascii_whitespace x = false ->
  atob s = None.
Proof.
  intros Hin Hv Hx Hws. unfold atob.
  set (d := filter (fun c => negb (ascii_whitespace c)) s).
  assert (Hd : In x d) by (apply filter_In; rewrite Hws; auto).
  set (d' := if Z.of_nat (length d) mod 4 =? 0 then strip_padding d else d).
  assert (Hd' : In x d').
  { unfold d'. destruct (Z.of_nat (length d) mod 4 =? 0);
      [apply strip_padding_keeps|]; assumption. }
  destruct (Z.of_nat (length d') mod 4 =? 1); [reflexivity|].
  rewrite (b64_values_bad x d' Hd' Hv). reflexivity.
Qed.

(** X6. A stored value that is not base64 text is refused before any key
    is derived: for every ciphertext with a character that is neither of
    the base64 alphabet, nor ['='], nor white space, [decrypt] raises,
    having only written its error to the console. Whatever goes wrong,
    [decrypt] raises the one error "decryption failed" and [encrypt] the
    one error "encryption failed": the errors of the platform do not
    reach the caller. *)
Theorem cipher_errors (sc : SubtleCrypto) :
  (forall ciphertext password w bad,
      In bad ciphertext -> b64_value bad = None -> bad <> 61 ->
      ascii_whitespace bad = false ->
      decrypt ciphertext password w =
      (Throw (Error "decryption failed: the password may be wrong"),
       logged LError "decryption failed" w)) /\
  (forall ciphertext password w e,
      fst (decrypt ciphertext password w) = Throw e ->
      e = Error "decryption failed: the password may be wrong") /\
  (forall plaintext password w e,
      fst (encrypt plaintext password w) = Throw e ->
      e = Error "encryption failed").
Proof.
  split; [|split].
  - intros ciphertext password w bad Hin Hv Hx Hws.
    rewrite decrypt_run, (atob_bad_character bad ciphertext Hin Hv Hx Hws).
    reflexivity.
  - intros ciphertext password w e. rewrite decrypt_run.
    destruct (atob ciphertext) as [binary|]; cbv zeta.
    + rewrite decrypt_parts_run.
      destruct (derive_key password _) as [key|]; [|intros [= <-]; reflexivity].
      destruct (subtle_decrypt _ key _); [discriminate | intros [= <-]; reflexivity].
    + intros [= <-]. reflexivity.
  - intros plaintext password w e. rewrite encrypt_run. cbv zeta.
    destruct (derive_key password _) as [key|]; [|intros [= <-]; reflexivity].
    destruct (subtle_encrypt _ key _); [discriminate | intros [= <-]; reflexivity].
Qed.

Lemma cipher_errors_witness :
  observe (decrypt (sc := sample_subtle) (js "not a blob!") (js "secret") sample_world) =
  (Throw (Error "decryption failed: the password may be wrong"),
   [(LError, "decryption failed"%string)]).
Proof.
  rewrite (proj1 (cipher_errors sample_subtle) (js "not a blob!") (js "secret")
             sample_world 33); [reflexivity| |reflexivity|discriminate|reflexivity].
  cbn. tauto.
Defined.

(* ================================================================= *)
(** * Further properties of the matcher *)

Section MatcherWorld.
Context {up : URLParser}.

(** The loop only writes to the console. *)
Lemma matchEnvironment_loop_world (norm : jsstring) (envs : list Environment)
      (w : World) :
  same_store w (snd (matchEnvironment_loop norm envs w)).
Proof.
  revert w. induction envs as [|env rest IH]; intros w; [split; reflexivity|].
  cbn [matchEnvironment_loop].
  destruct (loginUrl env) as [[|c u]|]; try apply IH.
  unfold bind at 1. unfold try_catch at 1. unfold bind at 1.
  unfold new_URL, builtin.
  destruct (URL_parse (c :: u)) as [envUrl|]; cbn [ret throw].
  - destruct (str_eqb norm _); [split; reflexivity|].
    destruct (endsWith _ (js "/*")); [|apply IH].
    destruct (startsWith norm _); [split; reflexivity | apply IH].
  - unfold bind at 1. unfold console_debug, console_write. cbn [ret].
    destruct (IH (logged LDebug "environment URL failed to parse" w)) as [H1 H2].
    split; [rewrite H1 | rewrite H2]; reflexivity.
Qed.

Lemma matchEnvironment_world (cand : jsstring) (w : World) :
  same_store w (snd (matchEnvironment cand w)).
Proof.
  destruct cand as [|c cand]; [split; reflexivity|].
  unfold matchEnvironment. cbn [js_truthy negb].
  unfold try_catch at 1. unfold bind at 1. unfold storage_local_get.
  destruct (local w) as [area|] eqn:Hl; [|split; reflexivity].
  unfold bind at 1. unfold try_catch at 1. unfold bind at 1.
  unfold new_URL, builtin.
  destruct (URL_parse (c :: cand)) as [url|]; cbn [ret throw].
  - pose proof (matchEnvironment_loop_world
                  (replace_trailing_slash
                     (protocol url ++ js "//" ++ host url ++ pathname url))
                  (match environments area with Some l => l | None => [] end) w) as H.
    pose proof (matchEnvironment_loop_result
                  (replace_trailing_slash
                     (protocol url ++ js "//" ++ host url ++ pathname url))
                  (match environments area with Some l => l | None => [] end) w) as R.
    destruct (matchEnvironment_loop _ _ w) as [[r|e] w']; cbn [fst snd] in *;
      [|discriminate].
    exact H.
  - unfold bind at 1. unfold console_debug, console_write.
    change (ret (c :: cand) ?x) with (Return (c :: cand), x). cbv beta iota.
    pose proof (matchEnvironment_loop_world (c :: cand)
                  (match environments area with Some l => l | None => [] end)
                  (logged LDebug "URL normalization failed, the original URL is used" w))
      as H.
    pose proof (matchEnvironment_loop_result (c :: cand)
                  (match environments area with Some l => l | None => [] end)
                  (logged LDebug "URL normalization failed, the original URL is used" w))
      as R.
    destruct (matchEnvironment_loop _ _ _) as [[r|e] w']; cbn [fst snd] in *;
      [|discriminate].
    exact H.
Qed.

Lemma matchEnvironment_no_storage (cand : jsstring) (w : World) :
  cand <> [] -> local w = None ->
  matchEnvironment cand w =
  (Return None, logged LError "environment matching failed" w).
Proof.
  intros Hc Hl. destruct cand as [|c cand]; [congruence|].
  unfold matchEnvironment. cbn [js_truthy negb].
  unfold try_catch at 1. unfold bind at 1. unfold storage_local_get.
  rewrite Hl. reflexivity.
Qed.

End MatcherWorld.

(** X7. [matchEnvironment] is a lookup: it leaves storage and the random
    source as they were, and an environment it returns is one of those
    stored, with a non-empty [loginUrl] that parses. With storage that
    cannot be read it answers not-found and writes one error to the
    console; with no environments stored it answers not-found. *)
Theorem matchEnvironment_is_a_lookup (up : URLParser) (cand : jsstring) (w : World) :
  local (snd (matchEnvironment cand w)) = local w /\
  rng (snd (matchEnvironment cand w)) = rng w /\
  (forall env,
      fst (matchEnvironment cand w) = Return (Some env) ->
      exists area envs l u,
        local w = Some area /\ environments area = Some envs /\ In env envs /\
        loginUrl env = Some l /\ l <> [] /\ URL_parse l = Some u) /\
  (cand <> [] -> local w = None ->
   matchEnvironment cand w =
   (Return None, logged LError "environment matching failed" w)) /\
  (forall area,
      local w = Some area ->
      environments area = None \/ environments area = Some [] ->
      fst (matchEnvironment cand w) = Return None).
Proof.
  split; [apply matchEnvironment_world|]. split; [apply matchEnvironment_world|].
  split; [|split; [apply matchEnvironment_no_storage|]].
  - intros env Hr.
    destruct cand as [|c cand]; [discriminate|].
    destruct (local w) as [area|] eqn:Hl.
    + rewrite (matchEnvironment_result (c :: cand) w area) in Hr
        by (discriminate || exact Hl).
      injection Hr as Hr. apply find_some in Hr. destruct Hr as [Hin Hm].
      destruct (environments area) as [envs|] eqn:Ee; [|contradiction].
      unfold spec_env_matches in Hm.
      destruct (loginUrl env) as [[|c' l]|] eqn:Hu; try discriminate.
      destruct (URL_parse (c' :: l)) as [u|] eqn:Hp; [|discriminate].
      exists area, envs, (c' :: l), u.
      repeat split; try assumption; try reflexivity. discriminate.
    + rewrite matchEnvironment_no_storage in Hr by (discriminate || exact Hl).
      discriminate.
  - intros area Hl He.
    destruct cand as [|c cand]; [reflexivity|].
    rewrite (matchEnvironment_result (c :: cand) w area) by (discriminate || exact Hl).
    destruct He as [-> | ->]; reflexivity.
Qed.

Lemma matchEnvironment_is_a_lookup_witness :
  matchEnvironment (up := plain_URL) (js "https://a.com/login")
    {| rng := sample_rng; console := []; local := None |}
  = (Return None,
     logged LError "environment matching failed"
            {| rng := sample_rng; console := []; local := None |}).
Proof.
  destruct (matchEnvironment_is_a_lookup plain_URL (js "https://a.com/login")
              {| rng := sample_rng; console := []; local := None |})
    as (_ & _ & _ & H & _).
  apply H; [discriminate | reflexivity].
Defined.

(** X8. There is no "contains" matching. When the environment returned has
    a normalized [loginUrl] that does not end with ["/*"], the normalized
    candidate is that very text. So an environment registered for the bare
    ["https://a.com"] does not match the page
    ["https://a.com/dashboard"]. *)
Theorem no_contains_match (up : URLParser) :
  (forall cand w env l u,
      fst (matchEnvironment cand w) = Return (Some env) ->
      loginUrl env = Some l -> URL_parse l = Some u ->
      endsWith (spec_normalize u) (js "/*") = false ->
      spec_candidate cand = spec_normalize u) /\
  (forall w area,
      local w = Some area ->
      environments area = Some [env_of "a" "https://a.com"] ->
      parses up "https://a.com" "https:" "a.com" "/" ->
      parses up "https://a.com/dashboard" "https:" "a.com" "/dashboard" ->
      fst (matchEnvironment (js "https://a.com/dashboard") w) = Return None).
Proof.
  split.
  - intros cand w env l u Hr Hl Hu Hend.
    destruct cand as [|c cand]; [discriminate|].
    destruct (local w) as [area|] eqn:Hw.
    + rewrite (matchEnvironment_result (c :: cand) w area) in Hr
        by (discriminate || exact Hw).
      injection Hr as Hr. apply find_some in Hr. destruct Hr as [_ Hm].
      assert (Hne : l <> []).
      { intros ->. unfold spec_env_matches in Hm. rewrite Hl in Hm. discriminate. }
      rewrite (spec_env_matches_parsed _ env l u Hl Hne Hu) in Hm.
      unfold spec_wildcard in Hm. rewrite Hend in Hm. cbn [andb] in Hm.
      rewrite orb_false_r in Hm. apply str_eqb_eq in Hm. exact Hm.
    + rewrite matchEnvironment_no_storage in Hr by (discriminate || exact Hw).
      discriminate.
  - intros w area Hw He (ue & Hue & Pe & He' & Pathe) (uc & Huc & Pc & Hc & Pathc).
    rewrite (matchEnvironment_result _ w area) by (discriminate || exact Hw).
    rewrite He. cbn [find].
    rewrite (spec_env_matches_parsed _ (env_of "a" "https://a.com")
               (js "https://a.com") ue eq_refl ltac:(discriminate) Hue).
    unfold spec_candidate. rewrite Huc.
    rewrite (spec_normalize_fields ue _ _ _ Pe He' Pathe).
    rewrite (spec_normalize_fields uc _ _ _ Pc Hc Pathc).
    reflexivity.
Qed.

Lemma no_contains_match_witness :
  fst (matchEnvironment (up := plain_URL) (js "https://a.com/dashboard")
         (world_with None [env_of "a" "https://a.com"]))
  = Return None.
Proof.
  apply (proj2 (no_contains_match plain_URL)
           (world_with None [env_of "a" "https://a.com"])
           {| masterPassword := None;
              environments := Some [env_of "a" "https://a.com"] |});
    try reflexivity;
    (eexists; split; [vm_compute; reflexivity | repeat split; reflexivity]).
Defined.

(* ================================================================= *)
(** * The popup and the background page *)

Lemma lang_forallb (P : Z -> bool) (r : regex) (s : jsstring) :
  classes_within P r -> lang r s -> forallb P s = true.
Proof.
  intros Hc Hl. induction Hl as [|p c Hp|r1 r2 s1 s2 _ IH1 _ IH2|r1 r2 s _ IH
                                 |r1 r2 s _ IH| |r s1 s2 _ IH1 _ IH2];
    cbn [classes_within] in Hc.
  - reflexivity.
  - cbn [forallb]. rewrite (Hc c Hp). reflexivity.
  - rewrite forallb_app, IH1, IH2 by tauto. reflexivity.
  - apply IH. tauto.
  - apply IH. tauto.
  - reflexivity.
  - rewrite forallb_app, IH1, IH2 by assumption. reflexivity.
Qed.

Lemma lang_Plus_inv (r : regex) (s : jsstring) :
  lang (Plus r) s -> exists s1 s2, s = s1 ++ s2 /\ lang r s1 /\ lang (Star r) s2.
Proof. apply lang_Seq_inv. Qed.

Lemma lang_Plus_Class (p : Z -> bool) (s : jsstring) :
  lang (Plus (Class p)) s <-> s <> [] /\ forallb p s = true.
Proof.
  split.
  - intros H. apply lang_Plus_inv in H. destruct H as (s1 & s2 & -> & H1 & H2).
    apply lang_Class_inv in H1. destruct H1 as (c & -> & Hc).
    apply lang_Star_Class in H2. split; [discriminate|].
    cbn [app forallb]. rewrite Hc, H2. reflexivity.
  - intros [Hne H]. destruct s as [|c s]; [congruence|].
    cbn [forallb] in H. apply andb_true_iff in H. destruct H as [Hc Hs].
    change (c :: s) with ([c] ++ s).
    constructor; [constructor; exact Hc | apply lang_Star_Class; exact Hs].
Qed.

Lemma last_two (l : list Z) :
  (2 <= length l)%nat -> exists pre a b, l = pre ++ [a; b].
Proof.
  intros H. destruct (exists_last (l := l)) as (l1 & b & ->).
  { intros ->. simpl in H. lia. }
  rewrite length_app in H. simpl in H.
  destruct (exists_last (l := l1)) as (pre & a & ->).
  { intros ->. simpl in H. lia. }
  exists pre, a, b. rewrite <- app_assoc. reflexivity.
Qed.

Lemma domainRegex_classes : classes_within domain_char domainRegex.
Proof.
  assert (A : forall c, alphanumeric c = true -> domain_char c = true)
    by (intros c H; unfold domain_char; rewrite H; reflexivity).
  assert (L : forall c, letter c = true -> domain_char c = true).
  { intros c H. apply A. unfold letter in H. unfold alphanumeric.
    apply orb_true_iff in H. destruct H as [H|H]; rewrite H;
      rewrite ?orb_true_r; reflexivity. }
  assert (H45 : forall c, (45 =? c) = true -> domain_char c = true).
  { intros c H. apply Z.eqb_eq in H. subst. reflexivity. }
  assert (H46 : forall c, (46 =? c) = true -> domain_char c = true).
  { intros c H. apply Z.eqb_eq in H. subst. reflexivity. }
  cbn. tauto.
Qed.

(** X9. [validateDomain] accepts only what is written with letters,
    digits, ['-'] and ['.'], begins with a letter or digit, has a dot, ends
    with two letters and is at least four characters long; so the empty
    string and anything with a scheme, a slash or a port are refused. It
    accepts every [label.tld] with an alphanumeric label and a top-level
    name of at least two letters, and a valid domain stays valid with one
    more such label in front. *)
Theorem validateDomain_shape :
  (forall d,
      validateDomain d = true ->
      forallb domain_char d = true /\ (4 <= length d)%nat /\ In 46 d /\
      (exists c rest, d = c :: rest /\ alphanumeric c = true) /\
      (exists pre a b, d = pre ++ [a; b] /\ letter a = true /\ letter b = true)) /\
  (forall label tld,
      label <> [] -> forallb alphanumeric label = true ->
      (2 <= length tld)%nat -> forallb letter tld = true ->
      validateDomain (label ++ [46] ++ tld) = true) /\
  (forall label d,
      label <> [] -> forallb alphanumeric label = true ->
      validateDomain d = true ->
      validateDomain (label ++ [46] ++ d) = true).
Proof.
  assert (Label : forall label,
             label <> [] -> forallb alphanumeric label = true ->
             lang (Seq domainLabel (Lit 46)) (label ++ [46])).
  { intros label Hne Ha. constructor; [|apply lang_Lit; reflexivity].
    unfold domainLabel. rewrite <- (app_nil_r label).
    constructor; [apply lang_Plus_Class; auto | constructor]. }
  split; [|split].
  - intros d H. unfold validateDomain in H. apply regex_test_lang in H.
    pose proof (lang_forallb domain_char domainRegex d domainRegex_classes H) as Hchars.
    split; [exact Hchars|].
    unfold domainRegex in H. apply lang_Seq_inv in H.
    destruct H as (s1 & s2 & -> & H1 & H2).
    apply lang_Plus_inv in H1. destruct H1 as (t1 & t2 & -> & Ht1 & _).
    apply lang_Seq_inv in Ht1. destruct Ht1 as (u1 & dot & -> & Hu1 & Hdot).
    apply lang_Lit in Hdot. subst dot.
    unfold domainLabel in Hu1. apply lang_Seq_inv in Hu1.
    destruct Hu1 as (v1 & v2 & -> & Hv1 & _).
    apply lang_Plus_Class in Hv1. destruct Hv1 as [Hne Hv1].
    destruct v1 as [|c v1]; [congruence|].
    cbn [forallb] in Hv1. apply andb_true_iff in Hv1. destruct Hv1 as [Hc _].
    unfold AtLeast2 in H2. apply lang_Seq_inv in H2.
    destruct H2 as (a1 & r2 & -> & Ha1 & H2).
    apply lang_Seq_inv in H2. destruct H2 as (a2 & z & -> & Ha2 & Hz).
    apply lang_Class_inv in Ha1. destruct Ha1 as (a & -> & Ha).
    apply lang_Class_inv in Ha2. destruct Ha2 as (b & -> & Hb).
    apply lang_Star_Class in Hz.
    split; [rewrite !length_app; cbn [length]; lia|].
    split; [rewrite !in_app_iff; cbn; tauto|].
    split; [eexists; eexists; split; [reflexivity | exact Hc]|].
    destruct (last_two ([a] ++ [b] ++ z)) as (pre & x & y & E).
    { rewrite !length_app. cbn [length]. lia. }
    assert (Hall : forallb letter ([a] ++ [b] ++ z) = true)
      by (cbn [app forallb]; rewrite Ha, Hb, Hz; reflexivity).
    rewrite E in *. rewrite forallb_app in Hall.
    apply andb_true_iff in Hall. destruct Hall as [_ Hxy].
    cbn [forallb] in Hxy. rewrite andb_true_r in Hxy.
    apply andb_true_iff in Hxy. destruct Hxy as [Hx Hy].
    eexists; exists x, y. split; [|split; assumption].
    rewrite app_assoc. reflexivity.
  - intros label tld Hne Ha Hlen Htld.
    unfold validateDomain. apply regex_test_lang. unfold domainRegex.
    rewrite app_assoc. constructor.
    + rewrite <- (app_nil_r (label ++ [46])).
      constructor; [apply Label; assumption | constructor].
    + destruct tld as [|a [|b z]]; cbn [length] in Hlen; try lia.
      cbn [forallb] in Htld. apply andb_true_iff in Htld. destruct Htld as [Ha' Htld].
      apply andb_true_iff in Htld. destruct Htld as [Hb Hz].
      change (a :: b :: z) with ([a] ++ [b] ++ z). unfold AtLeast2.
      constructor; [constructor; exact Ha'|].
      constructor; [constructor; exact Hb | apply lang_Star_Class; exact Hz].
  - intros label d Hne Ha H.
    unfold validateDomain in *. apply regex_test_lang in H. apply regex_test_lang.
    unfold domainRegex in *. apply lang_Seq_inv in H.
    destruct H as (s1 & s2 & -> & H1 & H2).
    apply lang_Plus_inv in H1. destruct H1 as (t1 & t2 & -> & Ht1 & Ht2).
    replace (label ++ [46] ++ (t1 ++ t2) ++ s2)
      with (((label ++ [46]) ++ (t1 ++ t2)) ++ s2)
      by (rewrite <- !app_assoc; reflexivity).
    constructor; [|exact H2].
    constructor; [apply Label; assumption|].
    constructor; assumption.
Qed.

Lemma validateDomain_shape_witness :
  validateDomain (js "intranet.example.com") = true /\
  forallb domain_char (js "intranet.example.com") = true.
Proof.
  destruct validateDomain_shape as (Hsound & _ & Hmore).
  assert (H : validateDomain (js "intranet.example.com") = true).
  { apply (Hmore (js "intranet") (js "example.com")); [discriminate|reflexivity..]. }
  split; [exact H|]. apply Hsound. exact H.
Defined.

Section BackgroundRuns.
Context {up : URLParser}.

Lemma bg_loop_result (norm : jsstring) (envs : list Environment) (w : World) :
  fst (Background.matchEnvironment_loop norm envs w)
  = Return (find (spec_env_matches norm) envs).
Proof.
  revert w. induction envs as [|env rest IH]; intros w; [reflexivity|].
  cbn [Background.matchEnvironment_loop find]. unfold spec_env_matches at 1.
  destruct (loginUrl env) as [[|c u]|]; try apply IH.
  unfold bind at 1. unfold try_catch at 1. unfold bind at 1.
  unfold new_URL, builtin.
  destruct (URL_parse (c :: u)) as [envUrl|]; [|apply IH].
  cbn [ret]. fold (spec_normalize envUrl).
  unfold spec_exact, spec_wildcard.
  destruct (str_eqb norm (spec_normalize envUrl)); [reflexivity|].
  cbn [orb].
  change (-2) with (- Z.of_nat 2). rewrite slice_drop_last by lia.
  destruct (endsWith (spec_normalize envUrl) (js "/*")); [|apply IH].
  cbn [andb].
  destruct (startsWith norm _); [reflexivity | apply IH].
Qed.

Lemma bg_loop_world (norm : jsstring) (envs : list Environment) (w : World) :
  same_store w (snd (Background.matchEnvironment_loop norm envs w)).
Proof.
  revert w. induction envs as [|env rest IH]; intros w; [split; reflexivity|].
  cbn [Background.matchEnvironment_loop].
  destruct (loginUrl env) as [[|c u]|]; try apply IH.
  unfold bind at 1. unfold try_catch at 1. unfold bind at 1.
  unfold new_URL, builtin.
  destruct (URL_parse (c :: u)) as [envUrl|]; cbn [ret throw].
  - destruct (str_eqb norm _); [split; reflexivity|].
    destruct (endsWith _ (js "/*")); [|apply IH].
    destruct (startsWith norm _); [split; reflexivity | apply IH].
  - unfold bind at 1. unfold console_debug, console_write. cbn [ret].
    destruct (IH (logged LDebug "environment URL failed to parse" w)) as [H1 H2].
    split; [rewrite H1 | rewrite H2]; reflexivity.
Qed.

Lemma bg_loop_run (norm : jsstring) (envs : list Environment) (w : World) :
  fst (Background.matchEnvironment_loop norm envs w)
  = Return (find (spec_env_matches norm) envs) /\
  same_store w (snd (Background.matchEnvironment_loop norm envs w)).
Proof. split; [apply bg_loop_result | apply bg_loop_world]. Qed.

Lemma bg_matchEnvironment_run (cand : jsstring) (w : World) :
  exists r w',
    Background.matchEnvironment cand w = (Return r, w') /\ same_store w w' /\
    (forall area,
        cand <> [] -> local w = Some area ->
        r = find (spec_env_matches (spec_candidate cand))
                 (match environments area with Some l => l | None => [] end)) /\
    (local w = None -> r = None).
Proof.
  destruct cand as [|c cand].
  { exists None, w. repeat split; try reflexivity. congruence. }
  unfold Background.matchEnvironment. cbn [js_truthy negb].
  unfold try_catch at 1. unfold bind at 1. unfold storage_local_get.
  destruct (local w) as [area|] eqn:Hl.
  - unfold bind at 1. unfold try_catch at 1. unfold bind at 1.
    unfold new_URL, builtin, spec_candidate.
    destruct (URL_parse (c :: cand)) as [url|]; cbn [ret throw].
    + fold (spec_normalize url).
      destruct (bg_loop_run (spec_normalize url)
                  (match environments area with Some l => l | None => [] end) w)
        as [R S].
      destruct (Background.matchEnvironment_loop _ _ w) as [[r|e] w'];
        cbn [fst snd] in *; [|discriminate].
      exists r, w'. split; [reflexivity|]. split; [exact S|].
      split; [|discriminate]. intros area' _ [= <-]. congruence.
    + unfold bind at 1. unfold console_debug, console_write.
      change (ret (c :: cand) ?x) with (Return (c :: cand), x). cbv beta iota.
      destruct (bg_loop_run (c :: cand)
                  (match environments area with Some l => l | None => [] end)
                  (logged LDebug "URL normalization failed, the original URL is used" w))
        as [R S].
      destruct (Background.matchEnvironment_loop _ _ _) as [[r|e] w'];
        cbn [fst snd] in *; [|discriminate].
      exists r, w'. split; [reflexivity|]. split; [exact S|].
      split; [|discriminate]. intros area' _ [= <-]. congruence.
  - eexists; eexists. split; [reflexivity|]. split; [split; reflexivity|].
    split; [discriminate | reflexivity].
Qed.

End BackgroundRuns.

(** X10. The background page has its own copy of [matchEnvironment]. For
    every URL and every world it answers as the copy of the content script
    does, the same environment or not-found, and it too only reads
    storage. *)
Theorem matchEnvironment_copies_agree (up : URLParser) (u : jsstring) (w : World) :
  fst (Background.matchEnvironment u w) = fst (matchEnvironment u w) /\
  same_store w (snd (Background.matchEnvironment u w)).
Proof.
  destruct (bg_matchEnvironment_run u w) as (r & w' & E & S & Hr & Hn).
  rewrite E. cbn [fst snd]. split; [|exact S].
  destruct u as [|c u]; [inversion E; reflexivity|].
  destruct (local w) as [area|] eqn:Hl.
  - rewrite (matchEnvironment_result (c :: u) w area) by (discriminate || exact Hl).
    rewrite (Hr area) by (discriminate || reflexivity). reflexivity.
  - rewrite matchEnvironment_no_storage by (discriminate || exact Hl).
    rewrite Hn by reflexivity. reflexivity.
Qed.

(** X11. The tab listener of the background page does not raise and only
    reads storage. It sends a message only when the tab has finished
    loading a URL that begins with ["http"] and an environment matches that
    URL; the message then goes to that tab and carries the id and the name
    of the environment [matchEnvironment] returned. Whether the message is
    delivered or not makes no difference to the result. *)
Theorem tab_listener (up : URLParser) (send : Z -> Background.SwitchEnv -> option jsstring)
        (tabId : Z) (status : option jsstring) (tab : Background.Tab) (w : World) :
  exists sent,
    fst (Background.tabs_onUpdated send tabId status tab w) = Return sent /\
    same_store w (snd (Background.tabs_onUpdated send tabId status tab w)) /\
    (forall m,
        sent = Some m ->
        exists u env,
          status = Some (js "complete") /\ Background.url tab = Some u /\
          startsWith u (js "http") = true /\
          fst (Background.matchEnvironment u w) = Return (Some env) /\
          m = (tabId, {| Background.action := js "switchEnv";
                         Background.envId := id env;
                         Background.envName := name env |})) /\
    (forall u env,
        status = Some (js "complete") -> Background.url tab = Some u ->
        startsWith u (js "http") = true ->
        fst (Background.matchEnvironment u w) = Return (Some env) ->
        sent = Some (tabId, {| Background.action := js "switchEnv";
                               Background.envId := id env;
                               Background.envName := name env |})).
Proof.
  unfold Background.tabs_onUpdated.
  destruct status as [st|].
  2: { exists None. split; [reflexivity|]. split; [split; reflexivity|].
       split; [discriminate|]. intros; discriminate. }
  destruct (Background.url tab) as [[|c u]|] eqn:Hu.
  1,3: exists None; (split; [reflexivity|]); (split; [split; reflexivity|]);
       (split; [discriminate|]); intros u' env _ E; inversion E; subst u';
       discriminate.
  destruct (str_eqb st (js "complete")) eqn:Est; cbn [negb].
  2: { exists None. split; [reflexivity|]. split; [split; reflexivity|].
       split; [discriminate|]. intros u' env [= ->]. rewrite str_eqb_refl in Est.
       discriminate. }
  apply str_eqb_eq in Est. subst st.
  destruct (startsWith (c :: u) (js "http")) eqn:Eh; cbn [negb].
  2: { exists None. split; [reflexivity|]. split; [split; reflexivity|].
       split; [discriminate|]. intros u' env _ [= <-]. congruence. }
  cbn [js_truthy negb orb]. unfold try_catch, bind.
  destruct (bg_matchEnvironment_run (c :: u) w) as (r & w' & E & S & _).
  rewrite E.
  destruct r as [env|].
  - destruct S as [S1 S2].
    destruct (send tabId _) as [m|]; [destruct (negb (str_eqb m _))|];
      unfold console_debug, console_write; cbn [ret fst snd];
      (eexists; split; [reflexivity|]; split; [split; [exact S1 | exact S2]|];
       split;
       [intros m' Hm; injection Hm as <-; exists (c :: u), env;
        repeat split; try reflexivity; [exact Eh | rewrite E; reflexivity]
       |intros u0 env0 _ Hu0 _ He; injection Hu0 as <-; rewrite E in He;
        injection He as <-; reflexivity]).
  - cbn [ret fst snd]. exists None. split; [reflexivity|]. split; [exact S|].
    split; [discriminate|]. intros u' env' _ Hu0 _ H. injection Hu0 as <-.
    rewrite E in H. discriminate.
Qed.

Lemma tab_listener_witness :
  fst (Background.tabs_onUpdated (up := plain_URL) (fun _ _ => None) 7
         (Some (js "complete"))
         {| Background.url := Some (js "https://a.com/login?next=1") |}
         (world_with None [env_of "e1" "https://b.com/"; env_of "e2" "https://a.com/login"]))
  = Return (Some (7, {| Background.action := js "switchEnv";
                        Background.envId := js "e2";
                        Background.envName := js "e2" |})).
Proof.
  destruct (tab_listener plain_URL (fun _ _ => None) 7 (Some (js "complete"))
              {| Background.url := Some (js "https://a.com/login?next=1") |}
              (world_with None [env_of "e1" "https://b.com/";
                                env_of "e2" "https://a.com/login"]))
    as (sent & E & _ & _ & H).
  rewrite E. f_equal.
  apply (H (js "https://a.com/login?next=1") (env_of "e2" "https://a.com/login"));
    reflexivity.
Defined.

(** * The panel follows the page URL *)

Section PanelRuns.
Context {up : URLParser}.
Context (loadPosition : M unit).
Context (loadAccounts : option jsstring -> M unit).

Lemma http_is_truthy (href : jsstring) :
  startsWith href (js "http") = true -> js_truthy (Some href) = true.
Proof. destruct href; [discriminate | reflexivity]. Qed.

Lemma set_lastCheckedUrl_same (href : jsstring) (this : FloatingPanel) :
  lastCheckedUrl this = Some href -> set_lastCheckedUrl href this = this.
Proof. destruct this; cbn. intros ->. reflexivity. Qed.

Lemma strict_eq_true (a : jsstring) (b : option jsstring) :
  strict_eq a b = true -> b = Some a.
Proof.
  destruct b as [b|]; [|discriminate]. cbn. intros H.
  apply str_eqb_eq in H. congruence.
Qed.

Lemma checkDomainMatch_skip (href : jsstring) (this : FloatingPanel) (w : World) :
  startsWith href (js "http") = true -> lastCheckedUrl this = Some href ->
  checkDomainMatch loadPosition loadAccounts href this w = (Return this, w).
Proof.
  intros Hh Hl. unfold checkDomainMatch.
  rewrite (http_is_truthy href Hh), Hh. cbn [negb orb].
  rewrite Hl. cbn [strict_eq]. rewrite str_eqb_refl. reflexivity.
Qed.

Lemma hidePanel_run (this : FloatingPanel) (w : World) :
  (forall w0, fst (loadPosition w0) = Return tt) ->
  exists this1,
    fst (hidePanel loadPosition this w) = Return this1 /\
    lastCheckedUrl this1 = lastCheckedUrl this /\
    currentEnvId this1 = currentEnvId this /\
    (panel this <> None -> panel this1 = Some (js "none") /\ isCollapsed this1 = false) /\
    (isCollapsed this = false -> snd (hidePanel loadPosition this w) = w).
Proof.
  intros Hp. unfold hidePanel.
  destruct (panel this) as [d|] eqn:Ed.
  - destruct (isCollapsed this) eqn:Ec.
    + unfold expandFromCircle. rewrite Ed. unfold bind.
      specialize (Hp w). destruct (loadPosition w) as [[[]|e] w1];
        cbn [fst] in Hp; [|discriminate].
      cbn [ret fst snd]. eexists. split; [reflexivity|].
      unfold set_display. cbn. rewrite ?Ed. repeat split. discriminate.
    + cbn [bind ret fst snd]. eexists. split; [reflexivity|].
      unfold set_display. cbn. rewrite ?Ed. repeat split; auto.
  - eexists. split; [reflexivity|]. repeat split; congruence.
Qed.

End PanelRuns.

(** X12. The URL check is skipped when the page URL is the one recorded
    last. For a URL beginning with ["http"]: [checkDomainMatch] returns at
    once, with the panel, the console and storage as they were, when
    [lastCheckedUrl] already holds the URL; the one-second poll of
    [setupUrlChangeListener] records the URL before it calls
    [checkDomainMatch], so all it ever does is record the URL:
    [matchEnvironment] is not run, and the panel and the current
    environment stay as they were; and a check called after the poll, at
    the same URL, does nothing either. *)
Theorem poll_only_records_url (up : URLParser) (loadPosition : M unit)
        (loadAccounts : option jsstring -> M unit)
        (href : jsstring) (this : FloatingPanel) (w : World) :
  startsWith href (js "http") = true ->
  (lastCheckedUrl this = Some href ->
   checkDomainMatch loadPosition loadAccounts href this w = (Return this, w)) /\
  urlCheckInterval_tick loadPosition loadAccounts href this w
  = (Return (set_lastCheckedUrl href this), w) /\
  (forall w', checkDomainMatch loadPosition loadAccounts href
                (set_lastCheckedUrl href this) w'
              = (Return (set_lastCheckedUrl href this), w')).
Proof.
  intros Hh. split; [apply checkDomainMatch_skip; exact Hh|]. split.
  - unfold urlCheckInterval_tick.
    destruct (strict_eq href (lastCheckedUrl this)) eqn:E; cbn [negb].
    + apply strict_eq_true in E. rewrite set_lastCheckedUrl_same by exact E.
      reflexivity.
    + apply checkDomainMatch_skip; [exact Hh | reflexivity].
  - intros w'. apply checkDomainMatch_skip; [exact Hh | reflexivity].
Qed.

Lemma poll_only_records_url_witness :
  urlCheckInterval_tick (up := plain_URL) (ret tt) (fun _ => ret tt)
    (js "https://a.com/login")
    {| panel := Some (js "none"); isCollapsed := false;
       lastCheckedUrl := Some (js "https://a.com/home"); currentEnvId := None |}
    (world_with None [env_of "e1" "https://a.com/login"])
  = (Return {| panel := Some (js "none"); isCollapsed := false;
               lastCheckedUrl := Some (js "https://a.com/login");
               currentEnvId := None |},
     world_with None [env_of "e1" "https://a.com/login"]).
Proof.
  apply (poll_only_records_url plain_URL (ret tt) (fun _ => ret tt)
           (js "https://a.com/login")
           {| panel := Some (js "none"); isCollapsed := false;
              lastCheckedUrl := Some (js "https://a.com/home"); currentEnvId := None |}
           (world_with None [env_of "e1" "https://a.com/login"])).
  reflexivity.
Defined.

(** X13. [checkDomainMatch] at a URL beginning with ["http"] that is not
    the one recorded last, with [loadPosition] returning: the check
    returns and records the URL. When [matchEnvironment] finds an
    environment for the URL, that environment becomes the current one and
    the panel is not hidden (a hidden panel is shown again, a collapsed one
    stays collapsed). When it finds none, the current environment is kept,
    and the panel, if there is one, is hidden and no longer collapsed. *)
Theorem url_check_shows_or_hides (up : URLParser) (loadPosition : M unit)
        (loadAccounts : option jsstring -> M unit)
        (href : jsstring) (this : FloatingPanel) (w : World) :
  startsWith href (js "http") = true ->
  strict_eq href (lastCheckedUrl this) = false ->
  (forall w0, fst (loadPosition w0) = Return tt) ->
  exists this1,
    fst (checkDomainMatch loadPosition loadAccounts href this w) = Return this1 /\
    lastCheckedUrl this1 = Some href /\
    match fst (matchEnvironment href w) with
    | Return (Some env) =>
        currentEnvId this1 = Some (id env) /\
        panel this1 <> Some (js "none") /\
        isCollapsed this1 = isCollapsed this
    | _ =>
        currentEnvId this1 = currentEnvId this /\
        (panel this <> None ->
         panel this1 = Some (js "none") /\ isCollapsed this1 = false)
    end.
Proof.
  intros Hh Hne Hp. unfold checkDomainMatch.
  rewrite (http_is_truthy href Hh), Hh. cbn [negb orb]. rewrite Hne.
  unfold bind at 1.
  destruct (matchEnvironment_returns href w) as [r Hr].
  destruct (matchEnvironment href w) as [[r'|e] w']; cbn [fst] in *; [|discriminate].
  injection Hr as ->.
  destruct r as [env|].
  - unfold showPanel, switchEnvironment, not_awaited, bind, ret, set_display,
      set_lastCheckedUrl. cbn [panel].
    destruct (panel this) as [d|] eqn:Ed.
    + destruct (str_eqb d (js "none")) eqn:En; cbn;
        (eexists; split; [reflexivity|]; cbn; repeat split; try discriminate).
      intros [= ->]. rewrite str_eqb_refl in En. discriminate.
    + cbn. eexists. split; [reflexivity|]. cbn. repeat split. discriminate.
  - unfold bind at 1. unfold console_debug, console_write.
    destruct (hidePanel_run loadPosition (set_lastCheckedUrl href this)
                (logged LDebug "the URL matches no login page, the panel is hidden" w')
                Hp) as (this1 & E & Hl & He & Hd & _).
    exists this1. split; [exact E|]. split; [exact Hl|]. split; [exact He|].
    exact Hd.
Qed.

Lemma url_check_shows_or_hides_witness :
  fst (checkDomainMatch (up := plain_URL) (ret tt) (fun _ => ret tt)
         (js "https://a.com/login")
         {| panel := Some (js "none"); isCollapsed := false;
            lastCheckedUrl := Some (js "https://a.com/home"); currentEnvId := None |}
         (world_with None [env_of "e1" "https://a.com/login"]))
  = Return {| panel := Some (js "flex"); isCollapsed := false;
              lastCheckedUrl := Some (js "https://a.com/login");
              currentEnvId := Some (js "e1") |}.
Proof.
  destruct (url_check_shows_or_hides plain_URL (ret tt) (fun _ => ret tt)
              (js "https://a.com/login")
              {| panel := Some (js "none"); isCollapsed := false;
                 lastCheckedUrl := Some (js "https://a.com/home");
                 currentEnvId := None |}
              (world_with None [env_of "e1" "https://a.com/login"]))
    as (this1 & E & _); [reflexivity | reflexivity | reflexivity |].
  reflexivity.
Defined.

(** X14. [checkDomainMatch] at a page URL that is empty or does not begin
    with ["http"], with [loadPosition] returning: the check returns and
    records the URL, whatever was recorded before; the current environment
    is kept; the panel, if there is one, is hidden and no longer collapsed;
    and when the panel was not collapsed nothing else happens: storage is
    not read and nothing is logged. *)
Theorem non_http_page_hides_panel (up : URLParser) (loadPosition : M unit)
        (loadAccounts : option jsstring -> M unit)
        (href : jsstring) (this : FloatingPanel) (w : World) :
  startsWith href (js "http") = false ->
  (forall w0, fst (loadPosition w0) = Return tt) ->
  exists this1,
    fst (checkDomainMatch loadPosition loadAccounts href this w) = Return this1 /\
    lastCheckedUrl this1 = Some href /\
    currentEnvId this1 = currentEnvId this /\
    (panel this <> None ->
     panel this1 = Some (js "none") /\ isCollapsed this1 = false) /\
    (isCollapsed this = false ->
     snd (checkDomainMatch loadPosition loadAccounts href this w) = w).
Proof.
  intros Hh Hp. unfold checkDomainMatch. rewrite Hh. cbn [negb].
  rewrite orb_true_r. unfold bind.
  destruct (hidePanel_run loadPosition this w Hp) as (this1 & E & Hl & He & Hd & Hw).
  destruct (hidePanel loadPosition this w) as [[t|e] w1]; cbn [fst snd] in *;
    [|discriminate].
  injection E as ->. eexists. split; [reflexivity|].
  cbn. repeat split; auto; apply Hd; assumption.
Qed.

Lemma non_http_page_hides_panel_witness :
  checkDomainMatch (up := plain_URL) (ret tt) (fun _ => ret tt)
    (js "chrome://extensions")
    {| panel := Some (js "flex"); isCollapsed := false;
       lastCheckedUrl := Some (js "chrome://extensions");
       currentEnvId := Some (js "e1") |}
    (world_with None [env_of "e1" "chrome://extensions"])
  = (Return {| panel := Some (js "none"); isCollapsed := false;
               lastCheckedUrl := Some (js "chrome://extensions");
               currentEnvId := Some (js "e1") |},
     world_with None [env_of "e1" "chrome://extensions"]).
Proof.
  destruct (non_http_page_hides_panel plain_URL (ret tt) (fun _ => ret tt)
              (js "chrome://extensions")
              {| panel := Some (js "flex"); isCollapsed := false;
                 lastCheckedUrl := Some (js "chrome://extensions");
                 currentEnvId := Some (js "e1") |}
              (world_with None [env_of "e1" "chrome://extensions"]))
    as (this1 & E & _); [reflexivity | reflexivity |].
  reflexivity.
Defined.

(** * Stored accounts: the popup, the panel and the background page *)


Lemma NoDup_app_one {A : Type} (l : list A) (a : A) :
  NoDup l -> ~ In a l -> NoDup (l ++ [a]).
Proof.
  intros Hnd Hin. induction Hnd as [|x l Hx Hnd IH]; cbn [app].
  - constructor; [intros [] | constructor].
  - constructor.
    + intros H. apply in_app_or in H. destruct H as [H|[H|[]]]; [exact (Hx H)|].
      apply Hin. left. symmetry. exact H.
    + apply IH. intros H. apply Hin. right. exact H.
Qed.


Section CipherStore.
Context {sc : SubtleCrypto}.

(** The cipher reads storage and never writes it. *)
Lemma encrypt_local (p s : jsstring) (w : World) :
  local (snd (encrypt p s w)) = local w.
Proof.
  rewrite encrypt_run. cbv zeta.
  destruct (derive_key s _) as [key|]; [|reflexivity].
  destruct (subtle_encrypt _ key _); reflexivity.
Qed.

Lemma after_resolve_local (mp : option jsstring) (w : World) :
  local (after_resolve mp w) = local w.
Proof.
  unfold after_resolve. destruct (js_truthy mp); [reflexivity|].
  destruct (local w) eqn:E; [exact E | exact E].
Qed.

Lemma encryptPassword_local (p : jsstring) (mp : option jsstring) (w : World) :
  local (snd (encryptPassword p mp w)) = local w.
Proof.
  rewrite encryptPassword_run.
  destruct (resolved_master mp w) as [m|].
  - unfold try_catch. pose proof (encrypt_local p m w) as H.
    destruct (encrypt p m w) as [[b|e] w']; cbn [snd] in *; exact H.
  - cbn [snd logged local]. apply after_resolve_local.
Qed.



Lemma encryptPassword_returns (p : jsstring) (mp : option jsstring) (w : World) :
  exists stored, fst (encryptPassword p mp w) = Return stored.
Proof.
  rewrite encryptPassword_run.
  destruct (resolved_master mp w) as [m|]; [|eexists; reflexivity].
  unfold try_catch. destruct (encrypt p m w) as [[b|e] w']; eexists; reflexivity.
Qed.

Lemma decryptPassword_returns (v : jsstring) (mp : option jsstring) (w : World) :
  exists r, fst (decryptPassword v mp w) = Return r.
Proof.
  rewrite decryptPassword_run.
  destruct (isBase64 v); [|eexists; reflexivity].
  destruct (resolved_master mp w) as [m|]; [|eexists; reflexivity].
  unfold try_catch. destruct (decrypt v m w) as [[b|e] w']; eexists; reflexivity.
Qed.



End CipherStore.


Ltac run_page :=
  unfold pbind, ptry, pret, effect, lift, Date_now, storage_get_accounts,
    storage_set_accounts, set_world;
  cbn [fst snd world accounts clock effects negb andb orb js_truthy].

Section PopupRuns.
Context {sc : SubtleCrypto}.

Lemma handleAccountSubmit_add (u a pw : jsstring) (this : Popup.AccountManager)
      (p : Page) (stored : jsstring) :
  trim u <> [] -> trim a <> [] -> pw <> [] ->
  js_truthy (Popup.currentEnvId this) = true ->
  js_truthy (Popup.currentAccountId this) = false ->
  local (world p) <> None ->
  fst (encryptPassword pw None (world p)) = Return stored ->
  fst (Popup.handleAccountSubmit true u a pw this p)
  = Return {| Popup.currentEnvId := Popup.currentEnvId this;
              Popup.currentAccountId := None |} /\
  accounts (snd (Popup.handleAccountSubmit true u a pw this p))
  = Some (or_empty (accounts p) ++
          [{| Account.id := Number_toString (clock p 0%nat);
              Account.envId := or_default (Popup.currentEnvId this) [];
              Account.username := trim u;
              Account.account := trim a;
              Account.password := stored;
              Account.createdAt := clock p 1%nat;
              Account.updatedAt := None |}]) /\
  local (world (snd (Popup.handleAccountSubmit true u a pw this p))) = local (world p).
Proof.
  intros Hu Ha Hp He Hc Hl Henc.
  unfold Popup.handleAccountSubmit. cbv zeta.
  destruct (trim u) as [|c1 u1]; [congruence|].
  destruct (trim a) as [|c2 a1]; [congruence|].
  destruct pw as [|c3 pw1]; [congruence|].
  rewrite He.
  assert (Hc' : match Popup.currentAccountId this with
                | Some (_ :: _) => False | _ => True end).
  { destruct (Popup.currentAccountId this) as [[|]|]; try exact I. discriminate. }
  pose proof (encryptPassword_local (c3 :: pw1) None (world p)) as Hl1.
  destruct (local (world p)) as [area|] eqn:El; [|congruence].
  unfold Popup.resetAccountForm. run_page.
  rewrite Henc. cbn [fst snd world accounts clock effects].
  rewrite Hl1.
  destruct (Popup.currentAccountId this) as [[|c i]|]; try contradiction;
    cbn [fst snd world accounts clock effects]; rewrite ?Hl1;
    repeat split; cbn [fst snd world accounts]; try reflexivity; exact Hl1.
Qed.


End PopupRuns.





Section PanelAccountRuns.
Context {sc : SubtleCrypto}.
Context (loadAccounts : option jsstring -> M unit).

Lemma handleAddAccountSubmit_run (u a pw : jsstring) (this : FloatingPanel)
      (p : Page) (stored : jsstring) :
  trim u <> [] -> trim a <> [] -> pw <> [] ->
  js_truthy (currentEnvId this) = true ->
  local (world p) <> None ->
  fst (encryptPassword pw None (world p)) = Return stored ->
  accounts (snd (Panel.handleAddAccountSubmit true loadAccounts u a pw this p))
  = Some (or_empty (accounts p) ++
          [{| Account.id := Number_toString (clock p 0%nat);
              Account.envId := or_default (currentEnvId this) [];
              Account.username := trim u;
              Account.account := trim a;
              Account.password := stored;
              Account.createdAt := clock p 1%nat;
              Account.updatedAt := None |}]) /\
  exists w1,
    snd (loadAccounts (currentEnvId this) (snd (encryptPassword pw None (world p)))) = w1 /\
    local (world (snd (Panel.handleAddAccountSubmit true loadAccounts u a pw this p)))
    = local w1.
Proof.
  intros Hu Ha Hp He Hl Henc.
  unfold Panel.handleAddAccountSubmit. cbv zeta.
  destruct (trim u) as [|c1 u1]; [congruence|].
  destruct (trim a) as [|c2 a1]; [congruence|].
  destruct pw as [|c3 pw1]; [congruence|].
  cbn [js_truthy negb orb]. rewrite He. cbn [negb].
  pose proof (encryptPassword_local (c3 :: pw1) None (world p)) as Hl1.
  destruct (local (world p)) as [area|] eqn:El; [|congruence].
  run_page.
  rewrite Henc. cbn [fst snd world accounts clock effects].
  repeat (rewrite Hl1; cbn [fst snd world accounts clock effects]).
  destruct (loadAccounts (currentEnvId this) _) as [[[]|e] w1];
    cbn [fst snd world accounts clock effects console_error console_write logged local];
    (split; [reflexivity|]); exists w1; split; reflexivity.
Qed.


End PanelAccountRuns.



Lemma filter_none_related {A : Type} (f : A -> bool) (l : list A) :
  filter f l = [] -> filter (fun x => negb (f x)) l = l.
Proof.
  induction l as [|x l IH]; [reflexivity|]. cbn [filter].
  destruct (f x); [discriminate|]. cbn [negb]. intros H. rewrite IH by exact H.
  reflexivity.
Qed.

(** What [handleDeleteEnv] leaves in storage once the user has confirmed. *)
Lemma handleDeleteEnv_confirmed (envId : jsstring) (this : Popup.AccountManager)
      (p : Page) (area : StorageArea) :
  envId <> [] -> local (world p) = Some area ->
  exists p1,
    Popup.handleDeleteEnv true envId this p
    = (Return {| Popup.currentEnvId :=
                   if strict_eq envId (Popup.currentEnvId this) then None
                   else Popup.currentEnvId this;
                 Popup.currentAccountId := Popup.currentAccountId this |}, p1) /\
    or_empty (accounts p1)
    = filter (fun acc => negb (str_eqb (Account.envId acc) envId))
             (or_empty (accounts p)) /\
    local (world p1)
    = Some {| masterPassword := masterPassword area;
              environments :=
                Some (filter (fun e => negb (str_eqb (id e) envId))
                             (or_empty (environments area))) |}.
Proof.
  intros Hne Hl. unfold Popup.handleDeleteEnv.
  destruct this as [cur cacc]. cbn [Popup.currentEnvId Popup.currentAccountId].
  destruct envId as [|c envId]; [congruence|]. cbn [js_truthy negb].
  unfold pbind at 1. unfold storage_get_accounts at 1. rewrite Hl.
  set (related := filter (fun acc => str_eqb (Account.envId acc) (c :: envId))
                         (or_empty (accounts p))).
  assert (Hrel : related = [] ->
                 filter (fun acc => negb (str_eqb (Account.envId acc) (c :: envId)))
                        (or_empty (accounts p)) = or_empty (accounts p))
    by (apply filter_none_related).
  destruct related as [|r related'].
  - specialize (Hrel eq_refl). cbn [length Z.of_nat Z.ltb Z.compare].
    unfold storage_local_get, storage_local_set_environments. run_page.
    cbn [fst snd world accounts clock effects local negb].
    repeat (rewrite Hl; cbn [fst snd world accounts clock effects local negb]).
    destruct (strict_eq (c :: envId) cur);
      cbn [fst snd world accounts clock effects local];
      eexists; (split; [reflexivity|]);
      cbn [fst snd world accounts clock effects local];
      (split; [symmetry; exact Hrel | reflexivity]).
  - clear Hrel.
    replace (0 <? Z.of_nat (length (r :: related'))) with true
      by (symmetry; apply Z.ltb_lt; cbn [length]; lia).
    unfold storage_local_get, storage_local_set_environments. run_page.
    cbn [fst snd world accounts clock effects local negb].
    repeat (rewrite Hl; cbn [fst snd world accounts clock effects local negb]).
    destruct (strict_eq (c :: envId) cur);
      cbn [fst snd world accounts clock effects local or_empty];
      eexists; (split; [reflexivity|]);
      cbn [fst snd world accounts clock effects local or_empty];
      (split; reflexivity).
Qed.

(** X17. Deleting an environment in the popup deletes its accounts with
    it. Once the user has confirmed, [handleDeleteEnv] leaves the accounts
    of the other environments, in their order, and the other environments,
    in their order; the master secret stays; the current environment is
    cleared when it was the one deleted. So no account is left that refers
    to the environment, and when every account referred to a stored
    environment before, every account does so after. When the user
    declines, storage is as it was. *)
Theorem delete_environment_cascades (envId : jsstring) (this : Popup.AccountManager)
        (p : Page) (area : StorageArea) :
  envId <> [] -> local (world p) = Some area ->
  let p1 := snd (Popup.handleDeleteEnv true envId this p) in
  let p0 := snd (Popup.handleDeleteEnv false envId this p) in
  or_empty (accounts p1)
  = filter (fun acc => negb (str_eqb (Account.envId acc) envId)) (or_empty (accounts p)) /\
  (exists area1,
      local (world p1) = Some area1 /\
      masterPassword area1 = masterPassword area /\
      or_empty (environments area1)
      = filter (fun e => negb (str_eqb (id e) envId)) (or_empty (environments area)) /\
      ((forall acc, In acc (or_empty (accounts p)) ->
                    exists e, In e (or_empty (environments area)) /\
                              id e = Account.envId acc) ->
       forall acc, In acc (or_empty (accounts p1)) ->
                   exists e, In e (or_empty (environments area1)) /\
                             id e = Account.envId acc)) /\
  (forall acc, In acc (or_empty (accounts p1)) -> Account.envId acc <> envId) /\
  (exists this1,
      fst (Popup.handleDeleteEnv true envId this p) = Return this1 /\
      (Popup.currentEnvId this = Some envId -> Popup.currentEnvId this1 = None) /\
      (Popup.currentEnvId this <> Some envId ->
       Popup.currentEnvId this1 = Popup.currentEnvId this)) /\
  accounts p0 = accounts p /\ local (world p0) = local (world p).
Proof.
  intros Hne Hl p1 p0.
  destruct (handleDeleteEnv_confirmed envId this p area Hne Hl)
    as (p1' & Erun & Ha & Hw).
  assert (Ep1 : p1 = p1') by (unfold p1; rewrite Erun; reflexivity).
  assert (Ht : fst (Popup.handleDeleteEnv true envId this p)
               = Return {| Popup.currentEnvId :=
                             if strict_eq envId (Popup.currentEnvId this) then None
                             else Popup.currentEnvId this;
                           Popup.currentAccountId := Popup.currentAccountId this |})
    by (rewrite Erun; reflexivity).
  clearbody p1. subst p1'. clear Erun.
  assert (Hleft : forall acc, In acc (or_empty (accounts p1)) ->
                              In acc (or_empty (accounts p)) /\
                              Account.envId acc <> envId).
  { intros acc Hin. rewrite Ha in Hin. apply filter_In in Hin.
    destruct Hin as [Hin Hb]. split; [exact Hin|].
    intros E. rewrite E, str_eqb_refl in Hb. discriminate. }
  split; [exact Ha|]. split; [|split; [|split]].
  - eexists. split; [exact Hw|]. cbn [masterPassword environments or_empty].
    split; [reflexivity|]. split; [reflexivity|].
    intros Href acc Hin. destruct (Hleft acc Hin) as [Hin0 Hother].
    destruct (Href acc Hin0) as (e & He & Hid).
    exists e. split; [|exact Hid]. apply filter_In. split; [exact He|].
    destruct (str_eqb (id e) envId) eqn:Ee; [|reflexivity].
    apply str_eqb_eq in Ee. congruence.
  - intros acc Hin. exact (proj2 (Hleft acc Hin)).
  - eexists. split; [exact Ht|]. cbn [Popup.currentEnvId]. split.
    + intros ->. cbn [strict_eq]. rewrite str_eqb_refl. reflexivity.
    + intros Hcur. destruct (strict_eq envId (Popup.currentEnvId this)) eqn:E;
        [|reflexivity].
      apply strict_eq_true in E. congruence.
  - unfold p0, Popup.handleDeleteEnv.
    destruct envId as [|c envId]; [congruence|]. cbn [js_truthy negb].
    run_page. rewrite !Hl. cbn [fst snd world accounts clock effects local negb].
    destruct (0 <? Z.of_nat (length _));
      cbn [fst snd world accounts clock effects local negb];
      split; try reflexivity; exact Hl.
Qed.

Lemma delete_environment_cascades_witness :
  or_empty (accounts (snd (Popup.handleDeleteEnv true (js "e1")
      {| Popup.currentEnvId := Some (js "e1"); Popup.currentAccountId := None |}
      (page_with (world_with None [env_of "e1" "https://a.com/login";
                                   env_of "e2" "https://b.com/login"])
         (Some [{| Account.id := js "1"; Account.envId := js "e1";
                   Account.username := js "u1"; Account.account := js "a1";
                   Account.password := js "p1"; Account.createdAt := 1;
                   Account.updatedAt := None |};
                {| Account.id := js "2"; Account.envId := js "e2";
                   Account.username := js "u2"; Account.account := js "a2";
                   Account.password := js "p2"; Account.createdAt := 2;
                   Account.updatedAt := None |}])
         1700000000000))))
  = [{| Account.id := js "2"; Account.envId := js "e2";
        Account.username := js "u2"; Account.account := js "a2";
        Account.password := js "p2"; Account.createdAt := 2;
        Account.updatedAt := None |}].
Proof.
  apply (delete_environment_cascades (js "e1")
           {| Popup.currentEnvId := Some (js "e1"); Popup.currentAccountId := None |}
           (page_with (world_with None [env_of "e1" "https://a.com/login";
                                        env_of "e2" "https://b.com/login"])
              (Some [{| Account.id := js "1"; Account.envId := js "e1";
                        Account.username := js "u1"; Account.account := js "a1";
                        Account.password := js "p1"; Account.createdAt := 1;
                        Account.updatedAt := None |};
                     {| Account.id := js "2"; Account.envId := js "e2";
                        Account.username := js "u2"; Account.account := js "a2";
                        Account.password := js "p2"; Account.createdAt := 2;
                        Account.updatedAt := None |}])
              1700000000000)
           {| masterPassword := None;
              environments := Some [env_of "e1" "https://a.com/login";
                                    env_of "e2" "https://b.com/login"] |}).
  - discriminate.
  - reflexivity.
Defined.

Lemma js_inj (s t : string) : js s = js t -> s = t.
Proof.
  unfold js. revert t. induction s as [|a s IH]; intros [|b t] H; cbn in H;
    try discriminate; [reflexivity|].
  injection H as Hab Hst. f_equal; [|apply IH; exact Hst].
  apply N2Z.inj in Hab.
  rewrite <- (ascii_N_embedding a), <- (ascii_N_embedding b), Hab. reflexivity.
Qed.

(** Two times have the same decimal text only when they are the same. *)
Lemma Number_toString_inj (n n' : Z) :
  Number_toString n = Number_toString n' -> n = n'.
Proof.
  unfold Number_toString. intros H. apply js_inj in H.
  apply DecimalZ.to_int_inj.
  assert (N : forall z, Z.to_int z <> Decimal.Pos Decimal.Nil /\
                        Z.to_int z <> Decimal.Neg Decimal.Nil).
  { intros [|q|q]; cbn; split; try discriminate;
      intros E; injection E as E; apply (DecimalPos.Unsigned.to_uint_nonnil q); exact E. }
  assert (S : Some (Z.to_int n) = Some (Z.to_int n')).
  { rewrite <- (NilZero.isi (Z.to_int n)) by apply N.
    rewrite <- (NilZero.isi (Z.to_int n')) by apply N.
    rewrite H. reflexivity. }
  injection S as S. exact S.
Qed.

(** X18. Accounts get their id from the clock. When the stored accounts
    have distinct ids, each the decimal text of a time before the present
    reading of the clock, [handleAccountSubmit] of the popup in adding mode
    and [handleAddAccountSubmit] of the panel keep the stored accounts as
    they are, in their order, and append one account whose id is the
    decimal text of the reading; the ids are distinct again, each the text
    of a time before the next millisecond. *)
Theorem added_account_has_fresh_id (sc : SubtleCrypto)
        (loadAccounts : option jsstring -> M unit) (u a pw : jsstring)
        (popup : Popup.AccountManager) (this : FloatingPanel) (p : Page) :
  trim u <> [] -> trim a <> [] -> pw <> [] ->
  js_truthy (Popup.currentEnvId popup) = true ->
  js_truthy (Popup.currentAccountId popup) = false ->
  js_truthy (currentEnvId this) = true ->
  local (world p) <> None ->
  ids_before (clock p 0%nat) (or_empty (accounts p)) ->
  (exists new,
      accounts (snd (Popup.handleAccountSubmit true u a pw popup p))
      = Some (or_empty (accounts p) ++ [new]) /\
      Account.id new = Number_toString (clock p 0%nat) /\
      ids_before (clock p 0%nat + 1) (or_empty (accounts p) ++ [new])) /\
  (exists new,
      accounts (snd (Panel.handleAddAccountSubmit true loadAccounts u a pw this p))
      = Some (or_empty (accounts p) ++ [new]) /\
      Account.id new = Number_toString (clock p 0%nat) /\
      ids_before (clock p 0%nat + 1) (or_empty (accounts p) ++ [new])).
Proof.
  intros Hu Ha Hp He Hc He' Hl Hids.
  destruct (encryptPassword_returns pw None (world p)) as [stored Hst].
  assert (Hnew : forall new,
             Account.id new = Number_toString (clock p 0%nat) ->
             ids_before (clock p 0%nat + 1) (or_empty (accounts p) ++ [new])).
  { intros new Hid. destruct Hids as [Hnd Hall]. split.
    - rewrite map_app. cbn [map]. apply NoDup_app_one; [exact Hnd|].
      intros Hin. apply in_map_iff in Hin. destruct Hin as (x & Hx & Hin).
      rewrite Forall_forall in Hall. destruct (Hall x Hin) as (t0 & Ht0 & Hlt).
      rewrite Hid, Ht0 in Hx. apply Number_toString_inj in Hx. lia.
    - apply Forall_app. split.
      + apply (Forall_impl _ (P := fun x => exists t0,
                     Account.id x = Number_toString t0 /\ t0 < clock p 0%nat));
          [|exact Hall].
        intros x (t0 & Ht0 & Hlt). exists t0. split; [exact Ht0 | lia].
      + constructor; [|constructor]. exists (clock p 0%nat). split; [exact Hid | lia]. }
  split.
  - destruct (handleAccountSubmit_add u a pw popup p stored Hu Ha Hp He Hc Hl Hst)
      as (_ & Hacc & _).
    eexists. split; [exact Hacc|]. split; [reflexivity|]. apply Hnew. reflexivity.
  - destruct (handleAddAccountSubmit_run loadAccounts u a pw this p stored
                Hu Ha Hp He' Hl Hst) as (Hacc & _).
    eexists. split; [exact Hacc|]. split; [reflexivity|]. apply Hnew. reflexivity.
Qed.

Lemma added_account_has_fresh_id_witness :
  exists new,
    accounts (snd (Popup.handleAccountSubmit (sc := sample_subtle) true
                     (js "bob") (js "bob@a.com") (js "pw")
                     {| Popup.currentEnvId := Some (js "e1");
                        Popup.currentAccountId := None |}
                     (page_with sample_world
                        (Some [{| Account.id := js "1699999999999";
                                  Account.envId := js "e1";
                                  Account.username := js "u1";
                                  Account.account := js "a1";
                                  Account.password := js "p1";
                                  Account.createdAt := 1699999999999;
                                  Account.updatedAt := None |}])
                        1700000000000)))
    = Some ([{| Account.id := js "1699999999999";
                Account.envId := js "e1";
                Account.username := js "u1";
                Account.account := js "a1";
                Account.password := js "p1";
                Account.createdAt := 1699999999999;
                Account.updatedAt := None |}] ++ [new]) /\
    Account.id new = js "1700000000000" /\
    ids_before 1700000000001
      ([{| Account.id := js "1699999999999";
           Account.envId := js "e1";
           Account.username := js "u1";
           Account.account := js "a1";
           Account.password := js "p1";
           Account.createdAt := 1699999999999;
           Account.updatedAt := None |}] ++ [new]).
Proof.
  apply (added_account_has_fresh_id sample_subtle (fun _ => ret tt)
           (js "bob") (js "bob@a.com") (js "pw")
           {| Popup.currentEnvId := Some (js "e1"); Popup.currentAccountId := None |}
           {| panel := None; isCollapsed := false; lastCheckedUrl := None;
              currentEnvId := Some (js "e1") |}
           (page_with sample_world
              (Some [{| Account.id := js "1699999999999";
                        Account.envId := js "e1";
                        Account.username := js "u1";
                        Account.account := js "a1";
                        Account.password := js "p1";
                        Account.createdAt := 1699999999999;
                        Account.updatedAt := None |}])
              1700000000000)).
  - discriminate.
  - discriminate.
  - discriminate.
  - reflexivity.
  - reflexivity.
  - reflexivity.
  - discriminate.
  - split.
    + constructor; [intros [] | constructor].
    + constructor; [|constructor]. exists 1699999999999. split; reflexivity.
Defined.

Lemma filter_remove_unique (accountId : jsstring) (l1 l2 : list Account.t)
      (acct : Account.t) :
  Account.id acct = accountId ->
  NoDup (map Account.id (l1 ++ acct :: l2)) ->
  filter (fun a => negb (str_eqb (Account.id a) accountId)) (l1 ++ acct :: l2)
  = l1 ++ l2.
Proof.
  intros Hid Hnd.
  assert (Hkeep : forall l, (forall x, In x l -> Account.id x <> accountId) ->
                            filter (fun a => negb (str_eqb (Account.id a) accountId)) l = l).
  { induction l as [|x l IH]; intros Hall; [reflexivity|]. cbn [filter].
    destruct (str_eqb (Account.id x) accountId) eqn:E.
    - apply str_eqb_eq in E. exfalso. apply (Hall x); [left; reflexivity | exact E].
    - cbn [negb]. rewrite IH; [reflexivity|]. intros y Hy. apply Hall. right. exact Hy. }
  rewrite map_app in Hnd. cbn [map] in Hnd.
  pose proof (NoDup_remove_2 _ _ _ Hnd) as Hnot.
  rewrite filter_app. cbn [filter]. rewrite Hid, str_eqb_refl. cbn [negb].
  rewrite !Hkeep; [reflexivity| |];
    intros x Hx E; apply Hnot; apply in_or_app; [right | left];
      apply in_map_iff; exists x; (split; [congruence | exact Hx]).
Qed.

(** X19. Deleting an account in the popup. With distinct ids among the
    stored accounts, [handleDeleteAccount] confirmed by the user removes
    the account of the id and nothing else: the accounts before it and
    after it stay, in their order, and the world (environments, master
    secret, console) is as it was. When the user declines, or storage
    cannot be reached, the stored accounts are as they were. *)
Theorem delete_account_removes_it (accountId : jsstring) (confirm : bool)
        (this : Popup.AccountManager) (p : Page)
        (l1 l2 : list Account.t) (acct : Account.t) :
  accounts p = Some (l1 ++ acct :: l2) ->
  Account.id acct = accountId ->
  NoDup (map Account.id (l1 ++ acct :: l2)) ->
  let p1 := snd (Popup.handleDeleteAccount confirm accountId this p) in
  world p1 = world p /\
  (confirm = true -> local (world p) <> None -> accounts p1 = Some (l1 ++ l2)) /\
  (confirm = false \/ local (world p) = None -> accounts p1 = accounts p).
Proof.
  intros Hacc Hid Hnd p1. unfold p1, Popup.handleDeleteAccount. run_page.
  destruct (local (world p)) as [area|] eqn:El.
  - cbn [fst snd world accounts clock effects]. destruct confirm; cbn [negb].
    + cbn [fst snd world accounts clock effects].
      repeat (rewrite El; cbn [fst snd world accounts clock effects]).
      split; [reflexivity|]. split.
      * intros _ _. rewrite Hacc. cbn [or_empty].
        rewrite (filter_remove_unique accountId l1 l2 acct Hid Hnd). reflexivity.
      * intros [H|H]; discriminate.
    + cbn [fst snd world accounts clock effects].
      split; [reflexivity|]. split; [discriminate | reflexivity].
  - cbn [fst snd world accounts clock effects].
    split; [reflexivity|]. split; [congruence | reflexivity].
Qed.

Lemma delete_account_removes_it_witness :
  accounts (snd (Popup.handleDeleteAccount true (js "2")
      {| Popup.currentEnvId := Some (js "e1"); Popup.currentAccountId := None |}
      (page_with sample_world
         (Some ([{| Account.id := js "1"; Account.envId := js "e1";
                    Account.username := js "u1"; Account.account := js "a1";
                    Account.password := js "p1"; Account.createdAt := 1;
                    Account.updatedAt := None |}] ++
                {| Account.id := js "2"; Account.envId := js "e1";
                   Account.username := js "u2"; Account.account := js "a2";
                   Account.password := js "p2"; Account.createdAt := 2;
                   Account.updatedAt := None |} :: []))
         1700000000000)))
  = Some ([{| Account.id := js "1"; Account.envId := js "e1";
              Account.username := js "u1"; Account.account := js "a1";
              Account.password := js "p1"; Account.createdAt := 1;
              Account.updatedAt := None |}] ++ []).
Proof.
  apply (delete_account_removes_it (js "2") true
           {| Popup.currentEnvId := Some (js "e1"); Popup.currentAccountId := None |}
           (page_with sample_world
              (Some ([{| Account.id := js "1"; Account.envId := js "e1";
                         Account.username := js "u1"; Account.account := js "a1";
                         Account.password := js "p1"; Account.createdAt := 1;
                         Account.updatedAt := None |}] ++
                     {| Account.id := js "2"; Account.envId := js "e1";
                        Account.username := js "u2"; Account.account := js "a2";
                        Account.password := js "p2"; Account.createdAt := 2;
                        Account.updatedAt := None |} :: []))
              1700000000000)
           [{| Account.id := js "1"; Account.envId := js "e1";
               Account.username := js "u1"; Account.account := js "a1";
               Account.password := js "p1"; Account.createdAt := 1;
               Account.updatedAt := None |}]
           []
           {| Account.id := js "2"; Account.envId := js "e1";
              Account.username := js "u2"; Account.account := js "a2";
              Account.password := js "p2"; Account.createdAt := 2;
              Account.updatedAt := None |}).
  - reflexivity.
  - reflexivity.
  - vm_compute. constructor; [|constructor; [|constructor]].
    + intros [H|[]]. discriminate.
    + intros [].
  - reflexivity.
  - discriminate.
Defined.

(** X20. Backup and restore in the background page. With storage
    reachable, [backupData] answers with the stored environments and
    accounts (empty lists for missing keys) and changes nothing;
    [restoreData] with that backup, on whatever storage holds by then,
    puts exactly these environments and accounts back, replacing what is
    there, and keeps the master secret, which is in no backup. A restore
    whose data is missing, or whose environments or accounts are not an
    array, is refused and changes nothing; any other action is refused as
    unknown. *)
Theorem backup_restore_roundtrip (version : jsstring) (toISO : Z -> jsstring)
        (p : Page) (area : StorageArea) :
  local (world p) = Some area ->
  exists backup,
    Messages.runtime_onMessage version toISO Messages.backupData p
    = (Return {| Messages.success := true; Messages.data := Some backup;
                 Messages.error := None |},
       {| world := world p; accounts := accounts p;
          clock := fun i => clock p (S i); effects := effects p |}) /\
    Messages.environments backup = Some (or_empty (environments area)) /\
    Messages.accounts backup = Some (or_empty (accounts p)) /\
    (forall p' area',
        local (world p') = Some area' ->
        exists p1,
          Messages.runtime_onMessage version toISO
            (Messages.restoreData (Some backup)) p'
          = (Return {| Messages.success := true; Messages.data := None;
                       Messages.error := None |}, p1) /\
          accounts p1 = Some (or_empty (accounts p)) /\
          local (world p1)
          = Some {| masterPassword := masterPassword area';
                    environments := Some (or_empty (environments area)) |}) /\
    (forall d,
        match d with
        | Some b => Messages.environments b = None \/ Messages.accounts b = None
        | None => True
        end ->
        Messages.runtime_onMessage version toISO (Messages.restoreData d) p
        = (Return {| Messages.success := false; Messages.data := None;
                     Messages.error := Some Messages.invalid_backup_data |}, p)) /\
    Messages.runtime_onMessage version toISO Messages.otherAction p
    = (Return {| Messages.success := false; Messages.data := None;
                 Messages.error := Some Messages.unknown_action |}, p).
Proof.
  intros Hl. eexists. split; [|split; [|split; [|split; [|split]]]].
  - unfold Messages.runtime_onMessage, storage_get_both. run_page.
    rewrite Hl. cbn [fst snd world accounts clock effects]. reflexivity.
  - reflexivity.
  - reflexivity.
  - intros p' area' Hl'. cbn [Messages.environments Messages.accounts].
    unfold Messages.runtime_onMessage, storage_set_both. run_page.
    rewrite Hl'. cbn [fst snd world accounts clock effects].
    eexists. split; [reflexivity|]. split; reflexivity.
  - intros [[v t [envs|] [accts|]]|] Hd; try reflexivity.
    destruct Hd as [Hd|Hd]; discriminate Hd.
  - reflexivity.
Qed.

Lemma backup_restore_roundtrip_witness :
  exists p1,
    Messages.runtime_onMessage (js "1.0.0") (fun _ => js "2023-11-14T22:13:20.000Z")
      (Messages.restoreData
         (Some {| Messages.version := js "1.0.0";
                  Messages.timestamp := js "2023-11-14T22:13:20.000Z";
                  Messages.environments := Some [env_of "e1" "https://a.com/login"];
                  Messages.accounts := Some [] |}))
      (page_with (world_with (Some (js "secret")) []) None 1700000000001)
    = (Return {| Messages.success := true; Messages.data := None;
                 Messages.error := None |}, p1) /\
    accounts p1 = Some [] /\
    local (world p1)
    = Some {| masterPassword := Some (js "secret");
              environments := Some [env_of "e1" "https://a.com/login"] |}.
Proof.
  destruct (backup_restore_roundtrip (js "1.0.0") (fun _ => js "2023-11-14T22:13:20.000Z")
              (page_with (world_with None [env_of "e1" "https://a.com/login"])
                 None 1700000000000)
              {| masterPassword := None;
                 environments := Some [env_of "e1" "https://a.com/login"] |}
              eq_refl) as (backup & Eb & He & Ha & Hr & _).
  injection Eb as <-.
  apply (Hr (page_with (world_with (Some (js "secret")) []) None 1700000000001)
            {| masterPassword := Some (js "secret"); environments := Some [] |}).
  reflexivity.
Defined.

Lemma findIndex_first {A : Type} (f : A -> bool) (l1 l2 : list A) (a : A) :
  (forall x, In x l1 -> f x = false) -> f a = true ->
  findIndex f (l1 ++ a :: l2) = Some (length l1).
Proof.
  intros Hl Ha. induction l1 as [|x l1 IH]; cbn [app findIndex length].
  - rewrite Ha. reflexivity.
  - rewrite (Hl x) by (left; reflexivity). rewrite IH; [reflexivity|].
    intros y Hy. apply Hl. right. exact Hy.
Qed.

Lemma findIndex_none {A : Type} (f : A -> bool) (l : list A) :
  (forall x, In x l -> f x = false) -> findIndex f l = None.
Proof.
  intros Hl. induction l as [|x l IH]; [reflexivity|]. cbn [findIndex].
  rewrite (Hl x) by (left; reflexivity). rewrite IH; [reflexivity|].
  intros y Hy. apply Hl. right. exact Hy.
Qed.

Lemma array_set_middle {A : Type} (l1 l2 : list A) (a b : A) :
  nth_error (l1 ++ a :: l2) (length l1) = Some a /\
  array_set (l1 ++ a :: l2) (length l1) b = l1 ++ b :: l2.
Proof.
  induction l1 as [|x l1 [IH1 IH2]]; cbn [app length nth_error array_set].
  - split; reflexivity.
  - split; [exact IH1 | rewrite IH2; reflexivity].
Qed.

(** X21. Editing an account in the popup. With the form valid and
    [currentAccountId] set, [handleAccountSubmit] rewrites the first stored
    account of that id where it stands: the user name, the account and the
    password (as [encryptPassword] returns it) are those of the form,
    [updatedAt] is the reading of the clock, the id, the environment and
    [createdAt] are kept, and every other account is as it was; the edit
    mode is left. When no stored account has the id, nothing is stored and
    the edit mode stays. *)
Theorem edited_account_keeps_its_place (sc : SubtleCrypto) (u a pw cid : jsstring)
        (this : Popup.AccountManager) (p : Page) (stored : jsstring) :
  trim u <> [] -> trim a <> [] -> pw <> [] ->
  js_truthy (Popup.currentEnvId this) = true ->
  Popup.currentAccountId this = Some cid -> cid <> [] ->
  local (world p) <> None ->
  fst (encryptPassword pw None (world p)) = Return stored ->
  (forall l1 old l2,
      accounts p = Some (l1 ++ old :: l2) ->
      Account.id old = cid ->
      (forall x, In x l1 -> Account.id x <> cid) ->
      exists p1,
        Popup.handleAccountSubmit true u a pw this p
        = (Return {| Popup.currentEnvId := Popup.currentEnvId this;
                     Popup.currentAccountId := None |}, p1) /\
        accounts p1
        = Some (l1 ++ {| Account.id := Account.id old;
                         Account.envId := Account.envId old;
                         Account.username := trim u;
                         Account.account := trim a;
                         Account.password := stored;
                         Account.createdAt := Account.createdAt old;
                         Account.updatedAt := Some (clock p 0%nat) |} :: l2)) /\
  ((forall x, In x (or_empty (accounts p)) -> Account.id x <> cid) ->
   exists p1,
     Popup.handleAccountSubmit true u a pw this p = (Return this, p1) /\
     accounts p1 = accounts p).
Proof.
  intros Hu Ha Hp He Hc Hcid Hl Henc.
  pose proof (encryptPassword_local pw None (world p)) as Hl1.
  assert (Hneq : forall x, Account.id x <> cid -> str_eqb (Account.id x) cid = false).
  { intros x Hx. destruct (str_eqb (Account.id x) cid) eqn:E; [|reflexivity].
    apply str_eqb_eq in E. contradiction. }
  split.
  - intros l1 old l2 Hacc Hid Hfirst.
    unfold Popup.handleAccountSubmit. cbv zeta.
    destruct (trim u) as [|c1 u1]; [congruence|].
    destruct (trim a) as [|c2 a1]; [congruence|].
    destruct pw as [|c3 pw1]; [congruence|].
    rewrite He, Hc. destruct cid as [|c i]; [congruence|].
    destruct (local (world p)) as [area|] eqn:El; [|congruence].
    unfold Popup.resetAccountForm. run_page.
    rewrite Henc. cbn [fst snd world accounts clock effects].
    rewrite Hl1, Hacc. cbn [or_empty].
    rewrite (findIndex_first _ l1 l2 old)
      by (intros; try apply Hneq; auto; rewrite Hid; apply str_eqb_refl).
    destruct (array_set_middle l1 l2 old
                {| Account.id := Account.id old;
                   Account.envId := Account.envId old;
                   Account.username := c1 :: u1;
                   Account.account := c2 :: a1;
                   Account.password := stored;
                   Account.createdAt := Account.createdAt old;
                   Account.updatedAt := Some (clock p 0%nat) |}) as [En Es].
    rewrite En. cbv beta iota. cbn [fst snd world accounts clock effects].
    rewrite Es. cbn [fst snd world accounts clock effects].
    rewrite Hl1. cbn [fst snd world accounts clock effects].
    eexists. split; reflexivity.
  - intros Hnone.
    unfold Popup.handleAccountSubmit. cbv zeta.
    destruct (trim u) as [|c1 u1]; [congruence|].
    destruct (trim a) as [|c2 a1]; [congruence|].
    destruct pw as [|c3 pw1]; [congruence|].
    rewrite He, Hc. destruct cid as [|c i]; [congruence|].
    destruct (local (world p)) as [area|] eqn:El; [|congruence].
    run_page.
    rewrite Henc. cbn [fst snd world accounts clock effects].
    rewrite Hl1.
    rewrite (findIndex_none _ (or_empty (accounts p)))
      by (intros; apply Hneq; auto).
    cbn [fst snd world accounts clock effects].
    eexists. split; reflexivity.
Qed.

Lemma edited_account_keeps_its_place_witness :
  exists p1,
    Popup.handleAccountSubmit (sc := sample_subtle) true
      (js "bob") (js "bob@a.com") (js "pw")
      {| Popup.currentEnvId := Some (js "e1"); Popup.currentAccountId := Some (js "2") |}
      (page_with sample_world
         (Some ([{| Account.id := js "1"; Account.envId := js "e1";
                    Account.username := js "u1"; Account.account := js "a1";
                    Account.password := js "p1"; Account.createdAt := 1;
                    Account.updatedAt := None |}] ++
                {| Account.id := js "2"; Account.envId := js "e1";
                   Account.username := js "u2"; Account.account := js "a2";
                   Account.password := js "p2"; Account.createdAt := 2;
                   Account.updatedAt := None |} :: []))
         1700000000000)
    = (Return {| Popup.currentEnvId := Some (js "e1"); Popup.currentAccountId := None |},
       p1) /\
    accounts p1
    = Some ([{| Account.id := js "1"; Account.envId := js "e1";
                Account.username := js "u1"; Account.account := js "a1";
                Account.password := js "p1"; Account.createdAt := 1;
                Account.updatedAt := None |}] ++
            {| Account.id := js "2"; Account.envId := js "e1";
               Account.username := js "bob"; Account.account := js "bob@a.com";
               Account.password := sample_blob; Account.createdAt := 2;
               Account.updatedAt := Some 1700000000000 |} :: []).
Proof.
  refine (proj1 (edited_account_keeps_its_place sample_subtle
                   (js "bob") (js "bob@a.com") (js "pw") (js "2")
                   {| Popup.currentEnvId := Some (js "e1");
                      Popup.currentAccountId := Some (js "2") |}
                   (page_with sample_world _ 1700000000000) sample_blob
                   _ _ _ _ _ _ _ _)
                [{| Account.id := js "1"; Account.envId := js "e1";
                    Account.username := js "u1"; Account.account := js "a1";
                    Account.password := js "p1"; Account.createdAt := 1;
                    Account.updatedAt := None |}]
                {| Account.id := js "2"; Account.envId := js "e1";
                   Account.username := js "u2"; Account.account := js "a2";
                   Account.password := js "p2"; Account.createdAt := 2;
                   Account.updatedAt := None |}
                [] _ _ _).
  - discriminate.
  - discriminate.
  - discriminate.
  - reflexivity.
  - reflexivity.
  - discriminate.
  - discriminate.
  - vm_compute. reflexivity.
  - reflexivity.
  - reflexivity.
  - intros x [<-|[]]. discriminate.
Defined.
